(** * Download orchestration pipeline of the Telegram downloader bot

    A shallow embedding of the TypeScript services

    - [YtdlpService]         (ytdlp/ytdlp.service.ts),
    - [UploaderService]      (uploader/uploader.service.ts),
    - [VideoSessionService]  (downloader/video-session.service.ts),
    - [DownloaderService]    (downloader/downloader.service.ts),
    - [VideoInfoDto], [FormatDto] (downloader/dto/video-info.dto.ts),

    followed by the properties of the pipeline that the specification states
    about them: format resolution, the session store, the result cache,
    in-flight deduplication, the download job and progress reporting.

    Conventions of the embedding.
    - JavaScript numbers that the code uses as integers (heights, byte
      sizes, ids, timestamps in milliseconds) are [Z]; the progress
      percentages, which carry a fractional part, are exact rationals [Q], so
      the rounding of binary floating point at a threshold is not modelled.
    - JavaScript strings are [string]s of UTF-8 bytes.  The string tests of
      the code ([includes], [toLowerCase], [===], the regular expressions)
      look for ASCII patterns, which UTF-8 preserves.
    - [undefined] and [null] are [None]; where the code only tests a value
      for truthiness, the value is a [bool].
    - An [async] method is a resumption: it runs to its next call; at an
      awaited call other flows may run before it is resumed with the
      outcome of the call, a value or a thrown error.
    - Whatever the program does not determine -- whether a call to the chat
      platform, a store, a child process or the file system fails, and what
      an outside party answers -- is given by an oracle, over which the
      theorems quantify.
    - The handler of the child's standard error, which only logs, and the
      [createdAt]/[lastHitAt] columns are left out. *)

From stdpp Require Import gmap strings list.
From Stdlib Require Import ZArith String Ascii DecimalString QArith Qround.
From Stdlib Require Import Sorting.Sorted.
From Stdlib Require Decimal DecimalFacts DecimalPos DecimalZ.

Open Scope string_scope.
Open Scope list_scope.
Open Scope Z_scope.

(** ** JavaScript strings and numbers *)

Module Js.

(** [c.toLowerCase()] on one code unit; only ASCII letters matter for the
    patterns the code searches. *)
Definition toLowerAscii (c : ascii) : ascii :=
  let n := nat_of_ascii c in
  if (Nat.leb 65 n && Nat.leb n 90)%bool then ascii_of_nat (n + 32) else c.

Fixpoint toLowerCase (s : string) : string :=
  match s with
  | EmptyString => EmptyString
  | String c t => String (toLowerAscii c) (toLowerCase t)
  end.

(** [hay.includes(needle)] *)
Fixpoint includes (hay needle : string) : bool :=
  (String.prefix needle hay ||
   match hay with
   | EmptyString => false
   | String _ t => includes t needle
   end)%bool.

(** Template-literal rendering of an integral number: [`${n}`]. *)
Definition numberToString (n : Z) : string :=
  NilZero.string_of_int (Z.to_int n).

(** Truthiness of a possibly missing number: [undefined], [null] and [0]
    are falsy. *)
Definition orNumber (a : option Z) (b : Z) : Z :=
  match a with
  | Some n => if n =? 0 then b else n
  | None => b
  end.

(** Truthiness of a possibly missing string: [undefined], [null] and the
    empty string are falsy. *)
Definition truthyString (a : option string) : bool :=
  match a with
  | Some s => negb (String.eqb s "")
  | None => false
  end.

Definition orString (a : option string) (b : string) : string :=
  match a with
  | Some s => if String.eqb s "" then b else s
  | None => b
  end.

(** [Array.prototype.sort(cmp)]: a stable sort (ECMAScript 2019); an
    element [x] stays in front of [y] unless [cmp x y > 0]. *)
Section Sort.
Context {A : Type} (cmp : A -> A -> Z).

Fixpoint insertSorted (x : A) (l : list A) : list A :=
  match l with
  | [] => [x]
  | y :: l' => if cmp x y <=? 0 then x :: y :: l' else y :: insertSorted x l'
  end.

Definition sort (l : list A) : list A := foldr insertSorted [] l.
End Sort.

(** [Map<number, V>]: keys in insertion order; [set] on a present key
    replaces the value in place. *)
Section NumMap.
Context {V : Type}.

Definition Map := list (Z * V).

Fixpoint mapGet (k : Z) (m : Map) : option V :=
  match m with
  | [] => None
  | (k', v) :: m' => if k' =? k then Some v else mapGet k m'
  end.

Fixpoint mapSet (k : Z) (v : V) (m : Map) : Map :=
  match m with
  | [] => [(k, v)]
  | (k', v') :: m' =>
      if k' =? k then (k, v) :: m' else (k', v') :: mapSet k v m'
  end.

Definition mapValues (m : Map) : list V := map snd m.
End NumMap.
Arguments Map : clear implicits.

(** [s.replace(/\.(mp4|m4a|webm)$/, '')] *)
Fixpoint stripMediaExt (s : string) : string :=
  match s with
  | EmptyString => EmptyString
  | String c t =>
      if (String.eqb s ".mp4" || String.eqb s ".m4a" || String.eqb s ".webm")%bool
      then EmptyString
      else String c (stripMediaExt t)
  end.

(** A word character of a regular expression: [[A-Za-z0-9_]]. *)
Definition isWordChar (c : ascii) : bool :=
  let n := nat_of_ascii c in
  ((Nat.leb 48 n && Nat.leb n 57) || (Nat.leb 65 n && Nat.leb n 90) ||
   (Nat.leb 97 n && Nat.leb n 122) || Nat.eqb n 95)%bool.

Fixpoint allWordChars (s : string) : bool :=
  match s with
  | EmptyString => true
  | String c t => (isWordChar c && allWordChars t)%bool
  end.

(** [s.replace(/\.\w+$/, repl)] *)
Fixpoint replaceExtension (repl s : string) : string :=
  match s with
  | EmptyString => EmptyString
  | String c t =>
      if (Ascii.eqb c "." && negb (String.eqb t "") && allWordChars t)%bool
      then repl
      else String c (replaceExtension repl t)
  end.

(** [parseInt(s, 10)]: leading white space, an optional sign, then the
    longest run of decimal digits; [None] is [NaN].  White space is the
    ASCII part of the class. *)
Definition isSpace (c : ascii) : bool :=
  let n := nat_of_ascii c in
  ((Nat.leb 9 n && Nat.leb n 13) || Nat.eqb n 32)%bool.

Definition digitOf (c : ascii) : option Z :=
  let n := Z.of_nat (nat_of_ascii c) in
  if ((48 <=? n) && (n <=? 57))%bool then Some (n - 48) else None.

Fixpoint skipSpaces (s : string) : string :=
  match s with
  | String c t => if isSpace c then skipSpaces t else s
  | EmptyString => EmptyString
  end.

Fixpoint digitsFrom (acc : Z) (s : string) : Z :=
  match s with
  | String c t =>
      match digitOf c with
      | Some d => digitsFrom (acc * 10 + d) t
      | None => acc
      end
  | EmptyString => acc
  end.

Definition parseDigits (s : string) : option Z :=
  match s with
  | String c t =>
      match digitOf c with
      | Some d => Some (digitsFrom d t)
      | None => None
      end
  | EmptyString => None
  end.

Definition parseInt (s : string) : option Z :=
  match skipSpaces s with
  | String "-"%char t => Z.opp <$> parseDigits t
  | String "+"%char t => parseDigits t
  | t => parseDigits t
  end.

(** [n || 0] for a possibly [NaN] number. *)
Definition orZero (n : option Z) : Z := default 0 n.

End Js.

(** ** Data transfer objects ([dto/video-info.dto.ts]) *)

Record FormatDto := mkFormatDto {
  formatId : string;
  ext : string;
  resolution : string;
  filesize : Z;
  quality : Z;
  hasAudio : bool;
  vcodec : option string;
}.

Record VideoInfoDto := mkVideoInfoDto {
  id : string;
  url : string;
  title : string;
  uploader : string;
  duration : Z;
  viewCount : Z;
  likeCount : Z;
  uploadDate : string;
  thumbnail : string;
  width : Z;
  height : Z;
  formats : list FormatDto;
}.

(** One record of the [formats] array in the fetcher's JSON dump; every field
    may be missing. *)
Record RawFormat := mkRawFormat {
  format_id : string;
  raw_vcodec : option string;
  raw_acodec : option string;
  raw_filesize : option Z;
  raw_filesize_approx : option Z;
  raw_height : option Z;
}.


(** ** The outside world: errors, the chat platform, the stores *)

(** A thrown JavaScript error: [error.code] (empty when absent) and
    [error.message]. *)
Record Error := mkError { code : string; message : string }.

Definition newError (msg : string) : Error := {| code := ""; message := msg |}.

(** The grammY context of an update: [ctx.chat?.id] and [ctx.from?.id]. *)
Record Context := mkContext { chat : option Z; from : option Z }.

(** A message returned by the chat platform. *)
Record Message := mkMessage {
  message_id : Z;
  audio_file_id : option string;
  video_file_id : option string;
}.

(** One row of an inline keyboard: [keyboard.text(buttonText, data).row()]. *)
Record Button := mkButton { buttonText : string; callbackData : string }.

Inductive LogLevel := LevelLog | LevelDebug | LevelWarn | LevelError.

(** Rows of the [videoSession] table as the Prisma client reads and writes
    them.  The [formats] column holds JSON text; it is modelled by the value
    that text encodes. *)
Module Prisma.
Record VideoSession := mkVideoSession {
  id : string;
  originalUrl : string;
  videoId : string;
  title : string;
  uploader : string;
  duration : Z;
  viewCount : option Z;
  likeCount : option Z;
  uploadDate : string;
  thumbnail : string;
  formats : list FormatDto;
  expiresAt : Z;
}.
End Prisma.

(** The argument of [cacheService.set] and the entries of the result cache. *)
Module CacheService.
Record SetDto := mkSetDto {
  url : string;
  formatId : string;
  resolution : string;
  fileId : string;
  archiveMessageId : Z;
  fileSize : Z;
  fileType : string;
  userId : Z;
  title : string;
  uploader : option string;
  duration : option Z;
}.

Record Entry := mkEntry {
  id : Z;
  data : SetDto;
  hitCount : Z;
}.

(** The composite key (resourceId, formatId, renditionLabel). *)
Abbreviation Fingerprint := (string * string * string)%type.

Definition fingerprint (d : SetDto) : Fingerprint :=
  (url d, formatId d, resolution d).
End CacheService.

(** The metadata object printed by the fetcher ([--dump-single-json]). *)
Record RawInfo := mkRawInfo {
  data_id : string;
  data_webpage_url : option string;
  data_title : string;
  data_uploader : option string;
  data_channel : option string;
  data_duration : option Z;
  data_view_count : option Z;
  data_like_count : option Z;
  data_upload_date : option string;
  data_thumbnail : option string;
  data_width : option Z;
  data_height : option Z;
  data_formats : option (list RawFormat);
}.

(** What the [data] handler of the child's standard output extracts from one
    chunk: the three regular-expression matches. *)
Record Chunk := mkChunk {
  mergeMatch : option string;
  destMatch : option string;
  percentMatch : option Q;
}.

(** A finished child process: its output chunks, then either the [close]
    event with the exit code or the [error] event. *)
Record ChildRun := mkChildRun {
  chunks : list Chunk;
  closed : (Error + Z)%type;
}.

(** The invocation of the fetcher for a download. *)
Record FetchArgs := mkFetchArgs {
  fetchUrl : string;
  outputPathBase : string;
  useCookies : bool;
  audioOnly : bool;
  formatSelector : string;
}.

(** The calls that leave the process, indexed by the type of their result. *)
Inductive call : Type -> Type :=
| Log (level : LogLevel) (text : string) : call unit
| DateNow : call Z
| RandomBytesHex (n : Z) : call string
| PrismaCreate (row : Prisma.VideoSession) : call unit
| PrismaFindUnique (sid : string) : call (option Prisma.VideoSession)
| PrismaDelete (sid : string) : call unit
| CtxReply (ctx : Context) (text : string) : call Message
| CtxAnswerCallbackQuery (ctx : Context) (text : string) : call unit
| CtxReplyWithAudio (ctx : Context) (file caption ttl : string)
    (performer : option string) : call Message
| CtxReplyWithVideo (ctx : Context) (file caption : string) : call Message
| CtxReplyWithPhoto (ctx : Context) (photo caption : string)
    (keyboard : list Button) : call Message
| ApiEditMessageText (chatId messageId : Z) (text : string)
    (keyboard : option (list Button)) : call unit
| ApiDeleteMessage (chatId messageId : Z) : call unit
| BotSendAudio (channel path ttl performer : string) (dur : Z) : call Message
| BotSendVideo (channel path : string) (thumb : option string)
    (dur w h : Z) : call Message
| CacheGet (fp : CacheService.Fingerprint) : call (option CacheService.Entry)
| CacheSet (dto : CacheService.SetDto) : call unit
| CacheRecordHit (entryId userId : Z) : call unit
| UserIncrementDownloads (userId : Z) : call unit
| AdIncrementUserDownloads (userId : Z) : call unit
| AdShouldShowAd (userId : Z) : call bool
| AdShowAd (ctx : Context) : call unit
| ExecDumpJson (ytdlp : string) (cookies : option string) (target : string)
    : call RawInfo
| SpawnYtdlp (ytdlp : string) (args : FetchArgs) : call ChildRun
| ExecFfmpegThumbnail (video thumb : string) : call unit
| FsExistsSync (path : string) : call bool
| FsUnlinkSync (path : string) : call unit
| FsUnlink (path : string) : call unit
| FsStat (path : string) : call Z.

(** A performed call with its outcome. *)
Inductive Event :=
| Ev : forall T : Type, call T -> (Error + T)%type -> Event.
Arguments Ev {T} c r.

(** The part of the outcomes that the program does not determine: whether a
    call fails for a reason of its own (network, platform, process), and the
    value an external party answers with. *)
Record Oracle := mkOracle {
  fault : forall T, call T -> option Error;
  reply : forall T, call T -> T;
}.
Arguments fault _ {T} _.
Arguments reply _ {T} _.

(** The state outside the process. *)
Record World := mkWorld {
  videoSessions : gmap string Prisma.VideoSession;
  cacheTable : gmap CacheService.Fingerprint CacheService.Entry;
  files : gset string;
  clock : Z;
  trace : list Event;
}.

(** ** The process memory *)

(** The closure handed to the queue is always
    [() => this.processDownload(ctx, bot, videoData, formatId, resolution,
    userId)]; a job records its arguments. *)
Record Job := mkJob {
  jobCtx : Context;
  jobVideo : VideoInfoDto;
  jobFormatId : string;
  jobResolution : string;
  jobUserId : Z;
}.

Module QueueService.

Record State := mkState { running : nat; waiting : list Job }.

Inductive Admission := Started | Queued | Rejected.

(** Modelled from the spec: the source of QueueService is not part of the
    repository files.  [add]: if the number of running tasks is below
    [maxParallel], start execution immediately; otherwise, if the number of
    waiting tasks is below [maxQueued], enqueue in FIFO order; otherwise
    fail immediately with a capacity error. *)
Definition add (maxParallel maxQueued : nat) (j : Job) (q : State)
  : Admission * State :=
  if (running q <? maxParallel)%nat then
    (Started, {| running := S (running q); waiting := waiting q |})
  else if (List.length (waiting q) <? maxQueued)%nat then
    (Queued, {| running := running q; waiting := waiting q ++ [j] |})
  else (Rejected, q).

(** Modelled from the spec: on completion (success or failure) of a running
    task, the next FIFO-waiting task (if any) is admitted. *)
Definition release (q : State) : option Job * State :=
  match waiting q with
  | [] => (None, {| running := pred (running q); waiting := [] |})
  | j :: rest => (Some j, {| running := running q; waiting := rest |})
  end.

End QueueService.

(** The fields of the singleton services that the flows share. *)
Record Mem := mkMem {
  videoDataCache : gmap string VideoInfoDto;
  activeDownloads : gmap string Job;
  queue : QueueService.State;
  (** jobs the queue has started since the scheduler last looked *)
  started : list Job;
  (** [UploaderService.bot] has been set by [setBot] *)
  botSet : bool;
}.

Definition setVideoDataCache (f : gmap string VideoInfoDto -> gmap string VideoInfoDto)
  (m : Mem) : Mem :=
  {| videoDataCache := f (videoDataCache m);
     activeDownloads := activeDownloads m; queue := queue m;
     started := started m; botSet := botSet m |}.

Definition setActiveDownloads (f : gmap string Job -> gmap string Job)
  (m : Mem) : Mem :=
  {| videoDataCache := videoDataCache m;
     activeDownloads := f (activeDownloads m); queue := queue m;
     started := started m; botSet := botSet m |}.

Definition setQueue (q : QueueService.State) (js : list Job) (m : Mem) : Mem :=
  {| videoDataCache := videoDataCache m;
     activeDownloads := activeDownloads m; queue := q;
     started := js; botSet := botSet m |}.

(** ** Asynchronous methods as resumptions *)

(** A flow has either finished, with a value or a thrown error, or stands at
    a call: an awaited one, where other flows may run before it is resumed,
    or a synchronous one. *)
Inductive step (A : Type) : Type :=
| Done (m : Mem) (r : Error + A)
| Yield {T : Type} (awaited : bool) (c : call T) (m : Mem)
    (k : Error + T -> Mem -> step A).
Arguments Done {A} m r.
Arguments Yield {A T} awaited c m k.

Definition M (A : Type) : Type := Mem -> step A.

Definition ret {A} (a : A) : M A := fun m => Done m (inr a).

Definition throw {A} (e : Error) : M A := fun m => Done m (inl e).

Fixpoint bindStep {A B} (s : step A) (f : A -> M B) : step B :=
  match s with
  | Done m (inr a) => f a m
  | Done m (inl e) => Done m (inl e)
  | Yield aw c m k => Yield aw c m (fun r m' => bindStep (k r m') f)
  end.

Definition bind {A B} (x : M A) (f : A -> M B) : M B :=
  fun m => bindStep (x m) f.

(** [try { body } catch (e) { handler }] *)
Fixpoint catchStep {A} (s : step A) (h : Error -> M A) : step A :=
  match s with
  | Done m (inr a) => Done m (inr a)
  | Done m (inl e) => h e m
  | Yield aw c m k => Yield aw c m (fun r m' => catchStep (k r m') h)
  end.

Definition tryCatch {A} (body : M A) (h : Error -> M A) : M A :=
  fun m => catchStep (body m) h.

(** [await c] *)
Definition await {T} (c : call T) : M T :=
  fun m => Yield true c m (fun r m' => Done m' r).

(** A call that returns without suspending the flow. *)
Definition sync {T} (c : call T) : M T :=
  fun m => Yield false c m (fun r m' => Done m' r).

Definition getMem : M Mem := fun m => Done m (inr m).

Definition modifyMem (f : Mem -> Mem) : M unit := fun m => Done (f m) (inr tt).

#[global] Instance M_ret : MRet M := @ret.
#[global] Instance M_bind : MBind M := fun A B f x => bind x f.

Notation "x <- e ;; k" := (bind e (fun x => k))
  (at level 100, e at next level, k at level 200, right associativity).

(** [promise.catch(() => {})] *)
Definition swallow {A} (body : M A) : M unit :=
  tryCatch (body;; mret tt) (fun _ => mret tt).

Definition log (level : LogLevel) (text : string) : M unit :=
  sync (Log level text).

(** ** Performing a call *)

Definition uniqueViolation : Error :=
  {| code := "P2002"; message := "Unique constraint failed on the fields: (id)" |}.

Definition recordNotFound : Error :=
  {| code := "P2025"; message := "Record to delete does not exist." |}.

Definition noSuchFile : Error :=
  {| code := "ENOENT"; message := "no such file or directory" |}.

Definition exitedWith (run : ChildRun) : option Z :=
  match closed run with inr n => Some n | inl _ => None end.

Definition withSessions (f : gmap string Prisma.VideoSession -> gmap string Prisma.VideoSession)
  (w : World) : World :=
  {| videoSessions := f (videoSessions w); cacheTable := cacheTable w;
     files := files w; clock := clock w; trace := trace w |}.

Definition withCache
  (f : gmap CacheService.Fingerprint CacheService.Entry ->
       gmap CacheService.Fingerprint CacheService.Entry)
  (w : World) : World :=
  {| videoSessions := videoSessions w; cacheTable := f (cacheTable w);
     files := files w; clock := clock w; trace := trace w |}.

Definition withFiles (f : gset string -> gset string) (w : World) : World :=
  {| videoSessions := videoSessions w; cacheTable := cacheTable w;
     files := f (files w); clock := clock w; trace := trace w |}.

Definition record (e : Event) (w : World) : World :=
  {| videoSessions := videoSessions w; cacheTable := cacheTable w;
     files := files w; clock := clock w; trace := trace w ++ [e] |}.

(** Calls that cannot throw: logging, reading the clock, [existsSync]. *)
Definition infallible {T} (c : call T) : bool :=
  match c with
  | Log _ _ | DateNow | FsExistsSync _ => true
  | _ => false
  end.

(** The file a successful fetch leaves behind: the output template with the
    extension of the merged container. *)
Definition fetchedFile (a : FetchArgs) : string :=
  outputPathBase a +:+ (if audioOnly a then ".m4a" else ".mp4").

Section Perform.
Context (o : Oracle).

(** Modelled from the spec: the source of CacheService is not part of the
    repository files.  [set] persists a new CacheEntry and must be safe to
    call even if an entry for the same fingerprint already exists (overwrite
    policy); at most one CacheEntry per fingerprint. *)
Definition cacheSet (dto : CacheService.SetDto)
  (t : gmap CacheService.Fingerprint CacheService.Entry)
  : gmap CacheService.Fingerprint CacheService.Entry :=
  let fp := CacheService.fingerprint dto in
  match t !! fp with
  | Some e =>
      <[fp := {| CacheService.id := CacheService.id e;
                 CacheService.data := dto;
                 CacheService.hitCount := CacheService.hitCount e |}]> t
  | None =>
      <[fp := {| CacheService.id := Z.of_nat (size t) + 1;
                 CacheService.data := dto;
                 CacheService.hitCount := 0 |}]> t
  end.

(** Modelled from the spec: [recordHit(entryId, requesterId)] increments
    hitCount of the entry. *)
Definition cacheRecordHit (entryId : Z)
  (t : gmap CacheService.Fingerprint CacheService.Entry)
  : gmap CacheService.Fingerprint CacheService.Entry :=
  (fun e =>
     if CacheService.id e =? entryId
     then {| CacheService.id := CacheService.id e;
             CacheService.data := CacheService.data e;
             CacheService.hitCount := CacheService.hitCount e + 1 |}
     else e) <$> t.

(** Modelled from the spec: the schema of the session table is not among
    the repository files.  [sessions(id PK, metadata JSON, expiresAt)];
    conflicting writes are serialized at the storage layer by a unique
    constraint on the session id.  An insert under a stored id is rejected
    with the unique-constraint error of the client. *)
Definition sessionCreate (row : Prisma.VideoSession) (w : World)
  : (Error + unit) * World :=
  match videoSessions w !! Prisma.id row with
  | Some _ => (inl uniqueViolation, w)
  | None => (inr tt, withSessions (insert (Prisma.id row) row) w)
  end.

(** Deleting by the unique key: the row is removed, or the client reports
    that there was no record to delete. *)
Definition sessionDelete (sid : string) (w : World) : (Error + unit) * World :=
  match videoSessions w !! sid with
  | Some _ => (inr tt, withSessions (base.delete sid) w)
  | None => (inl recordNotFound, w)
  end.

Definition unlinkFile {T} (ok : T) (path : string) (w : World)
  : (Error + T) * World :=
  if bool_decide (path ∈ files w)
  then (inr ok, withFiles (fun fs => fs ∖ {[path]}) w)
  else (inl noSuchFile, w).

(** The calls whose outcome is determined once nothing outside fails: by
    the state of the world (the session table, the result cache, the clock,
    the file system), or because the call returns nothing.  A fetch that
    exits with code 0 leaves its output file; [ffmpeg] leaves the
    thumbnail. *)
Definition determined {T} (c : call T) (w : World)
  : option ((Error + T) * World) :=
  match c in call T return option ((Error + T) * World) with
  | Log _ _ => Some (inr tt, w)
  | CtxAnswerCallbackQuery _ _ => Some (inr tt, w)
  | ApiEditMessageText _ _ _ _ => Some (inr tt, w)
  | ApiDeleteMessage _ _ => Some (inr tt, w)
  | UserIncrementDownloads _ => Some (inr tt, w)
  | AdIncrementUserDownloads _ => Some (inr tt, w)
  | AdShowAd _ => Some (inr tt, w)
  | DateNow => Some (inr (clock w), w)
  | PrismaCreate row => Some (sessionCreate row w)
  | PrismaFindUnique sid => Some (inr (videoSessions w !! sid), w)
  | PrismaDelete sid => Some (sessionDelete sid w)
  | CacheGet fp => Some (inr (cacheTable w !! fp), w)
  | CacheSet dto => Some (inr tt, withCache (cacheSet dto) w)
  | CacheRecordHit entryId _ =>
      Some (inr tt, withCache (cacheRecordHit entryId) w)
  | SpawnYtdlp bin args =>
      let out := reply o (SpawnYtdlp bin args) in
      Some (inr out,
            match exitedWith out with
            | Some 0 => withFiles (fun fs => {[fetchedFile args]} ∪ fs) w
            | _ => w
            end)
  | ExecFfmpegThumbnail _ thumb =>
      Some (inr tt, withFiles (fun fs => {[thumb]} ∪ fs) w)
  | FsExistsSync path => Some (inr (bool_decide (path ∈ files w)), w)
  | FsUnlinkSync path => Some (unlinkFile tt path w)
  | FsUnlink path => Some (unlinkFile tt path w)
  | FsStat path =>
      Some (if bool_decide (path ∈ files w)
            then (inr (reply o (FsStat path)), w)
            else (inl noSuchFile, w))
  | _ => None
  end.

(** The outcome of a call when nothing outside the program fails. *)
Definition effect {T} (c : call T) (w : World) : (Error + T) * World :=
  match determined c w with
  | Some x => x
  | None => (inr (reply o c), w)
  end.

Definition outcome {T} (c : call T) (w : World) : (Error + T) * World :=
  match (if infallible c then None else fault o c) with
  | Some e => (inl e, w)
  | None => effect c w
  end.

(** Perform a call: its outcome, recorded in the trace. *)
Definition perform {T} (c : call T) (w : World) : (Error + T) * World :=
  (fst (outcome c w), record (Ev c (fst (outcome c w))) (snd (outcome c w))).

(** One flow run on its own: every call is performed as soon as the flow
    reaches it. *)
Fixpoint run {A} (s : step A) (w : World) : Mem * (Error + A) * World :=
  match s with
  | Done m r => (m, r, w)
  | Yield _ c m k => run (k (fst (perform c w)) m) (snd (perform c w))
  end.

(** Run a flow up to its next [await]. *)
Fixpoint advance {A} (s : step A) (w : World) : step A * World :=
  match s with
  | Yield false c m k => advance (k (fst (perform c w)) m) (snd (perform c w))
  | _ => (s, w)
  end.

End Perform.
(** ** Configuration and helpers from outside the repository files *)

(** The configuration values the services read, and the helper functions
    they import from modules whose source is not among the repository files
    ([common/utils/format.utils], [common/utils/file.utils],
    [common/constants/messages.constant], Node's [path]).  The helpers only
    produce text; no branch of the services depends on their result. *)
Record Deps := mkDeps {
  downloadsDir : string;
  yourUsername : string;
  archiveChannelId : string;
  ytdlpPath : string;
  maxParallel : nat;
  maxQueued : nat;
  sanitizeFilename : string -> string;
  formatFileSize : Z -> string;
  createProgressBar : Q -> string;
  formatVideoCaption : VideoInfoDto -> string;
  pathResolve : string -> string -> string;
  renderNumber : Q -> string;
  messagesFromCache : option string;
}.

(** ** YtdlpService *)

Module YtdlpService.

(** [f.vcodec && f.vcodec !== 'none'] *)
Definition hasVideo (f : RawFormat) : bool :=
  (Js.truthyString (raw_vcodec f) &&
   negb (String.eqb (default "" (raw_vcodec f)) "none"))%bool.

(** [f.acodec && f.acodec !== 'none'] *)
Definition hasAudioTrack (f : RawFormat) : bool :=
  (Js.truthyString (raw_acodec f) &&
   negb (String.eqb (default "" (raw_acodec f)) "none"))%bool.

(** [f.filesize || f.filesize_approx || 0] *)
Definition size (f : RawFormat) : Z :=
  Js.orNumber (raw_filesize f) (Js.orNumber (raw_filesize_approx f) 0).

(** [f.height || 0] *)
Definition heightOf (f : RawFormat) : Z := Js.orNumber (raw_height f) 0.

(** [f.vcodec?.toLowerCase().includes('avc1') ||
     f.vcodec?.toLowerCase().includes('h264')] *)
Definition isH264 (f : RawFormat) : bool :=
  match raw_vcodec f with
  | Some c =>
      (Js.includes (Js.toLowerCase c) "avc1" ||
       Js.includes (Js.toLowerCase c) "h264")%bool
  | None => false
  end.

(** [existing.vcodec?.includes('avc')] (no lower-casing here) *)
Definition tagHasAvc (existing : FormatDto) : bool :=
  match vcodec existing with
  | Some c => Js.includes c "avc"
  | None => false
  end.

Definition audioDto (f : RawFormat) : FormatDto :=
  {| formatId := format_id f; ext := "m4a"; resolution := "audio";
     filesize := size f; quality := 0; hasAudio := true; vcodec := None |}.

Definition videoDto (f : RawFormat) : FormatDto :=
  {| formatId := format_id f; ext := "mp4";
     resolution := Js.numberToString (heightOf f) +:+ "p";
     filesize := size f; quality := heightOf f;
     hasAudio := hasAudioTrack f; vcodec := raw_vcodec f |}.

(** The test guarding [videoFormats.set(height, ...)]. *)
Definition takes (f : RawFormat) (existing : option FormatDto) : bool :=
  ((0 <? size f) &&
   match existing with
   | None => true
   | Some e => (filesize e <? size f) || (isH264 f && negb (tagHasAvc e))
   end)%bool.

(** The accumulators of the [forEach] loop. *)
Record acc := mkAcc {
  videoFormats : Js.Map FormatDto;
  audioFormats : list FormatDto;
}.

(** Body of [formats.forEach((f) => ...)]. *)
Definition visit (a : acc) (f : RawFormat) : acc :=
  if (negb (hasVideo f) && hasAudioTrack f)%bool then
    {| videoFormats := videoFormats a;
       audioFormats := audioFormats a ++ [audioDto f] |}
  else if hasVideo f then
    if heightOf f <? 144 then a
    else if takes f (Js.mapGet (heightOf f) (videoFormats a)) then
      {| videoFormats := Js.mapSet (heightOf f) (videoDto f) (videoFormats a);
         audioFormats := audioFormats a |}
    else a
  else a.

Definition collect (fs : list RawFormat) : acc :=
  fold_left visit fs {| videoFormats := []; audioFormats := [] |}.

Definition sortedVideos (a : acc) : list FormatDto :=
  Js.sort (fun x y => quality y - quality x) (Js.mapValues (videoFormats a)).

(** [audioFormats.sort((a, b) => b.filesize - a.filesize)[0]] *)
Definition bestAudio (a : acc) : option FormatDto :=
  head (Js.sort (fun x y => filesize y - filesize x) (audioFormats a)).

Definition getBestFormats (fs : list RawFormat) : list FormatDto :=
  let a := collect fs in
  match bestAudio a with
  | Some b => sortedVideos a ++ [b]
  | None => sortedVideos a
  end.

(** *** Fetching metadata and media *)

Section Effects.
Context (d : Deps).

Definition cookiesPath : string := "./youtube_cookies.txt".

(** [sanitizeFilename]: [filename.substring(0, 100)] *)
Definition sanitizeTitle (filename : string) : string :=
  String.substring 0 100 filename.

Definition getVideoInfo (target : string) : M VideoInfoDto :=
  log LevelLog ("🔍 Анализ: " +:+ target);;
  tryCatch
    (cookies <- sync (FsExistsSync cookiesPath);;
     (if cookies : bool
      then log LevelDebug ("🍪 Куки найдены: " +:+ cookiesPath)
      else mret tt);;
     data <- await (ExecDumpJson (ytdlpPath d)
                      (if cookies then Some cookiesPath else None) target);;
     mret {| id := data_id data;
             url := Js.orString (data_webpage_url data) target;
             title := sanitizeTitle (data_title data);
             uploader :=
               Js.orString (data_uploader data)
                 (Js.orString (data_channel data) "Unknown");
             duration := Js.orNumber (data_duration data) 0;
             viewCount := Js.orNumber (data_view_count data) 0;
             likeCount := Js.orNumber (data_like_count data) 0;
             uploadDate := Js.orString (data_upload_date data) "";
             thumbnail := Js.orString (data_thumbnail data) "";
             width := Js.orNumber (data_width data) 0;
             height := Js.orNumber (data_height data) 0;
             formats := getBestFormats (default [] (data_formats data)) |})
    (fun error =>
       log LevelError ("❌ Ошибка getVideoInfo: " +:+ message error);;
       throw (newError "Видео недоступно или ссылка неверна.")).

(** The variables the [data] handler closes over. *)
Record ProgressState := mkProgressState {
  lastProgress : Q;
  detectedFilename : option string;
}.

(** [percent - lastProgress >= 5 || percent >= 99] *)
Definition reportable (last percent : Q) : bool :=
  (Qle_bool 5 (percent - last) || Qle_bool 99 percent)%bool.

(** The handler of [child.stdout.on('data', ...)]: the new values of its
    variables and, when it calls [onProgress], the argument of the call. *)
Definition onData (st : ProgressState) (chunk : Chunk)
  : ProgressState * option Q :=
  let detected :=
    match destMatch chunk with
    | Some dest => Some dest
    | None =>
        match mergeMatch chunk with
        | Some merged => Some merged
        | None => detectedFilename st
        end
    end in
  match percentMatch chunk with
  | Some percent =>
      if reportable (lastProgress st) percent
      then ({| lastProgress := percent; detectedFilename := detected |},
            Some percent)
      else ({| lastProgress := lastProgress st; detectedFilename := detected |},
            None)
  | None =>
      ({| lastProgress := lastProgress st; detectedFilename := detected |}, None)
  end.

(** The chunks of the child's output, handled in order.  The promise that
    [onProgress] returns is dropped by the handler. *)
Fixpoint feed (onProgress : Q -> M unit) (st : ProgressState)
  (output : list Chunk) : M ProgressState :=
  match output with
  | [] => mret st
  | chunk :: rest =>
      (match snd (onData st chunk) with
       | Some percent =>
           swallow (onProgress percent);;
           log LevelDebug ("Загрузка: " +:+ renderNumber d percent +:+ "%")
       | None => mret tt
       end);;
      feed onProgress (fst (onData st chunk)) rest
  end.

Definition downloadVideo (target fmt outputPath : string) (isAudio : bool)
  (onProgress : Q -> M unit) : M string :=
  log LevelLog ("🚀 Загрузка: " +:+ target +:+ " | Format: " +:+ fmt);;
  let base := Js.stripMediaExt outputPath in
  cookies <- sync (FsExistsSync cookiesPath);;
  child <- await (SpawnYtdlp (ytdlpPath d)
                   {| fetchUrl := target; outputPathBase := base;
                      useCookies := cookies; audioOnly := isAudio;
                      formatSelector :=
                        if isAudio then "bestaudio/best"
                        else fmt +:+ "+bestaudio/best" |});;
  st <- feed onProgress {| lastProgress := 0; detectedFilename := None |}
         (chunks child);;
  match closed child with
  | inr exitCode =>
      if exitCode =? 0 then
        let finalPath :=
          Js.orString (detectedFilename st)
            (base +:+ (if isAudio then ".m4a" else ".mp4")) in
        log LevelLog ("✅ Готово: " +:+ finalPath);;
        mret finalPath
      else
        log LevelError ("❌ yt-dlp код ошибки: " +:+ Js.numberToString exitCode);;
        throw (newError "Ошибка при скачивании файла")
  | inl err =>
      log LevelError ("❌ Ошибка процесса: " +:+ message err);;
      throw err
  end.

Definition generateThumbnail (videoPath : string) : M (option string) :=
  tryCatch
    (let thumbPath := Js.replaceExtension "_thumb.jpg" videoPath in
     log LevelDebug ("🖼️ Генерация превью: " +:+ thumbPath);;
     await (ExecFfmpegThumbnail videoPath thumbPath);;
     present <- sync (FsExistsSync thumbPath);;
     if present : bool then
       log LevelLog ("✅ Превью готово: " +:+ thumbPath);;
       mret (Some thumbPath)
     else mret None)
    (fun error =>
       log LevelWarn ("⚠️ Не удалось создать превью: " +:+ message error);;
       mret None).

Definition safeDelete (filePath : string) : M unit :=
  tryCatch
    (present <- sync (FsExistsSync filePath);;
     if present : bool then
       sync (FsUnlinkSync filePath);;
       log LevelDebug ("🗑️ Удален: " +:+ filePath)
     else mret tt)
    (fun error =>
       log LevelWarn ("⚠️ Не удалось удалить " +:+ filePath +:+ ": " +:+
                      message error)).

End Effects.

End YtdlpService.

(** ** VideoSessionService *)

Module VideoSessionService.

(** [expiresAt.setDate(expiresAt.getDate() + 7)] on a clock without
    daylight-saving shifts: seven days of milliseconds. *)
Definition sevenDays : Z := 7 * 24 * 60 * 60 * 1000.

(** [n ? BigInt(n) : null] *)
Definition bigIntOrNull (n : Z) : option Z := if n =? 0 then None else Some n.

Definition rowOf (videoId : string) (videoInfo : VideoInfoDto) (expiresAt : Z)
  : Prisma.VideoSession :=
  {| Prisma.id := videoId;
     Prisma.originalUrl := Js.orString (Some (url videoInfo)) "";
     Prisma.videoId := id videoInfo;
     Prisma.title := title videoInfo;
     Prisma.uploader := uploader videoInfo;
     Prisma.duration := duration videoInfo;
     Prisma.viewCount := bigIntOrNull (viewCount videoInfo);
     Prisma.likeCount := bigIntOrNull (likeCount videoInfo);
     Prisma.uploadDate := uploadDate videoInfo;
     Prisma.thumbnail := thumbnail videoInfo;
     Prisma.formats := formats videoInfo;
     Prisma.expiresAt := expiresAt |}.

Definition save (videoId : string) (videoInfo : VideoInfoDto) : M unit :=
  now <- sync DateNow;;
  let expiresAt := now + sevenDays in
  tryCatch
    (await (PrismaCreate (rowOf videoId videoInfo expiresAt));;
     log LevelLog ("💾 Сохранена сессия видео: " +:+ videoId))
    (fun error =>
       log LevelError ("❌ Ошибка сохранения сессии: " +:+ message error);;
       throw error).

Definition delete (videoId : string) : M unit :=
  tryCatch
    (await (PrismaDelete videoId);;
     log LevelDebug ("🗑️ Удалена сессия: " +:+ videoId))
    (fun error =>
       if negb (String.eqb (code error) "P2025")
       then log LevelError ("❌ Ошибка удаления сессии: " +:+ message error)
       else mret tt).

Definition infoOf (session : Prisma.VideoSession) : VideoInfoDto :=
  {| id := Prisma.videoId session;
     url := Prisma.originalUrl session;
     title := Prisma.title session;
     uploader := Js.orString (Some (Prisma.uploader session)) "";
     duration := Js.orNumber (Some (Prisma.duration session)) 0;
     viewCount := Js.orNumber (Prisma.viewCount session) 0;
     likeCount := Js.orNumber (Prisma.likeCount session) 0;
     uploadDate := Js.orString (Some (Prisma.uploadDate session)) "";
     thumbnail := Js.orString (Some (Prisma.thumbnail session)) "";
     width := 0;
     height := 0;
     formats := Prisma.formats session |}.

Definition get (videoId : string) : M (option VideoInfoDto) :=
  tryCatch
    (found <- await (PrismaFindUnique videoId);;
     match found with
     | None =>
         log LevelDebug ("❌ Сессия не найдена: " +:+ videoId);;
         mret None
     | Some session =>
         now <- sync DateNow;;
         if Prisma.expiresAt session <? now then
           log LevelDebug ("⏰ Сессия истекла: " +:+ videoId);;
           delete videoId;;
           mret None
         else mret (Some (infoOf session))
     end)
    (fun error =>
       log LevelError ("❌ Ошибка получения сессии: " +:+ message error);;
       mret None).

End VideoSessionService.

(** ** UploaderService *)

Module UploaderService.
Section Service.
Context (d : Deps).

Definition cacheToChannel (videoPath : string) (info : VideoInfoDto)
  (isAudio : bool) : M (string * Z) :=
  tryCatch
    (m <- getMem;;
     log LevelLog ("🔍 Bot instance: " +:+ (if botSet m then "true" else "false"));;
     log LevelLog ("📤 Кеширование в канал: " +:+ archiveChannelId d);;
     (if botSet m then mret tt
      else
        log LevelError "❌ Bot undefined! Instance ID:";;
        throw (newError "Bot instance не установлен. Вызовите setBot() сначала."));;
     sent <-
       (if isAudio then
          await (BotSendAudio (archiveChannelId d) videoPath (title info)
                   (uploader info) (duration info))
        else
          thumb <- YtdlpService.generateThumbnail videoPath;;
          sent <- await (BotSendVideo (archiveChannelId d) videoPath thumb
                           (duration info) (width info) (height info));;
          match thumb with
          | Some t => YtdlpService.safeDelete t
          | None => mret tt
          end;;
          mret sent);;
     let fileId := if isAudio then audio_file_id sent else video_file_id sent in
     if Js.truthyString fileId then
       log LevelLog ("✅ Закешировано. FileID: " +:+ default "" fileId +:+
                     ", MessageID: " +:+ Js.numberToString (message_id sent));;
       mret (default "" fileId, message_id sent)
     else throw (newError "Не удалось получить file_id из сообщения"))
    (fun error =>
       log LevelError ("❌ Ошибка кеширования: " +:+ message error);;
       throw error).

End Service.
End UploaderService.

(** ** DownloaderService *)

Module DownloaderService.
Section Service.
Context (d : Deps).

(** The line break of the template literals. *)
Definition nl : string := String (ascii_of_nat 10) EmptyString.

(** [try { x = await ... } catch]: the outcome of [body] as a value. *)
Definition attempt {A} (body : M A) : M (Error + A) :=
  tryCatch (a <- body;; mret (inr a)) (fun error => mret (inl error)).

(** [s || undefined] *)
Definition orUndefined (s : string) : option string :=
  if String.eqb s "" then None else Some s.

(** *** Presenting the choices ([handleUrl]) *)

Definition MIN_RESOLUTION : Z := 360.
Definition MAX_RESOLUTION : Z := 1080.

(** [format.resolution === 'audio'] *)
Definition isAudioLabel (format : FormatDto) : bool :=
  String.eqb (resolution format) "audio".

(** [allFormats.find((f) => f.resolution === 'audio')] *)
Definition audioFormat (allFormats : list FormatDto) : option FormatDto :=
  List.find isAudioLabel allFormats.

(** The predicate of [allFormats.filter(...)]. *)
Definition inRange (format : FormatDto) : bool :=
  if isAudioLabel format then false
  else
    match Js.parseInt (resolution format) with
    | Some h => ((MIN_RESOLUTION <=? h) && (h <=? MAX_RESOLUTION))%bool
    | None => false
    end.

(** The comparator of [.sort((a, b) => hB - hA)]. *)
Definition byHeightDescending (a b : FormatDto) : Z :=
  Js.orZero (Js.parseInt (resolution b)) - Js.orZero (Js.parseInt (resolution a)).

Definition videoFormatsOf (allFormats : list FormatDto) : list FormatDto :=
  Js.sort byHeightDescending (List.filter inRange allFormats).

Definition visibleFormats (allFormats : list FormatDto) : list FormatDto :=
  videoFormatsOf allFormats ++ option_list (audioFormat allFormats).

Definition buttonFor (sessionId : string) (idx : nat) (format : FormatDto)
  : Button :=
  let key := sessionId +:+ "|" +:+ formatId format +:+ "|" +:+ resolution format in
  let sizeText :=
    if filesize format =? 0 then "~ MB" else formatFileSize d (filesize format) in
  let label :=
    if isAudioLabel format then "🎵 Аудио • " +:+ sizeText
    else "🎥 " +:+ resolution format +:+ " • " +:+ sizeText in
  {| buttonText :=
       if (Nat.eqb idx 0 && negb (isAudioLabel format))%bool
       then "⭐ " +:+ label else label;
     callbackData := "dl|" +:+ key |}.

Definition keyboardFor (sessionId : string) (visible : list FormatDto)
  : list Button :=
  imap (buttonFor sessionId) visible.

Definition analysisFailed (ctx : Context) (chatId : Z)
  (progressMsg : option Message) (error : Error) : M unit :=
  log LevelError "Ошибка анализа видео";;
  let errorMsg :=
    "❌ Не удалось проанализировать ссылку." +:+ nl +:+
    "Возможно, видео недоступно или слишком длинное." in
  match progressMsg with
  | Some msg =>
      swallow (await (ApiEditMessageText chatId (message_id msg) errorMsg None))
  | None => await (CtxReply ctx errorMsg);; mret tt
  end.

(** Steps 3 and 4 of [handleUrl]: the message for an empty list, or the
    keyboard with the caption. *)
Definition offerChoices (ctx : Context) (chatId : Z) (progressMsg : Message)
  (sessionId : string) (videoInfo : VideoInfoDto) : M unit :=
  let visible := visibleFormats (formats videoInfo) in
  match visible with
  | [] =>
      await (CtxReply ctx "Доступные качества слишком низкие или отсутствуют.");;
      mret tt
  | _ :: _ =>
      let keyboard := keyboardFor sessionId visible in
      let caption := formatVideoCaption d videoInfo in
      if negb (String.eqb (thumbnail videoInfo) "") then
        tryCatch
          (swallow (await (ApiDeleteMessage chatId (message_id progressMsg)));;
           await (CtxReplyWithPhoto ctx (thumbnail videoInfo) caption keyboard);;
           mret tt)
          (fun photoError =>
             log LevelWarn "⚠️ Не удалось загрузить превью, отправляю текстом";;
             await (ApiEditMessageText chatId (message_id progressMsg) caption
                      (Some keyboard)))
      else
        await (ApiEditMessageText chatId (message_id progressMsg) caption
                 (Some keyboard))
  end.

(** The body of the [try] block after the first reply. *)
Definition present (ctx : Context) (chatId : Z) (progressMsg : Message)
  (target : string) : M unit :=
  videoInfo <- YtdlpService.getVideoInfo d target;;
  sessionId <- sync (RandomBytesHex 8);;
  modifyMem (setVideoDataCache (insert sessionId videoInfo));;
  VideoSessionService.save sessionId videoInfo;;
  offerChoices ctx chatId progressMsg sessionId videoInfo.

Definition handleUrl (ctx : Context) (target : string) : M unit :=
  match chat ctx with
  | None =>
      await (CtxReply ctx "Данная команда доступна только в чатах.");;
      mret tt
  | Some chatId =>
      first <- attempt (await (CtxReply ctx "🔍 Анализирую ссылку..."));;
      match first with
      | inl error => analysisFailed ctx chatId None error
      | inr progressMsg =>
          tryCatch (present ctx chatId progressMsg target)
            (analysisFailed ctx chatId (Some progressMsg))
      end
  end.

(** *** Downloading ([processDownload]) *)

Definition deliveryCaption (videoData : VideoInfoDto) (label : string) : string :=
  "✅ " +:+ title videoData +:+ nl +:+ nl +:+ "📥 " +:+ label +:+ nl +:+ nl +:+
  "📢 " +:+ yourUsername d.

(** [ctx.replyWithAudio(fileId, ...)] or [ctx.replyWithVideo(fileId, ...)] *)
Definition deliveryCall (ctx : Context) (videoData : VideoInfoDto)
  (label fileId : string) : call Message :=
  if String.eqb label "audio" then
    CtxReplyWithAudio ctx fileId (deliveryCaption videoData label)
      (title videoData) (orUndefined (uploader videoData))
  else
    CtxReplyWithVideo ctx fileId (deliveryCaption videoData label).

Definition deliver (ctx : Context) (videoData : VideoInfoDto)
  (label fileId : string) : M Message :=
  await (deliveryCall ctx videoData label fileId).

(** The progress callback.  Its promise is not awaited by the caller: the
    edit is issued without suspending the download. *)
Definition progressCallback (chatId : Z) (progressMsg : Message) (progress : Q)
  : M unit :=
  if Z.rem (Qfloor progress) 15 =? 0 then
    swallow (sync (ApiEditMessageText chatId (message_id progressMsg)
                     ("⬇️ Скачивание" +:+ nl +:+ createProgressBar d progress +:+
                      " " +:+ Js.numberToString (Qfloor progress) +:+ "%")
                     None))
  else mret tt.

Definition targetPath (videoData : VideoInfoDto) (fmt label : string) : string :=
  pathResolve d (downloadsDir d)
    (sanitizeFilename d (title videoData) +:+ "_" +:+ fmt +:+ "." +:+
     (if String.eqb label "audio" then "m4a" else "mp4")).

Definition sourceUrl (videoData : VideoInfoDto) : string :=
  Js.orString (Some (url videoData))
    ("https://www.youtube.com/watch?v=" +:+ id videoData).

(** The argument of [cacheService.set]. *)
Definition cacheEntryOf (videoData : VideoInfoDto) (fmt label : string)
  (uploaded : string * Z) (size userId : Z) : CacheService.SetDto :=
  {| CacheService.url := id videoData;
     CacheService.formatId := fmt;
     CacheService.resolution := label;
     CacheService.fileId := fst uploaded;
     CacheService.archiveMessageId := snd uploaded;
     CacheService.fileSize := size;
     CacheService.fileType := if String.eqb label "audio" then "audio" else "video";
     CacheService.userId := userId;
     CacheService.title := title videoData;
     CacheService.uploader := orUndefined (uploader videoData);
     CacheService.duration :=
       if duration videoData =? 0 then None else Some (duration videoData) |}.

(** Step 3 of the pipeline: the body of its own [try] block ... *)
Definition writeCacheEntry (videoData : VideoInfoDto)
  (fmt label filepath : string) (uploaded : string * Z) (userId : Z) : M unit :=
  size <- await (FsStat filepath);;
  await (CacheSet (cacheEntryOf videoData fmt label uploaded size userId));;
  log LevelLog "✅ Успешно сохранено в БД".

(** ... and the block with its [catch]. *)
Definition saveToCache (videoData : VideoInfoDto) (fmt label filepath : string)
  (uploaded : string * Z) (userId : Z) : M unit :=
  tryCatch (writeCacheEntry videoData fmt label filepath uploaded userId)
    (fun dbError =>
       log LevelError ("❌ Ошибка сохранения в БД: " +:+ message dbError)).

(** The body of the [try] block after the first reply. *)
Definition pipeline (ctx : Context) (chatId : Z) (progressMsg : Message)
  (videoData : VideoInfoDto) (fmt label : string) (userId : Z) : M unit :=
  let isAudio := String.eqb label "audio" in
  let filepath := targetPath videoData fmt label in
  YtdlpService.downloadVideo d (sourceUrl videoData) fmt filepath isAudio
    (progressCallback chatId progressMsg);;
  await (ApiEditMessageText chatId (message_id progressMsg)
           "📤 Загрузка в Телеграм..." None);;
  uploadResult <- UploaderService.cacheToChannel d filepath videoData isAudio;;
  log LevelLog ("📥 Попытка записи в БД кеш для: " +:+ id videoData);;
  saveToCache videoData fmt label filepath uploadResult userId;;
  deliver ctx videoData label (fst uploadResult);;
  swallow (await (ApiDeleteMessage chatId (message_id progressMsg)));;
  swallow (await (FsUnlink filepath));;
  await (UserIncrementDownloads userId);;
  sync (AdIncrementUserDownloads userId).

(** The [catch] block of [processDownload]. *)
Definition downloadFailed (chatId : Z) (progressMsg : option Message)
  (error : Error) : M unit :=
  log LevelError ("Ошибка процесса скачивания: " +:+ message error);;
  match progressMsg with
  | Some msg =>
      swallow (await (ApiEditMessageText chatId (message_id msg)
                        ("❌ Ошибка: " +:+ message error) None))
  | None => mret tt
  end.

Definition processDownload (ctx : Context) (videoData : VideoInfoDto)
  (fmt label : string) (userId : Z) : M unit :=
  match chat ctx with
  | None => mret tt
  | Some chatId =>
      first <- attempt (await (CtxReply ctx "⬇️ Начинаю загрузку..."));;
      match first with
      | inl error => downloadFailed chatId None error
      | inr progressMsg =>
          tryCatch (pipeline ctx chatId progressMsg videoData fmt label userId)
            (downloadFailed chatId (Some progressMsg))
      end
  end.

(** *** Selecting a quality ([handleQualitySelection]) *)

(** The session of the selection: the in-process map first, the session
    table second; a session found in the table is put into the map. *)
Definition sessionData (videoId : string) : M (option VideoInfoDto) :=
  m <- getMem;;
  match videoDataCache m !! videoId with
  | Some videoData => mret (Some videoData)
  | None =>
      dbData <- VideoSessionService.get videoId;;
      match dbData with
      | None => mret None
      | Some videoData =>
          modifyMem (setVideoDataCache (insert videoId videoData));;
          mret (Some videoData)
      end
  end.

(** The [if (cached)] block; [true] when it returned, [false] when its
    [catch] let the flow fall through. *)
Definition serveFromCache (ctx : Context) (videoData : VideoInfoDto)
  (label : string) (userId : Z) (cached : CacheService.Entry) : M bool :=
  log LevelLog ("🎯 Cache HIT: " +:+ label);;
  await (CtxAnswerCallbackQuery ctx
           (Js.orString (messagesFromCache d) "✅ Из кеша"));;
  tryCatch
    (deliver ctx videoData label (CacheService.fileId (CacheService.data cached));;
     await (CacheRecordHit (CacheService.id cached) userId);;
     await (UserIncrementDownloads userId);;
     sync (AdIncrementUserDownloads userId);;
     showAd <- await (AdShouldShowAd userId);;
     (if showAd : bool then await (AdShowAd ctx) else mret tt);;
     mret true)
    (fun e =>
       log LevelWarn "FileID протух, качаем заново...";;
       mret false).

Definition downloadKey (videoData : VideoInfoDto) (fmt : string) : string :=
  id videoData +:+ "|" +:+ fmt.

(** [queueService.add(...)], [activeDownloads.set(...)] and the registration
    of the [finally] callback: one synchronous stretch.  When the queue
    rejects the task, the promise is already rejected and the callback
    removes the key again. *)
Definition register (job : Job) (m : Mem) : Mem :=
  let key := downloadKey (jobVideo job) (jobFormatId job) in
  let admitted := QueueService.add (maxParallel d) (maxQueued d) job (queue m) in
  let m1 :=
    setQueue (snd admitted)
      (match fst admitted with
       | QueueService.Started => started m ++ [job]
       | _ => started m
       end) m in
  let m2 := setActiveDownloads (insert key job) m1 in
  match fst admitted with
  | QueueService.Rejected => setActiveDownloads (base.delete key) m2
  | _ => m2
  end.

(** The part of the method after the cache block. *)
Definition startDownload (ctx : Context) (videoData : VideoInfoDto)
  (fmt label : string) (userId : Z) : M unit :=
  m <- getMem;;
  match activeDownloads m !! downloadKey videoData fmt with
  | Some _ =>
      await (CtxAnswerCallbackQuery ctx "⏳ Уже скачивается, ждите...")
  | None =>
      await (CtxAnswerCallbackQuery ctx "⬇️ Добавлено в очередь...");;
      modifyMem (register {| jobCtx := ctx; jobVideo := videoData;
                             jobFormatId := fmt; jobResolution := label;
                             jobUserId := userId |})
  end.

Definition handleQualitySelection (ctx : Context) (videoId fmt label : string)
  : M unit :=
  match chat ctx, from ctx with
  | Some _, Some userId =>
      session <- sessionData videoId;;
      match session with
      | None =>
          await (CtxAnswerCallbackQuery ctx
                   "❌ Ссылка устарела. Отправьте видео заново.")
      | Some videoData =>
          cached <- await (CacheGet (id videoData, fmt, label));;
          served <-
            match cached with
            | Some entry => serveFromCache ctx videoData label userId entry
            | None => mret false
            end;;
          if served : bool then mret tt
          else startDownload ctx videoData fmt label userId
      end
  | _, _ => mret tt
  end.

End Service.
End DownloaderService.

(** ** Concurrent flows *)

(** The process runs one flow at a time; a flow gives way to the others only
    at an [await].  A system state holds the world, the process memory and
    the flows that stand at an awaited call; a schedule names, step by step,
    the flow whose call completes next. *)
Module Scheduler.

(** A flow serves an update, or runs a download task of the queue. *)
Inductive Flow :=
| Handler
| Download (job : Job).

Inductive Thread :=
| Suspended : Flow -> forall T : Type,
    call T -> (Error + T -> Mem -> step unit) -> Thread.
Arguments Suspended who {T} c k.

Record System := mkSystem {
  world : World;
  mem : Mem;
  threads : list Thread;
}.

Section Flows.
Context (d : Deps) (o : Oracle).

(** A download task has settled: the queue frees its slot and admits the
    next waiting task (modelled from the spec), and the [finally] callback
    registered by [handleQualitySelection] removes the key. *)
Definition settled (job : Job) (m : Mem) : Mem :=
  let released := QueueService.release (queue m) in
  setActiveDownloads
    (base.delete (DownloaderService.downloadKey (jobVideo job) (jobFormatId job)))
    (setQueue (snd released) (started m ++ option_list (fst released)) m).

(** Put a flow that has run up to its next [await], or to its end, back
    into the system. *)
Definition park (who : Flow) (s : step unit) (w : World) (rest : list Thread)
  : System :=
  match s with
  | Done m _ =>
      {| world := w;
         mem := match who with Handler => m | Download job => settled job m end;
         threads := rest |}
  | Yield _ c m k =>
      {| world := w; mem := m; threads := rest ++ [Suspended who c k] |}
  end.

Definition launch (who : Flow) (body : M unit) (sys : System) : System :=
  let s := advance o (body (mem sys)) (world sys) in
  park who (fst s) (snd s) (threads sys).

Definition taskOf (job : Job) : M unit :=
  DownloaderService.processDownload d (jobCtx job) (jobVideo job)
    (jobFormatId job) (jobResolution job) (jobUserId job).

(** Start the tasks the queue has admitted. *)
Fixpoint admitStarted (fuel : nat) (sys : System) : System :=
  match fuel with
  | O => sys
  | S fuel' =>
      match started (mem sys) with
      | [] => sys
      | job :: rest =>
          admitStarted fuel'
            (launch (Download job) (taskOf job)
               {| world := world sys;
                  mem := setQueue (queue (mem sys)) rest (mem sys);
                  threads := threads sys |})
      end
  end.

(** Every start takes a task from [started]; a task that ends at once moves
    at most one task from [waiting] to [started]. *)
Definition admitAll (sys : System) : System :=
  admitStarted
    (List.length (started (mem sys)) +
     List.length (QueueService.waiting (queue (mem sys))))%nat
    sys.

(** An update arrives: its handler runs up to its first [await]. *)
Definition arrive (body : M unit) (sys : System) : System :=
  admitAll (launch Handler body sys).

(** The awaited call of flow number [i] completes and the flow runs on. *)
Definition resume (i : nat) (sys : System) : option System :=
  match threads sys !! i with
  | Some (Suspended who c k) =>
      let r := perform o c (world sys) in
      let s := advance o (k (fst r) (mem sys)) (snd r) in
      Some (admitAll (park who (fst s) (snd s) (base.delete i (threads sys))))
  | None => None
  end.

Fixpoint schedule (order : list nat) (sys : System) : option System :=
  match order with
  | [] => Some sys
  | i :: rest =>
      match resume i sys with
      | Some sys' => schedule rest sys'
      | None => None
      end
  end.

(** The dedup key of a download task whose fetch is in flight: the task
    stands at the awaited invocation of the fetcher. *)
Definition fetchInFlight (t : Thread) : option string :=
  match t with
  | Suspended (Download job) (SpawnYtdlp _ _) _ =>
      Some (DownloaderService.downloadKey (jobVideo job) (jobFormatId job))
  | _ => None
  end.

Definition fetchesInFlight (key : string) (sys : System) : nat :=
  List.length
    (List.filter (fun t => bool_decide (fetchInFlight t = Some key))
       (threads sys)).

End Flows.
End Scheduler.

(** ** Escaping of captions ([escapeHtml]) *)

(** [escapeHtml] is a private method of [UploaderService] and, with the same
    body, of [DownloaderService]. *)
Module Captions.

(** [s.replace(/c/g, by)] for a pattern of one ASCII character. *)
Fixpoint replaceAll (c : ascii) (by_ : string) (s : string) : string :=
  match s with
  | EmptyString => EmptyString
  | String x t =>
      if Ascii.eqb x c then by_ +:+ replaceAll c by_ t
      else String x (replaceAll c by_ t)
  end.

Definition escapeHtml (text : string) : string :=
  replaceAll ">" "&gt;" (replaceAll "<" "&lt;" (replaceAll "&" "&amp;" text)).

End Captions.

(** ** Sweeping and counting the session table *)

(** [VideoSessionService.cleanExpired] and [VideoSessionService.getStats].
    Each statement they send to the table either fails with an error of the
    store or is executed on the table; the methods are given the failure, if
    any, and the state outside the process. *)
Module SessionSweep.

(** [where: { expiresAt: { lt: now } }] *)
Definition expiredAt (now : Z) (row : Prisma.VideoSession) : bool :=
  Prisma.expiresAt row <? now.

(** [prisma.videoSession.count({ where })] *)
Definition count (matches : Prisma.VideoSession -> bool)
  (table : gmap string Prisma.VideoSession) : Z :=
  Z.of_nat (size (filter (fun kv => matches kv.2 = true) table)).

(** [prisma.videoSession.deleteMany({ where })]: the rows that match are
    removed; the result carries their number. *)
Definition deleteMany (matches : Prisma.VideoSession -> bool)
  (table : gmap string Prisma.VideoSession)
  : Z * gmap string Prisma.VideoSession :=
  (count matches table, filter (fun kv => matches kv.2 = false) table).

Definition logged (level : LogLevel) (text : string) (w : World) : World :=
  record (Ev (Log level text) (inr tt)) w.

Definition cleanExpired (storeFailure : option Error) (w : World) : Z * World :=
  match storeFailure with
  | None =>
      let result := deleteMany (expiredAt (clock w)) (videoSessions w) in
      let w1 := withSessions (fun _ => snd result) w in
      (fst result,
       if 0 <? fst result then
         logged LevelLog ("🗑️ Удалено " +:+ Js.numberToString (fst result) +:+
                          " истёкших видео-сессий") w1
       else w1)
  | Some error =>
      (0, logged LevelError ("❌ Ошибка очистки сессий: " +:+ message error) w)
  end.

Record Stats := mkStats { total : Z; expired : Z; active : Z }.

(** The two [count] statements of [getStats], the second of which may fail
    after the first was answered. *)
Definition getStats (firstFailure secondFailure : option Error) (w : World)
  : Stats * World :=
  let failed (error : Error) :=
    ({| total := 0; expired := 0; active := 0 |},
     logged LevelError ("❌ Ошибка получения статистики: " +:+ message error) w) in
  match firstFailure with
  | Some error => failed error
  | None =>
      let total := count (fun _ => true) (videoSessions w) in
      match secondFailure with
      | Some error => failed error
      | None =>
          let expired := count (expiredAt (clock w)) (videoSessions w) in
          ({| total := total; expired := expired; active := total - expired |}, w)
      end
  end.

End SessionSweep.

(** ** Concrete inputs *)

(** A configuration, an oracle under which nothing outside the program
    fails, and small states, used to evaluate the model. *)
Module Fixtures.

Definition deps : Deps :=
  {| downloadsDir := "/tmp/bot_downloads";
     yourUsername := "@your_bot";
     archiveChannelId := "-1001";
     ytdlpPath := "yt-dlp";
     maxParallel := 3;
     maxQueued := 50;
     sanitizeFilename := fun s => s;
     formatFileSize := fun n => Js.numberToString n +:+ " B";
     createProgressBar := fun _ => "[...]";
     formatVideoCaption := fun info => title info;
     pathResolve := fun dir name => dir +:+ "/" +:+ name;
     renderNumber := fun q => Js.numberToString (Qfloor q);
     messagesFromCache := None |}.

Definition sentMessage : Message :=
  {| message_id := 7; audio_file_id := Some "ref-audio";
     video_file_id := Some "ref123" |}.

Definition metadata : RawInfo :=
  {| data_id := "vid"; data_webpage_url := None; data_title := "Clip";
     data_uploader := None; data_channel := None; data_duration := None;
     data_view_count := None; data_like_count := None;
     data_upload_date := None; data_thumbnail := None; data_width := None;
     data_height := None; data_formats := None |}.

(** A fetch that reports 10%, 30% and 100% and exits with code 0. *)
Definition finishedFetch : ChildRun :=
  {| chunks := [mkChunk None None (Some (10 # 1));
                mkChunk None None (Some (30 # 1));
                mkChunk None None (Some (100 # 1))];
     closed := inr 0 |}.

Definition answers (T : Type) (c : call T) : T :=
  match c in call T return T with
  | Log _ _ => tt
  | DateNow => 0
  | RandomBytesHex _ => "00ff00ff00ff00ff"
  | PrismaCreate _ => tt
  | PrismaFindUnique _ => None
  | PrismaDelete _ => tt
  | CtxReply _ _ => sentMessage
  | CtxAnswerCallbackQuery _ _ => tt
  | CtxReplyWithAudio _ _ _ _ _ => sentMessage
  | CtxReplyWithVideo _ _ _ => sentMessage
  | CtxReplyWithPhoto _ _ _ _ => sentMessage
  | ApiEditMessageText _ _ _ _ => tt
  | ApiDeleteMessage _ _ => tt
  | BotSendAudio _ _ _ _ _ => sentMessage
  | BotSendVideo _ _ _ _ _ _ => sentMessage
  | CacheGet _ => None
  | CacheSet _ => tt
  | CacheRecordHit _ _ => tt
  | UserIncrementDownloads _ => tt
  | AdIncrementUserDownloads _ => tt
  | AdShouldShowAd _ => false
  | AdShowAd _ => tt
  | ExecDumpJson _ _ _ => metadata
  | SpawnYtdlp _ _ => finishedFetch
  | ExecFfmpegThumbnail _ _ => tt
  | FsExistsSync _ => false
  | FsUnlinkSync _ => tt
  | FsUnlink _ => tt
  | FsStat _ => 52428800
  end.

(** Nothing outside the program fails. *)
Definition calm : Oracle := {| fault := fun _ _ => None; reply := answers |}.

(** The result cache rejects every write. *)
Definition cacheDown : Oracle :=
  {| fault := fun T c =>
       match c with
       | CacheSet _ => Some (newError "cache store unavailable")
       | _ => None
       end;
     reply := answers |}.

(** The upload of a video to the archive channel fails. *)
Definition archiveDown : Oracle :=
  {| fault := fun T c =>
       match c with
       | BotSendVideo _ _ _ _ _ _ => Some (newError "Request Entity Too Large")
       | _ => None
       end;
     reply := answers |}.


(** The download counter of the user service is unavailable. *)
Definition accountingDown : Oracle :=
  {| fault := fun T c =>
       match c with
       | UserIncrementDownloads _ => Some (newError "connection lost")
       | _ => None
       end;
     reply := answers |}.

Definition video : VideoInfoDto :=
  {| id := "vid"; url := "https://example.org/watch?v=vid"; title := "Clip";
     uploader := "Someone"; duration := 60; viewCount := 10; likeCount := 2;
     uploadDate := "20240101"; thumbnail := ""; width := 0; height := 0;
     formats := [] |}.


Definition user : Context := {| chat := Some 5; from := Some 42 |}.

Definition emptyWorld : World :=
  {| videoSessions := ∅; cacheTable := ∅; files := ∅; clock := 1000; trace := [] |}.

Definition idle : Mem :=
  {| videoDataCache := ∅; activeDownloads := ∅;
     queue := {| QueueService.running := 0; QueueService.waiting := [] |};
     started := []; botSet := true |}.

(** The session "s1" is known to the process. *)
Definition withSession : Mem :=
  setVideoDataCache (insert "s1" video) idle.

(** A world whose session table holds "s1", expiring at time 500. *)
Definition storedSession : Prisma.VideoSession :=
  VideoSessionService.rowOf "s1" video 500.

Definition worldAt (now : Z) : World :=
  {| videoSessions := {["s1" := storedSession]}; cacheTable := ∅; files := ∅;
     clock := now; trace := [] |}.

(** A world whose result cache holds the 720p rendition of the video. *)
Definition cachedEntry : CacheService.Entry :=
  {| CacheService.id := 1;
     CacheService.data :=
       {| CacheService.url := "vid"; CacheService.formatId := "137";
          CacheService.resolution := "720p"; CacheService.fileId := "ref123";
          CacheService.archiveMessageId := 7; CacheService.fileSize := 52428800;
          CacheService.fileType := "video"; CacheService.userId := 41;
          CacheService.title := "Clip"; CacheService.uploader := Some "Someone";
          CacheService.duration := Some 60 |};
     CacheService.hitCount := 0 |}.

Definition cachedWorld : World :=
  {| videoSessions := ∅; cacheTable := {[("vid", "137", "720p") := cachedEntry]};
     files := ∅; clock := 1000; trace := [] |}.

(** A second requester. *)
Definition otherUser : Context := {| chat := Some 6; from := Some 43 |}.

End Fixtures.

(** ** Vocabulary of the statements about the resolver *)

Module ResolverSpec.
Import YtdlpService.

(** The audio-only records of the input, in input order. *)
Definition audioPool (fs : list RawFormat) : list RawFormat :=
  filter (fun f => negb (hasVideo f) && hasAudioTrack f = true) fs.

(** The video-bearing records of the input with integer height [h]. *)
Definition recordsAt (h : Z) (fs : list RawFormat) : list RawFormat :=
  filter (fun f => hasVideo f && (heightOf f =? h) = true) fs.

(** One round of the contest for a height: the challenger [f] replaces the
    incumbent exactly when the guard of [videoFormats.set] holds. *)
Definition challenge (incumbent : option FormatDto) (f : RawFormat)
  : option FormatDto :=
  if takes f incumbent then Some (videoDto f) else incumbent.

(** The candidate that survives at height [h]. *)
Definition retainedAt (h : Z) (fs : list RawFormat) : option FormatDto :=
  fold_left challenge (recordsAt h fs) None.

(** An entry of [videoFormats] comes from a video-bearing input record of
    positive size and height at least 144, stored under its height. *)
Definition fromVideo (fs : list RawFormat) (kv : Z * FormatDto) : Prop :=
  exists f, f ∈ fs /\ hasVideo f = true /\ 144 <= heightOf f /\ 0 < size f /\
            kv = (heightOf f, videoDto f).

Record accOk (fs : list RawFormat) (a : acc) : Prop := {
  keys_nodup : NoDup (map fst (videoFormats a));
  entries_from_input : Forall (fromVideo fs) (videoFormats a);
  audio_is_pool : audioFormats a = map audioDto (audioPool fs);
}.

(** Three records at height 720: a large one tagged vp9, a smaller H.264
    one, and one that declares no size. *)
Definition vp9Large : RawFormat :=
  mkRawFormat "247" (Some "vp9") (Some "none") (Some 2000) None (Some 720).

Definition avcSmall : RawFormat :=
  mkRawFormat "136" (Some "avc1.4d401f") (Some "none") (Some 1000) None (Some 720).

Definition sizeless : RawFormat :=
  mkRawFormat "22" (Some "avc1.64001F") (Some "mp4a.40.2") None None (Some 720).

End ResolverSpec.

(** ** Vocabulary of the statements about progress reports *)

Module ProgressSpec.
Import YtdlpService.







End ProgressSpec.

(** ** Vocabulary of the statements about rendition labels *)

Module LabelSpec.
Import Decimal.

(** The number read from a run of decimal digits, most significant first,
    continuing from [acc]. *)
Fixpoint uintValue (acc : Z) (d : uint) : Z :=
  match d with
  | Nil => acc
  | D0 d => uintValue (acc * 10 + 0) d
  | D1 d => uintValue (acc * 10 + 1) d
  | D2 d => uintValue (acc * 10 + 2) d
  | D3 d => uintValue (acc * 10 + 3) d
  | D4 d => uintValue (acc * 10 + 4) d
  | D5 d => uintValue (acc * 10 + 5) d
  | D6 d => uintValue (acc * 10 + 6) d
  | D7 d => uintValue (acc * 10 + 7) d
  | D8 d => uintValue (acc * 10 + 8) d
  | D9 d => uintValue (acc * 10 + 9) d
  end.

End LabelSpec.

(** ** Vocabulary of the statements about the download pipeline *)

Module PipelineSpec.
Import DownloaderService.

(** A call that shows something to a user of the chat platform. *)
Definition userFacing (e : Event) : bool :=
  match e with
  | Ev c _ =>
      match c with
      | CtxReply _ _ | CtxAnswerCallbackQuery _ _
      | CtxReplyWithAudio _ _ _ _ _ | CtxReplyWithVideo _ _ _
      | CtxReplyWithPhoto _ _ _ _ | ApiEditMessageText _ _ _ _
      | ApiDeleteMessage _ _ => true
      | _ => false
      end
  end.

(** The three stretches of [pipeline], named apart. *)
Section Stretches.
Context (d : Deps).
Context (ctx : Context) (chatId : Z) (progressMsg : Message).
Context (videoData : VideoInfoDto) (fmt label : string) (userId : Z).

(** Steps 1 and 2: fetch, then archive. *)
Definition fetchAndArchive : M (string * Z) :=
  YtdlpService.downloadVideo d (sourceUrl videoData) fmt
    (targetPath d videoData fmt label) (String.eqb label "audio")
    (progressCallback d chatId progressMsg);;
  await (ApiEditMessageText chatId (message_id progressMsg)
           "📤 Загрузка в Телеграм..." None);;
  UploaderService.cacheToChannel d (targetPath d videoData fmt label) videoData
    (String.eqb label "audio").

(** Step 3: the write of the cache entry. *)
Definition cacheStep (uploadResult : string * Z) : M unit :=
  log LevelLog ("📥 Попытка записи в БД кеш для: " +:+ id videoData);;
  saveToCache videoData fmt label (targetPath d videoData fmt label)
    uploadResult userId.

(** Steps 4 to 6: delivery, clean-up, statistics. *)
Definition deliverAndCleanUp (uploadResult : string * Z) : M unit :=
  deliver d ctx videoData label (fst uploadResult);;
  swallow (await (ApiDeleteMessage chatId (message_id progressMsg)));;
  swallow (await (FsUnlink (targetPath d videoData fmt label)));;
  await (UserIncrementDownloads userId);;
  sync (AdIncrementUserDownloads userId).

End Stretches.
End PipelineSpec.

(** ** Vocabulary of the statements about a selection *)

Module SelectionSpec.
Import DownloaderService.

(** The job that [handleQualitySelection] hands to the queue. *)
Definition jobOf (ctx : Context) (userId : Z) (fmt label : string)
  (videoData : VideoInfoDto) : Job :=
  {| jobCtx := ctx; jobVideo := videoData; jobFormatId := fmt;
     jobResolution := label; jobUserId := userId |}.

(** The text of the callback answer on a cache hit:
    [MESSAGES.FROM_CACHE || '✅ Из кеша']. *)
Definition hitText (d : Deps) : string :=
  Js.orString (messagesFromCache d) "✅ Из кеша".

(** The world after the cache lookup found [entry] and the hit was
    announced. *)
Definition announced (d : Deps) (ctx : Context) (fmt label : string)
  (videoData : VideoInfoDto) (entry : CacheService.Entry) (w : World) : World :=
  record (Ev (CtxAnswerCallbackQuery ctx (hitText d)) (inr tt))
    (record (Ev (Log LevelLog ("🎯 Cache HIT: " +:+ label)) (inr tt))
       (record (Ev (CacheGet (id videoData, fmt, label)) (inr (Some entry))) w)).


End SelectionSpec.

(** ** Vocabulary of the statements about concurrent selections *)

Module DedupSpec.
Import Scheduler.

(** What the users were told in answer to their selections. *)
Definition answered (e : Event) : option (Context * string) :=
  match e with
  | Ev (CtxAnswerCallbackQuery ctx text) _ => Some (ctx, text)
  | _ => None
  end.

Definition answersGiven (sys : System) : list (Context * string) :=
  omap answered (trace (world sys)).

(** The process knows the session "s1"; nothing is cached, nothing is in
    flight. *)
Definition quiet : System :=
  {| world := Fixtures.emptyWorld; mem := Fixtures.withSession; threads := [] |}.

Definition select (ctx : Context) : M unit :=
  DownloaderService.handleQualitySelection Fixtures.deps ctx "s1" "137" "720p".

(** Both updates have arrived: each handler stands at its cache lookup. *)
Definition bothArrived : System :=
  arrive Fixtures.deps Fixtures.calm (select Fixtures.otherUser)
    (arrive Fixtures.deps Fixtures.calm (select Fixtures.user) quiet).

End DedupSpec.

(** ** Vocabulary of the statements about the choice list *)

Module PresentationSpec.

(** The keyboard an event shows to the user, if it shows one. *)
Definition offered (e : Event) : option (list Button) :=
  match e with
  | Ev (CtxReplyWithPhoto _ _ _ keyboard) _ => Some keyboard
  | Ev (ApiEditMessageText _ _ _ (Some keyboard)) _ => Some keyboard
  | _ => None
  end.

(** Raw records at 144, 240, 720 and 2160 lines and an audio-only one, and
    the metadata resolved from them. *)
Definition sampleFormats : list RawFormat :=
  [mkRawFormat "160" (Some "avc1.4d400c") (Some "none") (Some 1000) None (Some 144);
   mkRawFormat "133" (Some "avc1.4d4015") (Some "none") (Some 2000) None (Some 240);
   mkRawFormat "136" (Some "avc1.4d401f") (Some "none") (Some 9000) None (Some 720);
   mkRawFormat "313" (Some "vp9") (Some "none") (Some 90000) None (Some 2160);
   mkRawFormat "140" (Some "none") (Some "mp4a.40.2") (Some 500) None None].

Definition sampleInfo : VideoInfoDto :=
  {| id := "vid"; url := ""; title := "Clip"; uploader := ""; duration := 0;
     viewCount := 0; likeCount := 0; uploadDate := ""; thumbnail := "";
     width := 0; height := 0;
     formats := YtdlpService.getBestFormats sampleFormats |}.

End PresentationSpec.

(** ** Vocabulary of the statements about a flow as a whole *)

Module FlowSpec.

(** The flow leaves the process memory as it found it, however its calls
    turn out. *)
Definition keepsMem {A} (x : M A) : Prop :=
  forall (o : Oracle) (m : Mem) (w : World), fst (fst (run o (x m) w)) = m.

(** The flow ends with a value, never with a thrown error. *)
Definition neverThrows {A} (x : M A) : Prop :=
  forall (o : Oracle) (m : Mem) (w : World),
    exists a, snd (fst (run o (x m) w)) = inr a.

(** The state outside the process, the trace apart. *)
Definition stateOf (w : World)
  : gmap string Prisma.VideoSession *
    gmap CacheService.Fingerprint CacheService.Entry * gset string * Z :=
  (videoSessions w, cacheTable w, files w, clock w).

(** The flow changes nothing outside the process but the trace. *)
Definition keepsState {A} (x : M A) : Prop :=
  forall (o : Oracle) (m : Mem) (w : World),
    stateOf (snd (run o (x m) w)) = stateOf w.

(** Every call the flow can make, however the calls before it turned out,
    satisfies [P]. *)
Inductive callsOnly (P : forall T, call T -> Prop) {A} : step A -> Prop :=
| callsOnly_Done (m : Mem) (r : Error + A) : callsOnly P (Done m r)
| callsOnly_Yield (T : Type) (awaited : bool) (c : call T) (m : Mem)
    (k : Error + T -> Mem -> step A) :
    P T c -> (forall r m', callsOnly P (k r m')) ->
    callsOnly P (Yield awaited c m k).

Definition makesOnly (P : forall T, call T -> Prop) {A} (x : M A) : Prop :=
  forall m, callsOnly P (x m).

(** The events of a trace are calls that satisfy [P]. *)
Definition eventsOnly (P : forall T, call T -> Prop) (evs : list Event) : Prop :=
  Forall (fun e => match e with Ev c _ => P _ c end) evs.

(** The calls that write to the session table. *)
Definition writesSessions {T} (c : call T) : bool :=
  match c with
  | PrismaCreate _ | PrismaDelete _ => true
  | _ => false
  end.

(** The calls that create or remove a file. *)
Definition writesFiles {T} (c : call T) : bool :=
  match c with
  | SpawnYtdlp _ _ | ExecFfmpegThumbnail _ _ | FsUnlinkSync _ | FsUnlink _ => true
  | _ => false
  end.

(** The calls that write to the result cache. *)
Definition writesCache {T} (c : call T) : bool :=
  match c with
  | CacheSet _ | CacheRecordHit _ _ => true
  | _ => false
  end.

(** The calls that change the state outside the process. *)
Definition writes {T} (c : call T) : bool :=
  (writesSessions c || writesFiles c || writesCache c)%bool.

End FlowSpec.

(** ** Vocabulary of the statements about the archive upload *)

Module UploadSpec.

(** The upload that [cacheToChannel] sends to the archive channel. *)
Definition uploadCall (d : Deps) (videoPath : string) (info : VideoInfoDto)
  (isAudio : bool) (thumbnail : option string) : call Message :=
  if isAudio then
    BotSendAudio (archiveChannelId d) videoPath (title info) (uploader info)
      (duration info)
  else
    BotSendVideo (archiveChannelId d) videoPath thumbnail (duration info)
      (width info) (height info).

(** [isAudio ? message.audio?.file_id : message.video?.file_id] *)
Definition referenceOf (isAudio : bool) (sent : Message) : option string :=
  if isAudio then audio_file_id sent else video_file_id sent.

End UploadSpec.

(** ** Vocabulary of the statements about the handlers of an update *)

Module HandlerSpec.

(** The calls that show no keyboard to the user. *)
Definition showsNoKeyboard {T} (c : call T) : bool :=
  match c with
  | CtxReplyWithPhoto _ _ _ _ => false
  | ApiEditMessageText _ _ _ (Some _) => false
  | _ => true
  end.

(** The calls that change neither a file nor the result cache. *)
Definition sparesFilesAndCache {T} (c : call T) : bool :=
  negb (FlowSpec.writesFiles c || FlowSpec.writesCache c).

End HandlerSpec.

(** ** Vocabulary of the statements about escaping *)

Module CaptionSpec.

(** What [escapeHtml] puts in the place of one character. *)
Definition entityOf (c : ascii) : string :=
  if Ascii.eqb c "&" then "&amp;"
  else if Ascii.eqb c "<" then "&lt;"
  else if Ascii.eqb c ">" then "&gt;"
  else String c "".

End CaptionSpec.

(** ** Vocabulary of the statements about file names *)

Module PathSpec.

(** The extensions that the pattern [/\.(mp4|m4a|webm)$/] removes. *)
Definition mediaExts : list string := [".mp4"; ".m4a"; ".webm"].

End PathSpec.

(** ** More concrete inputs *)

Module Scenarios.

(** The fetcher cannot read the metadata of the resource. *)
Definition fetcherDown : Oracle :=
  {| fault := fun T c =>
       match c with
       | ExecDumpJson _ _ _ => Some (newError "ERROR: Video unavailable")
       | _ => None
       end;
     reply := Fixtures.answers |}.

(** The record of a cache hit cannot be written. *)
Definition hitAccountingDown : Oracle :=
  {| fault := fun T c =>
       match c with
       | CacheRecordHit _ _ => Some (newError "connection lost")
       | _ => None
       end;
     reply := Fixtures.answers |}.

(** Nothing fails, and the fetcher describes a clip with the raw formats
    of [PresentationSpec.sampleFormats]. *)
Definition clipMetadata : RawInfo :=
  {| data_id := "vid"; data_webpage_url := None; data_title := "Clip";
     data_uploader := None; data_channel := None; data_duration := None;
     data_view_count := None; data_like_count := None;
     data_upload_date := None; data_thumbnail := None; data_width := None;
     data_height := None;
     data_formats := Some PresentationSpec.sampleFormats |}.

Definition clipFetched : Oracle :=
  {| fault := fun _ _ => None;
     reply := fun T c =>
       match c in call T return T with
       | ExecDumpJson _ _ _ => clipMetadata
       | other => Fixtures.answers _ other
       end |}.

(** [setBot] has not been called. *)
Definition noBot : Mem :=
  {| videoDataCache := ∅; activeDownloads := ∅;
     queue := {| QueueService.running := 0; QueueService.waiting := [] |};
     started := []; botSet := false |}.

End Scenarios.

(** * Facts about the JavaScript library model *)

Module JsFacts.
Import Js.

Section SortFacts.
Context {A : Type} (cmp : A -> A -> Z).

Lemma insertSorted_perm (x : A) (l : list A) :
  insertSorted cmp x l ≡ₚ x :: l.
Proof.
  induction l as [|y l IH]; simpl; [done|].
  destruct (cmp x y <=? 0); [done|].
  rewrite IH. apply Permutation_swap.
Qed.

Lemma sort_perm (l : list A) : sort cmp l ≡ₚ l.
Proof.
  induction l as [|x l IH]; simpl; [done|].
  unfold sort in *. simpl. rewrite insertSorted_perm. by rewrite IH.
Qed.

Hypothesis cmp_total : forall x y, 0 < cmp x y -> cmp y x <= 0.
Hypothesis cmp_trans :
  forall x y z, cmp x y <= 0 -> cmp y z <= 0 -> cmp x z <= 0.

Lemma insertSorted_sorted (x : A) (l : list A) :
  StronglySorted (fun x y => cmp x y <= 0) l ->
  StronglySorted (fun x y => cmp x y <= 0) (insertSorted cmp x l).
Proof.
  induction 1 as [|y l Hl IH Hy]; simpl.
  - repeat constructor.
  - destruct (Z.leb_spec (cmp x y) 0) as [Hxy|Hxy].
    + constructor; [by constructor|].
      constructor; [done|].
      eapply Forall_impl; [exact Hy|]. intros z Hz. by eapply cmp_trans.
    + constructor; [done|].
      rewrite insertSorted_perm. constructor; [|done].
      by apply cmp_total.
Qed.

Lemma sort_sorted (l : list A) :
  StronglySorted (fun x y => cmp x y <= 0) (sort cmp l).
Proof.
  induction l as [|x l IH]; [constructor|].
  by apply insertSorted_sorted.
Qed.

Lemma head_sort_best (l : list A) (b : A) :
  head (sort cmp l) = Some b ->
  b ∈ l /\ forall y, y ∈ l -> y = b \/ cmp b y <= 0.
Proof.
  intros Hb. pose proof (sort_sorted l) as Hs. pose proof (sort_perm l) as Hp.
  destruct (sort cmp l) as [|b' s] eqn:E; simplify_eq/=.
  split.
  - rewrite <- Hp. by left.
  - intros y Hy. rewrite <- Hp in Hy. apply elem_of_cons in Hy as [->|Hy]; [by left|].
    right. apply StronglySorted_inv in Hs as [_ Hall].
    by eapply Forall_forall in Hall.
Qed.


End SortFacts.

Section MapFacts.
Context {V : Type}.
Implicit Types (m : Map V) (k : Z) (v : V).

Lemma mapGet_mapSet k k' v m :
  mapGet k' (mapSet k v m) = if k =? k' then Some v else mapGet k' m.
Proof.
  induction m as [|[k0 v0] m IH]; simpl.
  - done.
  - destruct (Z.eqb_spec k0 k) as [->|Hne]; simpl.
    + by destruct (k =? k').
    + rewrite IH. destruct (Z.eqb_spec k0 k') as [->|?]; [|done].
      destruct (Z.eqb_spec k k'); [congruence|done].
Qed.

Lemma mapSet_keys_in k v m :
  k ∈ map fst m -> map fst (mapSet k v m) = map fst m.
Proof.
  induction m as [|[k0 v0] m IH]; simpl.
  - by intros ?%elem_of_nil.
  - destruct (Z.eqb_spec k0 k) as [->|Hne]; simpl; [done|].
    intros [?|?]%elem_of_cons; [congruence|]. by rewrite IH.
Qed.

Lemma mapSet_keys_fresh k v m :
  k ∉ map fst m -> map fst (mapSet k v m) = map fst m ++ [k].
Proof.
  induction m as [|[k0 v0] m IH]; simpl; [done|].
  intros Hn. apply not_elem_of_cons in Hn as [Hne Hn].
  destruct (Z.eqb_spec k0 k) as [->|_]; simpl; [done|]. by rewrite IH.
Qed.

Lemma mapSet_NoDup k v m : NoDup (map fst m) -> NoDup (map fst (mapSet k v m)).
Proof.
  intros Hnd. destruct (decide (k ∈ map fst m)) as [Hin|Hnin].
  - by rewrite mapSet_keys_in.
  - rewrite mapSet_keys_fresh by done.
    apply NoDup_app. split_and!; [done| |apply NoDup_singleton].
    intros x Hx Hx'. apply list_elem_of_singleton in Hx'. congruence.
Qed.

Lemma mapSet_elem k v m kv :
  kv ∈ mapSet k v m -> kv = (k, v) \/ kv ∈ m.
Proof.
  induction m as [|[k0 v0] m IH]; simpl.
  - intros ?%list_elem_of_singleton. by left.
  - destruct (k0 =? k).
    + rewrite !elem_of_cons. tauto.
    + rewrite !elem_of_cons. intros [?|?]; [tauto|]. destruct IH; tauto.
Qed.

Lemma mapGet_Some_elem k v m : mapGet k m = Some v -> (k, v) ∈ m.
Proof.
  induction m as [|[k0 v0] m IH]; simpl; [done|].
  destruct (Z.eqb_spec k0 k) as [->|?].
  - intros [= ->]. by left.
  - intros. right. auto.
Qed.

Lemma mapGet_None_elem k v m : mapGet k m = None -> (k, v) ∉ m.
Proof.
  induction m as [|[k0 v0] m IH]; simpl.
  - intros _. apply not_elem_of_nil.
  - destruct (Z.eqb_spec k0 k) as [->|?]; [done|].
    intros Hn. rewrite elem_of_cons. intros [[= ? ?]|?]; [congruence|]. by apply IH.
Qed.

Lemma elem_mapGet k v m : NoDup (map fst m) -> (k, v) ∈ m -> mapGet k m = Some v.
Proof.
  induction m as [|[k0 v0] m IH]; simpl; intros Hnd Hin.
  - by apply elem_of_nil in Hin.
  - apply NoDup_cons in Hnd as [Hk0 Hnd].
    apply elem_of_cons in Hin as [[= -> ->]|Hin].
    + by rewrite Z.eqb_refl.
    + destruct (Z.eqb_spec k0 k) as [->|_]; [|by apply IH].
      exfalso. apply Hk0. apply list_elem_of_fmap. by exists (k, v).
Qed.

End MapFacts.
End JsFacts.

(** * The format resolver *)

Module ResolverFacts.
Import Js JsFacts YtdlpService ResolverSpec.

Lemma fromVideo_mono fs f kv : fromVideo fs kv -> fromVideo (fs ++ [f]) kv.
Proof.
  intros (g & Hg & ?). exists g. split; [|done]. apply elem_of_app. by left.
Qed.

Lemma audioPool_snoc fs f :
  audioPool (fs ++ [f]) =
  audioPool fs ++ (if negb (hasVideo f) && hasAudioTrack f then [f] else []).
Proof.
  unfold audioPool. rewrite filter_app. f_equal.
  destruct (negb (hasVideo f) && hasAudioTrack f) eqn:E.
  - by rewrite filter_cons_True.
  - rewrite filter_cons_False; [done|]. by rewrite E.
Qed.

Lemma visit_ok fs a f : accOk fs a -> accOk (fs ++ [f]) (visit a f).
Proof.
  intros [Hnd Hall Haud].
  assert (Hall' : Forall (fromVideo (fs ++ [f])) (videoFormats a)).
  { eapply Forall_impl; [exact Hall|]. intros. by apply fromVideo_mono. }
  unfold visit. pose proof (audioPool_snoc fs f) as Hp.
  destruct (negb (hasVideo f) && hasAudioTrack f) eqn:E.
  - constructor; simpl; [done..|].
    by rewrite Hp, Haud, map_app.
  - rewrite app_nil_r in Hp.
    destruct (hasVideo f) eqn:Ev; [|by constructor; rewrite ?Hp].
    destruct (Z.ltb_spec (heightOf f) 144); [by constructor; rewrite ?Hp|].
    destruct (takes f _) eqn:Et; [|by constructor; rewrite ?Hp].
    constructor; simpl; [by apply mapSet_NoDup| |by rewrite Hp].
    apply Forall_forall. intros kv [->|Hkv]%mapSet_elem.
    + exists f. split_and!; try done.
      * apply elem_of_app. right. by left.
      * unfold takes in Et. apply andb_true_iff in Et as [Hs _]. lia.
    + by eapply Forall_forall in Hall'.
Qed.

Lemma fold_visit_ok rest : forall pre a,
  accOk pre a -> accOk (pre ++ rest) (fold_left visit rest a).
Proof.
  induction rest as [|f rest IH]; intros pre a Ha; simpl.
  - by rewrite app_nil_r.
  - replace (pre ++ f :: rest) with ((pre ++ [f]) ++ rest) by by rewrite <- app_assoc.
    apply IH. by apply visit_ok.
Qed.

Lemma collect_ok fs : accOk fs (collect fs).
Proof.
  apply (fold_visit_ok fs [] {| videoFormats := []; audioFormats := [] |}).
  constructor; simpl; [constructor|constructor|done].
Qed.

(** The entry stored under [h] is the outcome of the contest among the
    records of that height alone: other heights and the audio pool do not
    interfere. *)
Lemma visit_at h a f :
  144 <= h ->
  mapGet h (videoFormats (visit a f)) =
  if hasVideo f && (heightOf f =? h)
  then challenge (mapGet h (videoFormats a)) f
  else mapGet h (videoFormats a).
Proof.
  intros Hh. unfold visit, challenge.
  destruct (hasVideo f) eqn:Ev; simpl.
  - destruct (Z.eqb_spec (heightOf f) h) as [->|Hne].
    + destruct (Z.ltb_spec h 144); [lia|].
      destruct (takes f _); simpl; [|done].
      by rewrite mapGet_mapSet, Z.eqb_refl.
    + destruct (heightOf f <? 144); [done|].
      destruct (takes f _); simpl; [|done].
      rewrite mapGet_mapSet. by destruct (Z.eqb_spec (heightOf f) h).
  - by destruct (hasAudioTrack f).
Qed.

Lemma fold_visit_at h fs : forall a,
  144 <= h ->
  mapGet h (videoFormats (fold_left visit fs a)) =
  fold_left challenge (recordsAt h fs) (mapGet h (videoFormats a)).
Proof.
  induction fs as [|f fs IH]; intros a Hh; simpl; [done|].
  rewrite IH by done. rewrite visit_at by done. unfold recordsAt.
  destruct (hasVideo f && (heightOf f =? h)) eqn:E.
  - by rewrite filter_cons_True.
  - rewrite filter_cons_False; [done|]. by rewrite E.
Qed.

Lemma collect_at h fs :
  144 <= h -> mapGet h (videoFormats (collect fs)) = retainedAt h fs.
Proof. intros. unfold collect. by rewrite fold_visit_at. Qed.

Section ByQuality.
Context {A : Type} (q : A -> Z).

Lemma descending_strict (l : list A) :
  StronglySorted (fun x y => q y - q x <= 0) l ->
  NoDup (map q l) ->
  StronglySorted (fun x y => q y < q x) l.
Proof.
  induction 1 as [|x l Hl IH Hx]; intros Hnd; [constructor|].
  simpl in Hnd. apply NoDup_cons in Hnd as [Hx' Hnd].
  constructor; [by apply IH|].
  apply Forall_forall. intros y Hy.
  assert (q y <> q x).
  { intros Heq. apply Hx'. rewrite <- Heq. apply list_elem_of_fmap. eauto. }
  eapply Forall_forall in Hx; [|done]. lia.
Qed.

Lemma filter_none (h : Z) (l : list A) :
  (forall x, x ∈ l -> q x <> h) -> filter (fun x => (q x =? h) = true) l = [].
Proof.
  induction l as [|x l IH]; intros Hl; [done|].
  rewrite filter_cons_False.
  - apply IH. intros. apply Hl. by right.
  - intros ?%Z.eqb_eq. eapply Hl; [by left|done].
Qed.

Lemma filter_unique (h : Z) (l : list A) (v : A) :
  NoDup (map q l) -> v ∈ l -> q v = h ->
  filter (fun x => (q x =? h) = true) l = [v].
Proof.
  induction l as [|x l IH]; intros Hnd Hv Hq; [by apply elem_of_nil in Hv|].
  simpl in Hnd. apply NoDup_cons in Hnd as [Hx Hnd].
  apply elem_of_cons in Hv as [->|Hv].
  - rewrite filter_cons_True by by apply Z.eqb_eq.
    f_equal. apply filter_none. intros y Hy Hqy. apply Hx.
    rewrite Hq, <- Hqy. apply list_elem_of_fmap. eauto.
  - rewrite filter_cons_False; [by apply IH|].
    intros ?%Z.eqb_eq. apply Hx. replace (q x) with (q v) by congruence.
    apply list_elem_of_fmap. eauto.
Qed.
End ByQuality.

Lemma values_quality (fs : list RawFormat) (m : Map FormatDto) :
  Forall (fromVideo fs) m -> map quality (mapValues m) = map fst m.
Proof.
  induction 1 as [|[k v] m (f & _ & _ & _ & _ & [= -> ->]) _ IH]; [done|].
  simpl. by rewrite <- IH.
Qed.

Lemma sortedVideos_perm a : sortedVideos a ≡ₚ mapValues (videoFormats a).
Proof. apply sort_perm. Qed.

Lemma sortedVideos_nodup fs a :
  accOk fs a -> NoDup (map quality (sortedVideos a)).
Proof.
  intros [Hnd Hall _]. rewrite sortedVideos_perm.
  by erewrite values_quality.
Qed.


Lemma sortedVideos_from_input fs a v :
  accOk fs a -> v ∈ sortedVideos a ->
  exists f, f ∈ fs /\ hasVideo f = true /\ 144 <= heightOf f /\ 0 < size f /\
            v = videoDto f /\ mapGet (heightOf f) (videoFormats a) = Some v.
Proof.
  intros [Hnd Hall _] Hv. rewrite sortedVideos_perm in Hv.
  apply list_elem_of_fmap in Hv as ([k v'] & -> & Hkv).
  pose proof Hkv as Hkv'.
  eapply Forall_forall in Hkv; [|exact Hall].
  destruct Hkv as (f & ? & ? & ? & ? & [= -> ->]).
  exists f. split_and!; try done. simpl.
  by apply elem_mapGet.
Qed.


End ResolverFacts.

Module Resolver.
Import Js JsFacts YtdlpService ResolverSpec ResolverFacts.

Lemma fold_challenge_Some (l : list RawFormat) : forall e,
  is_Some (fold_left challenge l e) <->
  is_Some e \/ exists f, f ∈ l /\ 0 < size f.
Proof.
  induction l as [|f l IH]; intros e; simpl.
  - split; [by left|]. intros [?|(f & []%elem_of_nil & _)]. done.
  - rewrite IH. unfold challenge, takes.
    destruct (Z.ltb_spec 0 (size f)) as [Hpos|Hnpos]; simpl.
    + split; [intros _|intros _; left].
      * right. exists f. split; [by left|done].
      * destruct e; [by destruct (_ || _)|done].
    + split.
      * intros [?|(g & ? & ?)]; [by left|]. right. exists g. split; [by right|done].
      * intros [?|(g & [->|?]%elem_of_cons & ?)]; [by left|lia|].
        right. by exists g.
Qed.

Lemma retainedAt_Some h fs :
  is_Some (retainedAt h fs) <->
  exists f, f ∈ fs /\ hasVideo f = true /\ heightOf f = h /\ 0 < size f.
Proof.
  unfold retainedAt. rewrite fold_challenge_Some. split.
  - intros [[? [=]]|(f & Hf & ?)]. exists f.
    apply list_elem_of_filter in Hf as [Hc ?].
    apply andb_true_iff in Hc as [? ?%Z.eqb_eq]. done.
  - intros (f & ? & Hv & Hh & ?). right. exists f. split; [|done].
    apply list_elem_of_filter. split; [|done].
    rewrite Hv. by apply Z.eqb_eq.
Qed.

Lemma takes_spec (f : RawFormat) (e : FormatDto) :
  takes f (Some e) = true <->
  0 < size f /\ (filesize e < size f \/ (isH264 f = true /\ tagHasAvc e = false)).
Proof.
  unfold takes.
  rewrite andb_true_iff, orb_true_iff, andb_true_iff, negb_true_iff.
  by rewrite !Z.ltb_lt.
Qed.

Lemma filter_quality_tail (h : Z) (a : acc) (fs : list RawFormat) (b : FormatDto) :
  144 <= h -> accOk fs a -> bestAudio a = Some b ->
  filter (fun v => (quality v =? h) = true) [b] = [].
Proof.
  intros Hh [_ _ Haud] Hb. unfold bestAudio in Hb. rewrite Haud in Hb.
  apply head_sort_best in Hb as [Hb _]; [|intros; lia..].
  apply list_elem_of_fmap in Hb as (f & -> & _).
  rewrite filter_cons_False; [done|]. intros Hq%Z.eqb_eq. simpl in Hq. lia.
Qed.

Lemma filter_quality_videos (h : Z) (fs : list RawFormat) :
  144 <= h ->
  filter (fun v => (quality v =? h) = true) (sortedVideos (collect fs)) =
  option_list (retainedAt h fs).
Proof.
  intros Hh. pose proof (collect_ok fs) as Ha.
  rewrite <- collect_at by done.
  destruct (mapGet h (videoFormats (collect fs))) as [v|] eqn:E; simpl.
  - pose proof Ha as [_ Hall _].
    apply mapGet_Some_elem in E. pose proof E as E'.
    eapply Forall_forall in E; [|exact Hall].
    destruct E as (f & _ & _ & _ & _ & [= -> ->]).
    apply filter_unique; [by eapply sortedVideos_nodup| |done].
    rewrite sortedVideos_perm. apply list_elem_of_fmap. by eexists (_, _).
  - apply filter_none. intros v Hv Hq.
    eapply sortedVideos_from_input in Hv as (f & _ & _ & _ & _ & -> & Hg); [|done].
    simpl in Hq. congruence.
Qed.

Lemma visit_video (a : acc) (f : RawFormat) :
  hasVideo f = true -> 144 <= heightOf f ->
  visit a f =
  if takes f (mapGet (heightOf f) (videoFormats a))
  then {| videoFormats := mapSet (heightOf f) (videoDto f) (videoFormats a);
          audioFormats := audioFormats a |}
  else a.
Proof.
  intros Hv Hh. unfold visit. rewrite Hv. simpl.
  by destruct (Z.ltb_spec (heightOf f) 144); [lia|].
Qed.

Lemma getBestFormats_pair (a b : RawFormat) :
  hasVideo a = true -> hasVideo b = true ->
  heightOf a = heightOf b -> 144 <= heightOf a -> 0 < size a ->
  getBestFormats [a; b] =
  [if takes b (Some (videoDto a)) then videoDto b else videoDto a].
Proof.
  intros Ha Hb Hh H144 Hpos.
  unfold getBestFormats, collect. cbn [fold_left].
  rewrite (visit_video _ a) by done. cbn [videoFormats mapGet].
  replace (takes a None) with true
    by (unfold takes; destruct (Z.ltb_spec 0 (size a)); [done|lia]).
  rewrite (visit_video _ b) by (try done; lia).
  cbn [videoFormats mapGet mapSet]. rewrite <- Hh, Z.eqb_refl.
  by destruct (takes b _).
Qed.

(** Every entry of the output is the candidate of a video-bearing record of
    height at least 144, or the entry of an audio-only record. *)
Lemma getBestFormats_elem (fs : list RawFormat) (v : FormatDto) :
  v ∈ getBestFormats fs ->
  (exists f, f ∈ fs /\ hasVideo f = true /\ 144 <= heightOf f /\ v = videoDto f) \/
  (exists f, f ∈ fs /\ v = audioDto f).
Proof.
  intros Hv. pose proof (collect_ok fs) as Ha.
  assert (Hvideo : v ∈ sortedVideos (collect fs) ->
    exists f, f ∈ fs /\ hasVideo f = true /\ 144 <= heightOf f /\ v = videoDto f).
  { intros Hin.
    eapply sortedVideos_from_input in Hin as (f & ? & ? & ? & ? & -> & _); [|done].
    by exists f. }
  unfold getBestFormats in Hv.
  destruct (bestAudio (collect fs)) as [b|] eqn:Eb; [|left; auto].
  apply elem_of_app in Hv as [Hin|Hin]; [left; auto|].
  apply list_elem_of_singleton in Hin as ->. right.
  destruct Ha as [_ _ Haud]. unfold bestAudio in Eb. rewrite Haud in Eb.
  apply head_sort_best in Eb as [Hb _]; [|intros; lia..].
  apply list_elem_of_fmap in Hb as (f & -> & Hf).
  exists f. split; [|done]. by apply list_elem_of_filter in Hf as [_ ?].
Qed.

(** C3 (as amended).  For every input and every height [h >= 144] the
    resolver keeps at most one candidate at [h], and exactly one precisely
    when some video-bearing record of that height declares a positive size
    (records of size 0 are never kept).  The survivor is the outcome of the
    contest among the records of that height taken in input order, where a
    challenger of positive size displaces the incumbent exactly when its
    size is strictly larger, or it is H.264 (its tag contains avc1 or h264,
    case-insensitively) and the incumbent's tag does not contain avc --
    whatever the two sizes.  In particular, of two records of sizes 1000 and
    2000 the 2000 one is kept, unless it comes first, its tag lacks avc and
    the 1000 one is H.264; and of two records of equal size 1000, one H.264
    and the other neither H.264 nor tagged avc, the H.264 one is kept in
    either order. *)
Theorem getBestFormats_per_height (fs : list RawFormat) (h : Z) :
  144 <= h ->
  filter (fun v => (quality v =? h) = true) (getBestFormats fs) =
    option_list (retainedAt h fs)
  /\ (is_Some (retainedAt h fs) <->
      exists f, f ∈ fs /\ hasVideo f = true /\ heightOf f = h /\ 0 < size f)
  /\ (forall f e, takes f (Some e) = true <->
        0 < size f /\
        (filesize e < size f \/ (isH264 f = true /\ tagHasAvc e = false)))
  /\ (forall a b,
        hasVideo a = true -> hasVideo b = true ->
        heightOf a = h -> heightOf b = h -> size a = 1000 -> size b = 2000 ->
        getBestFormats [a; b] = [videoDto b] /\
        getBestFormats [b; a] =
          [if isH264 a && negb (tagHasAvc (videoDto b))
           then videoDto a else videoDto b])
  /\ (forall a b,
        hasVideo a = true -> hasVideo b = true ->
        heightOf a = h -> heightOf b = h -> size a = 1000 -> size b = 1000 ->
        isH264 a = true -> isH264 b = false -> tagHasAvc (videoDto b) = false ->
        getBestFormats [a; b] = [videoDto a] /\
        getBestFormats [b; a] = [videoDto a]).
Proof.
  intros Hh. split_and!.
  - unfold getBestFormats. pose proof (collect_ok fs) as Ha.
    destruct (bestAudio (collect fs)) as [b|] eqn:Eb.
    + rewrite filter_app. erewrite filter_quality_tail by done.
      rewrite app_nil_r. by apply filter_quality_videos.
    + by apply filter_quality_videos.
  - apply retainedAt_Some.
  - apply takes_spec.
  - intros a b Ha Hb Hha Hhb Hsa Hsb. split.
    + rewrite getBestFormats_pair by (try done; lia).
      unfold takes. simpl. by rewrite Hsa, Hsb.
    + rewrite getBestFormats_pair by (try done; lia).
      unfold takes. simpl. by rewrite Hsa, Hsb.
  - intros a b Ha Hb Hha Hhb Hsa Hsb Hia Hib Hnb. split.
    + rewrite getBestFormats_pair by (try done; lia).
      unfold takes. simpl. by rewrite Hsa, Hsb, Hib.
    + rewrite getBestFormats_pair by (try done; lia).
      unfold takes. simpl. by rewrite Hsa, Hsb, Hia, Hnb.
Qed.

(** C3 as stated fails on two counts.  Of two records at height 720, the
    first of size 2000 and tagged vp9, the second of size 1000 and H.264, the
    resolver keeps the record of size 1000; and a video-bearing record that
    declares no size leaves no candidate at its height. *)
Lemma larger_size_counterexample :
  (hasVideo vp9Large = true /\ heightOf vp9Large = 720 /\ size vp9Large = 2000) /\
  (hasVideo avcSmall = true /\ heightOf avcSmall = 720 /\ size avcSmall = 1000) /\
  getBestFormats [vp9Large; avcSmall] = [videoDto avcSmall] /\
  (hasVideo sizeless = true /\ heightOf sizeless = 720) /\
  getBestFormats [sizeless] = [].
Proof. by repeat split. Qed.

(** The amended statement at work on the same records. *)
Lemma getBestFormats_per_height_witness :
  filter (fun v => (quality v =? 720) = true) (getBestFormats [vp9Large; avcSmall]) =
    option_list (retainedAt 720 [vp9Large; avcSmall]) /\
  retainedAt 720 [vp9Large; avcSmall] = Some (videoDto avcSmall) /\
  retainedAt 720 [sizeless] = None.
Proof.
  split; [|by split].
  apply (getBestFormats_per_height [vp9Large; avcSmall] 720). lia.
Defined.


End Resolver.

(** * Rendition labels: printing a height and reading it back *)

Module Labels.
Import Decimal DecimalPos Js LabelSpec.

Lemma digitsFrom_uint (d : uint) : forall (acc : Z) (rest : string),
  digitsFrom acc (NilEmpty.string_of_uint d +:+ rest) =
  digitsFrom (uintValue acc d) rest.
Proof. induction d; intros acc rest; simpl; [done|apply IHd..]. Qed.

Lemma uintValue_spec (d : uint) : forall acc : Z,
  uintValue acc d =
  acc * 10 ^ Z.of_N (Unsigned.usize d) + Z.of_N (Unsigned.of_lu (rev d)).
Proof.
  induction d; intros acc; cbn [uintValue Unsigned.usize];
    [simpl; lia|..];
    rewrite IHd; unfold rev at 2; cbn [revapp];
    rewrite Unsigned.of_lu_revapp, N2Z.inj_add, N2Z.inj_mul, N2Z.inj_pow,
      N2Z.inj_succ;
    rewrite Z.pow_succ_r by lia;
    change (Z.of_N 10) with 10;
    cbn [Unsigned.of_lu]; rewrite ?N.mul_0_r, ?N.add_0_r;
    simpl (Z.of_N _); ring.
Qed.

Lemma parseInt_digits (d : uint) :
  d <> Nil ->
  parseInt (NilEmpty.string_of_uint d +:+ "p") = Some (uintValue 0 d).
Proof.
  intros Hd. destruct d; [done|..];
    cbn [NilEmpty.string_of_uint String.append uintValue];
    unfold parseInt; cbn [skipSpaces isSpace nat_of_ascii];
    (etransitivity; [reflexivity|]);
    unfold parseDigits; cbn [digitOf];
    (etransitivity; [reflexivity|]);
    f_equal; by rewrite digitsFrom_uint.
Qed.

(** Reading the label of a height gives the height back. *)
Lemma parseInt_label (h : Z) :
  0 <= h -> parseInt (numberToString h +:+ "p") = Some h.
Proof.
  intros Hh. destruct h as [|p|p]; [done| |lia].
  unfold numberToString. cbn [Z.to_int NilZero.string_of_int].
  pose proof (Unsigned.to_uint_nonnil p) as Hnil.
  replace (NilZero.string_of_uint (Pos.to_uint p))
    with (NilEmpty.string_of_uint (Pos.to_uint p))
    by by destruct (Pos.to_uint p).
  rewrite parseInt_digits by done. f_equal.
  rewrite uintValue_spec, <- Unsigned.of_uint_alt, Unsigned.of_to. lia.
Qed.

End Labels.

(** * Running a flow: the equations of the combinators *)

Module RunFacts.
Section Run.
Context (o : Oracle).

Lemma run_bindStep {A B} (s : step A) (f : A -> M B) (w : World) :
  run o (bindStep s f) w =
  match run o s w with
  | (m, inr a, w') => run o (f a m) w'
  | (m, inl e, w') => (m, inl e, w')
  end.
Proof.
  revert w. induction s as [m [e|a]|T aw c m k IH]; intros w; simpl; [done..|]. apply IH.
Qed.

Lemma run_bind {A B} (x : M A) (f : A -> M B) (m : Mem) (w : World) :
  run o (bind x f m) w =
  match run o (x m) w with
  | (m', inr a, w') => run o (f a m') w'
  | (m', inl e, w') => (m', inl e, w')
  end.
Proof. apply run_bindStep. Qed.

Lemma run_mbind {A B} (x : M A) (f : A -> M B) (m : Mem) (w : World) :
  run o ((x ≫= f) m) w =
  match run o (x m) w with
  | (m', inr a, w') => run o (f a m') w'
  | (m', inl e, w') => (m', inl e, w')
  end.
Proof. apply run_bindStep. Qed.

Lemma run_catchStep {A} (s : step A) (h : Error -> M A) (w : World) :
  run o (catchStep s h) w =
  match run o s w with
  | (m, inr a, w') => (m, inr a, w')
  | (m, inl e, w') => run o (h e m) w'
  end.
Proof.
  revert w. induction s as [m [e|a]|T aw c m k IH]; intros w; simpl; [done..|]. apply IH.
Qed.

Lemma run_tryCatch {A} (body : M A) (h : Error -> M A) (m : Mem) (w : World) :
  run o (tryCatch body h m) w =
  match run o (body m) w with
  | (m', inr a, w') => (m', inr a, w')
  | (m', inl e, w') => run o (h e m') w'
  end.
Proof. apply run_catchStep. Qed.

Lemma run_ret {A} (a : A) (m : Mem) (w : World) :
  run o ((mret a : M A) m) w = (m, inr a, w).
Proof. done. Qed.

Lemma run_throw {A} (e : Error) (m : Mem) (w : World) :
  run o (throw (A:=A) e m) w = (m, inl e, w).
Proof. done. Qed.

Lemma run_await {T} (c : call T) (m : Mem) (w : World) :
  run o (await c m) w = (m, fst (perform o c w), snd (perform o c w)).
Proof. done. Qed.

Lemma run_sync {T} (c : call T) (m : Mem) (w : World) :
  run o (sync c m) w = (m, fst (perform o c w), snd (perform o c w)).
Proof. done. Qed.

Lemma run_getMem (m : Mem) (w : World) : run o (getMem m) w = (m, inr m, w).
Proof. done. Qed.

Lemma run_modifyMem (f : Mem -> Mem) (m : Mem) (w : World) :
  run o (modifyMem f m) w = (f m, inr tt, w).
Proof. done. Qed.

Lemma run_log (level : LogLevel) (text : string) (m : Mem) (w : World) :
  run o (log level text m) w = (m, inr tt, record (Ev (Log level text) (inr tt)) w).
Proof. done. Qed.

Lemma run_swallow {A} (body : M A) (m : Mem) (w : World) :
  run o (swallow body m) w =
  (fst (fst (run o (body m) w)), inr tt, snd (run o (body m) w)).
Proof.
  unfold swallow. rewrite run_tryCatch, run_mbind.
  by destruct (run o (body m) w) as [[m' [e|a]] w'].
Qed.

(** Calls only add to the trace. *)
Lemma outcome_trace {T} (c : call T) (w : World) :
  trace (snd (outcome o c w)) = trace w.
Proof.
  unfold outcome, effect.
  destruct (if infallible c then None else fault o c); [done|].
  destruct c; simpl; unfold unlinkFile, sessionCreate, sessionDelete;
    repeat case_match; done.
Qed.

Lemma perform_trace {T} (c : call T) (w : World) :
  trace (snd (perform o c w)) = trace w ++ [Ev c (fst (perform o c w))].
Proof. unfold perform. simpl. by rewrite outcome_trace. Qed.

Lemma run_trace {A} (s : step A) (w : World) :
  exists evs, trace (snd (run o s w)) = trace w ++ evs.
Proof.
  revert w. induction s as [m r|T aw c m k IH]; intros w; cbn [run].
  - exists []. by rewrite app_nil_r.
  - destruct (IH (fst (perform o c w)) m (snd (perform o c w))) as [evs ->].
    rewrite perform_trace, <- app_assoc. eauto.
Qed.

Lemma perform_faulty {T} (c : call T) (e : Error) (w : World) :
  infallible c = false -> fault o c = Some e ->
  perform o c w = (inl e, record (Ev c (inl e)) w).
Proof. intros Hi Hf. unfold perform, outcome. by rewrite Hi, Hf. Qed.

Lemma perform_effect {T} (c : call T) (w : World) :
  (if infallible c then None else fault o c) = None ->
  perform o c w =
  (fst (effect o c w),
   record (Ev c (fst (effect o c w))) (snd (effect o c w))).
Proof. intros Hf. unfold perform, outcome. by rewrite Hf. Qed.

End Run.


End RunFacts.

(** * The session store *)

Module SessionStore.
Import RunFacts VideoSessionService.

Section Store.
Context (o : Oracle).

(** Outcome of a call to the session table or the clock. *)
Lemma perform_findUnique (sid : string) (w : World) :
  fault o (PrismaFindUnique sid) = None ->
  perform o (PrismaFindUnique sid) w =
  (inr (videoSessions w !! sid),
   record (Ev (PrismaFindUnique sid) (inr (videoSessions w !! sid))) w).
Proof. intros Hf. unfold perform, outcome. simpl. by rewrite Hf. Qed.

Lemma perform_dateNow (w : World) :
  perform o DateNow w = (inr (clock w), record (Ev DateNow (inr (clock w))) w).
Proof. done. Qed.

(** [delete] never throws and never touches the memory; it removes the row
    when the store executes the statement. *)
Lemma run_delete (videoId : string) (m : Mem) (w : World) :
  fst (run o (delete videoId m) w) = (m, inr tt) /\
  (fault o (PrismaDelete videoId) = None ->
   videoSessions (snd (run o (delete videoId m) w)) =
   base.delete videoId (videoSessions w)).
Proof.
  unfold delete. rewrite run_tryCatch, run_mbind, run_await.
  unfold perform, outcome. simpl.
  destruct (fault o (PrismaDelete videoId)) as [e|] eqn:Hf; simpl.
  - split; [|done]. by destruct (negb _).
  - unfold effect. simpl. unfold sessionDelete.
    destruct (videoSessions w !! videoId) as [row|] eqn:Hrow; simpl; [done|].
    split; [done|]. intros _. by rewrite delete_id.
Qed.

(** The outcomes of [get], by the state of the table and of the store. *)
Lemma run_get_unreachable (videoId : string) (m : Mem) (w : World) (e : Error) :
  fault o (PrismaFindUnique videoId) = Some e ->
  fst (run o (get videoId m) w) = (m, inr None) /\
  videoSessions (snd (run o (get videoId m) w)) = videoSessions w.
Proof.
  intros Hf. unfold get. rewrite run_tryCatch, run_bind, run_await.
  rewrite (perform_faulty o (PrismaFindUnique videoId) e) by done.
  cbn [fst snd]. by rewrite run_mbind, run_log.
Qed.

Lemma run_get_absent (videoId : string) (m : Mem) (w : World) :
  fault o (PrismaFindUnique videoId) = None ->
  videoSessions w !! videoId = None ->
  fst (run o (get videoId m) w) = (m, inr None) /\
  videoSessions (snd (run o (get videoId m) w)) = videoSessions w.
Proof.
  intros Hf Hrow. unfold get. rewrite run_tryCatch, run_bind, run_await.
  rewrite perform_findUnique by done. cbn [fst snd]. by rewrite Hrow.
Qed.

Lemma run_get_expired (videoId : string) (m : Mem) (w : World)
  (session : Prisma.VideoSession) :
  fault o (PrismaFindUnique videoId) = None ->
  videoSessions w !! videoId = Some session ->
  Prisma.expiresAt session < clock w ->
  fst (run o (get videoId m) w) = (m, inr None) /\
  (fault o (PrismaDelete videoId) = None ->
   videoSessions (snd (run o (get videoId m) w)) =
   base.delete videoId (videoSessions w)).
Proof.
  intros Hf Hrow Hexp. unfold get. rewrite run_tryCatch, run_bind, run_await.
  rewrite perform_findUnique by done. cbn [fst snd]. rewrite Hrow.
  rewrite run_bind, run_sync, perform_dateNow. cbn [fst snd clock record].
  destruct (Z.ltb_spec (Prisma.expiresAt session) (clock w)); [|lia].
  rewrite run_mbind, run_log, run_mbind.
  match goal with |- context [run o (delete videoId m) ?w1] =>
    pose proof (run_delete videoId m w1) as [Hd1 Hd2];
    destruct (run o (delete videoId m) w1) as [[m' r] w'] eqn:E end.
  simpl in Hd1, Hd2. injection Hd1 as -> ->. simpl. split; [done|].
  intros Hfd. by rewrite Hd2.
Qed.

Lemma run_get_live (videoId : string) (m : Mem) (w : World)
  (session : Prisma.VideoSession) :
  fault o (PrismaFindUnique videoId) = None ->
  videoSessions w !! videoId = Some session ->
  clock w <= Prisma.expiresAt session ->
  fst (run o (get videoId m) w) = (m, inr (Some (infoOf session))) /\
  videoSessions (snd (run o (get videoId m) w)) = videoSessions w.
Proof.
  intros Hf Hrow Hexp. unfold get. rewrite run_tryCatch, run_bind, run_await.
  rewrite perform_findUnique by done. cbn [fst snd]. rewrite Hrow.
  rewrite run_bind, run_sync, perform_dateNow. cbn [fst snd clock record].
  by destruct (Z.ltb_spec (Prisma.expiresAt session) (clock w)); [lia|].
Qed.

(** What [get] returns is the content of a stored session that has not
    expired. *)
Lemma get_returns_live (videoId : string) (m : Mem) (w : World)
  (info : VideoInfoDto) :
  snd (fst (run o (get videoId m) w)) = inr (Some info) ->
  exists session,
    videoSessions w !! videoId = Some session /\
    clock w <= Prisma.expiresAt session /\ info = infoOf session.
Proof.
  intros Hr.
  destruct (fault o (PrismaFindUnique videoId)) as [e|] eqn:Hf.
  { destruct (run_get_unreachable videoId m w e Hf) as [H _].
    rewrite (surjective_pairing (fst _)) in H. congruence. }
  destruct (videoSessions w !! videoId) as [session|] eqn:Hrow.
  2:{ destruct (run_get_absent videoId m w Hf Hrow) as [H _].
      rewrite (surjective_pairing (fst _)) in H. congruence. }
  destruct (Z.lt_ge_cases (Prisma.expiresAt session) (clock w)) as [Hexp|Hlive].
  - destruct (run_get_expired videoId m w session Hf Hrow Hexp) as [H _].
    rewrite (surjective_pairing (fst _)) in H. congruence.
  - destruct (run_get_live videoId m w session Hf Hrow Hlive) as [H _].
    rewrite (surjective_pairing (fst _)) in H. exists session.
    split_and!; [done..|congruence].
Qed.

(** C5.  A [get] performed when the stored session has expired
    ([now > expiresAt]) returns "not found" ([null]) -- whatever else happens,
    the expired data is not returned -- and, the store executing the two
    statements, the expired row is deleted from the table as a side
    effect. *)
Theorem get_expired (videoId : string) (m : Mem) (w : World)
  (session : Prisma.VideoSession) :
  videoSessions w !! videoId = Some session ->
  Prisma.expiresAt session < clock w ->
  fst (run o (get videoId m) w) = (m, inr None) /\
  (fault o (PrismaFindUnique videoId) = None ->
   fault o (PrismaDelete videoId) = None ->
   videoSessions (snd (run o (get videoId m) w)) =
   base.delete videoId (videoSessions w)).
Proof.
  intros Hrow Hexp.
  destruct (fault o (PrismaFindUnique videoId)) as [e|] eqn:Hf.
  - destruct (run_get_unreachable videoId m w e Hf) as [H _]. by split.
  - destruct (run_get_expired videoId m w session Hf Hrow Hexp) as [H1 H2].
    split; [done|]. intros _. exact H2.
Qed.


End Store.



(** A live session at work: at time 400 the session stored until 500 is
    returned. *)
Lemma get_returns_live_witness :
  exists session,
    videoSessions (Fixtures.worldAt 400) !! "s1" = Some session /\
    400 <= Prisma.expiresAt session /\
    infoOf Fixtures.storedSession = infoOf session.
Proof.
  apply (get_returns_live Fixtures.calm "s1" Fixtures.idle (Fixtures.worldAt 400)
           (infoOf Fixtures.storedSession)).
  reflexivity.
Defined.

(** The theorem at work: at time 1000 the session stored until 500 is not
    returned and its row is gone. *)
Lemma get_expired_witness :
  fst (run Fixtures.calm (get "s1" Fixtures.idle) (Fixtures.worldAt 1000)) =
    (Fixtures.idle, inr None) /\
  videoSessions (snd (run Fixtures.calm (get "s1" Fixtures.idle)
                        (Fixtures.worldAt 1000))) !! "s1" = None.
Proof.
  destruct (get_expired Fixtures.calm "s1" Fixtures.idle (Fixtures.worldAt 1000)
              Fixtures.storedSession) as [H1 H2].
  - reflexivity.
  - simpl. lia.
  - split; [exact H1|]. rewrite H2 by reflexivity. apply lookup_delete_eq.
Defined.

End SessionStore.

(** * Progress reporting *)

Module Progress.
Import RunFacts YtdlpService ProgressSpec.







Section Feed.
Context (d : Deps) (o : Oracle).

(** The download flow hands each reported token to the callback, whose
    failure it ignores, and ends with the handler's variables as the chunks
    left them. *)
Lemma run_feed (onProgress : Q -> M unit) (output : list Chunk) :
  forall (st : ProgressState) (m : Mem) (w : World),
    snd (fst (run o (feed d onProgress st output m) w)) =
    inr (fold_left (fun st chunk => fst (onData st chunk)) output st).
Proof.
  induction output as [|chunk rest IH]; intros st m w; [done|].
  cbn [feed fold_left]. rewrite run_mbind.
  destruct (snd (onData st chunk)) as [p|].
  - rewrite run_mbind, run_swallow, run_log. apply IH.
  - rewrite run_ret. apply IH.
Qed.

End Feed.
End Progress.

(** * The download pipeline *)

Module Pipeline.
Import RunFacts DownloaderService PipelineSpec.

Section Job.
Context (d : Deps) (o : Oracle).
Context (ctx : Context) (chatId : Z) (progressMsg : Message).
Context (videoData : VideoInfoDto) (fmt label : string) (userId : Z).

Lemma run_pipeline (m : Mem) (w : World) :
  run o (pipeline d ctx chatId progressMsg videoData fmt label userId m) w =
  match run o (fetchAndArchive d chatId progressMsg videoData fmt label m) w with
  | (m1, inr uploadResult, w1) =>
      match run o (cacheStep d videoData fmt label userId uploadResult m1) w1 with
      | (m2, inr _, w2) => run o (deliverAndCleanUp d ctx chatId progressMsg videoData fmt label userId uploadResult m2) w2
      | (m2, inl e, w2) => (m2, inl e, w2)
      end
  | (m1, inl e, w1) => (m1, inl e, w1)
  end.
Proof.
  unfold pipeline, fetchAndArchive.
  rewrite !run_mbind.
  destruct (run o (YtdlpService.downloadVideo _ _ _ _ _ _ m) w)
    as [[m1 [e|p]] w1]; [done|].
  rewrite !run_mbind.
  destruct (run o (await _ m1) w1) as [[m2 [e|u]] w2]; [reflexivity|].
  rewrite run_bind.
  destruct (run o (UploaderService.cacheToChannel _ _ _ _ m2) w2)
    as [[m3 [e|up]] w3]; [done|].
  unfold cacheStep. rewrite !run_mbind, !run_log, run_mbind.
  by destruct (run o (saveToCache _ _ _ _ _ _ m3) _) as [[m4 [e|u']] w4].
Qed.

(** The write of the cache entry, whatever its outcome: nothing is thrown
    to the pipeline, the memory is untouched, and the calls made are the
    log lines, [fs.stat] and [cacheService.set]. *)
Lemma run_cacheStep (uploadResult : string * Z) (m : Mem) (w : World) :
  fst (run o (cacheStep d videoData fmt label userId uploadResult m) w) = (m, inr tt) /\
  (exists evs,
     trace (snd (run o (cacheStep d videoData fmt label userId uploadResult m) w)) = trace w ++ evs /\
     Forall (fun e => userFacing e = false) evs) /\
  (forall e m' w',
     run o (writeCacheEntry videoData fmt label (targetPath d videoData fmt label) uploadResult userId m)
       (record (Ev (Log LevelLog ("📥 Попытка записи в БД кеш для: " +:+
                                   id videoData)) (inr tt)) w) = (m', inl e, w') ->
     snd (run o (cacheStep d videoData fmt label userId uploadResult m) w) =
     record (Ev (Log LevelError ("❌ Ошибка сохранения в БД: " +:+ message e))
               (inr tt)) w').
Proof.
  unfold cacheStep, saveToCache. set (filepath := targetPath d videoData fmt label).
  rewrite run_mbind, run_log, run_tryCatch.
  unfold writeCacheEntry. rewrite run_bind, run_await.
  set (w0 := record _ w).
  destruct (perform o (FsStat filepath) w0) as [[e|size] w1] eqn:Hstat;
    cbn [fst snd].
  - rewrite run_log. split_and!; [done| |].
    + pose proof (perform_trace o (FsStat filepath) w0) as Ht.
      rewrite Hstat in Ht. cbn [fst snd] in Ht.
      eexists. cbn [fst snd record trace]. rewrite Ht. subst w0. cbn [record trace].
      rewrite <- !app_assoc. split; [done|]. by repeat constructor.
    + by intros e' m' w' [= <- <- <-].
  - rewrite run_mbind, run_await.
    set (dto := cacheEntryOf _ _ _ _ _ _).
    destruct (perform o (CacheSet dto) w1) as [[e|[]] w2] eqn:Hset;
      cbn [fst snd]; rewrite run_log.
    all: pose proof (perform_trace o (FsStat filepath) w0) as Ht;
      rewrite Hstat in Ht; cbn [fst snd] in Ht;
      pose proof (perform_trace o (CacheSet dto) w1) as Ht';
      rewrite Hset in Ht'; cbn [fst snd] in Ht'.
    + split_and!; [done| |].
      * eexists. cbn [fst snd record trace]. rewrite Ht', Ht. subst w0. cbn [record trace].
        rewrite <- !app_assoc. split; [done|]. by repeat constructor.
      * by intros e' m' w' [= <- <- <-].
    + split_and!; [done| |done].
      eexists. cbn [fst snd record trace]. rewrite Ht', Ht. subst w0. cbn [record trace].
      rewrite <- !app_assoc. split; [done|]. by repeat constructor.
Qed.

(** C8.  Once fetch and archive have succeeded, the write of the cache
    entry cannot abort the job.  Whatever happens to the write, nothing is
    thrown to the pipeline and no call of the write step reaches the user;
    when the write throws, its error goes to the error log and nowhere else;
    and the pipeline goes on from the state the write step left: its next
    call is the delivery of the archived reference to the requester. *)
Theorem cache_write_failure_not_fatal (m m1 : Mem) (w w1 : World)
  (uploadResult : string * Z) :
  run o (fetchAndArchive d chatId progressMsg videoData fmt label m) w = (m1, inr uploadResult, w1) ->
  fst (run o (cacheStep d videoData fmt label userId uploadResult m1) w1) = (m1, inr tt) /\
  (exists evs,
     trace (snd (run o (cacheStep d videoData fmt label userId uploadResult m1) w1)) = trace w1 ++ evs /\
     Forall (fun e => userFacing e = false) evs) /\
  (forall e m' w',
     run o (writeCacheEntry videoData fmt label (targetPath d videoData fmt label) uploadResult userId m1)
       (record (Ev (Log LevelLog ("📥 Попытка записи в БД кеш для: " +:+
                                   id videoData)) (inr tt)) w1) = (m', inl e, w') ->
     snd (run o (cacheStep d videoData fmt label userId uploadResult m1) w1) =
     record (Ev (Log LevelError ("❌ Ошибка сохранения в БД: " +:+ message e))
               (inr tt)) w') /\
  run o (pipeline d ctx chatId progressMsg videoData fmt label userId m) w =
    run o (deliverAndCleanUp d ctx chatId progressMsg videoData fmt label userId uploadResult m1)
      (snd (run o (cacheStep d videoData fmt label userId uploadResult m1) w1)) /\
  exists r rest,
    trace (snd (run o (pipeline d ctx chatId progressMsg videoData fmt label
                         userId m) w)) =
    trace (snd (run o (cacheStep d videoData fmt label userId uploadResult m1) w1)) ++
    Ev (deliveryCall d ctx videoData label (fst uploadResult)) r :: rest.
Proof.
  intros Hfa.
  destruct (run_cacheStep uploadResult m1 w1) as (Hret & Hevs & Hlog).
  assert (Hrun :
    run o (pipeline d ctx chatId progressMsg videoData fmt label userId m) w =
    run o (deliverAndCleanUp d ctx chatId progressMsg videoData fmt label userId uploadResult m1)
      (snd (run o (cacheStep d videoData fmt label userId uploadResult m1) w1))).
  { rewrite run_pipeline, Hfa.
    destruct (run o (cacheStep d videoData fmt label userId uploadResult m1) w1) as [[m2 r] w2].
    simpl in Hret. by injection Hret as -> ->. }
  split_and!; [done..|].
  rewrite Hrun.
  set (w2 := snd (run o (cacheStep d videoData fmt label userId uploadResult m1) w1)).
  unfold deliverAndCleanUp, deliver. rewrite run_mbind, run_await.
  set (call := deliveryCall d ctx videoData label (fst uploadResult)).
  pose proof (perform_trace o call w2) as Ht.
  destruct (perform o call w2) as [[e|msg] w3]; cbn [fst snd] in *.
  - exists (inl e), []. done.
  - match goal with |- context [run o ?s w3] =>
      destruct (run_trace o s w3) as [evs ->] end.
    rewrite Ht, <- app_assoc. by exists (inr msg), evs.
Qed.

End Job.

(** The theorem at work: the cache store rejects the write, the error is
    logged, and the reference of the archive is delivered all the same. *)
Lemma cache_write_failure_not_fatal_witness :
  let o := Fixtures.cacheDown in
  let job := pipeline Fixtures.deps Fixtures.user 5 Fixtures.sentMessage
               Fixtures.video "137" "720p" 42 in
  let archived :=
    run o (fetchAndArchive Fixtures.deps 5 Fixtures.sentMessage
             Fixtures.video "137" "720p" Fixtures.idle) Fixtures.emptyWorld in
  let written :=
    run o (cacheStep Fixtures.deps Fixtures.video "137" "720p" 42 ("ref123", 7)
             Fixtures.idle) (snd archived) in
  fst archived = (Fixtures.idle, inr ("ref123", 7)) /\
  last (trace (snd written)) =
    Some (Ev (Log LevelError "❌ Ошибка сохранения в БД: cache store unavailable")
            (inr tt)) /\
  exists r rest,
    trace (snd (run o (job Fixtures.idle) Fixtures.emptyWorld)) =
    trace (snd written) ++
    Ev (deliveryCall Fixtures.deps Fixtures.user Fixtures.video "720p" "ref123") r
    :: rest.
Proof.
  intros o job archived written.
  split; [vm_compute; reflexivity|]. split; [vm_compute; reflexivity|].
  apply (cache_write_failure_not_fatal Fixtures.deps o Fixtures.user 5
           Fixtures.sentMessage Fixtures.video "137" "720p" 42
           Fixtures.idle Fixtures.idle Fixtures.emptyWorld (snd archived)
           ("ref123", 7)).
  vm_compute. reflexivity.
Defined.

(** C7 fails on the code: the temporary file of a job whose archive step
    fails.  The fetch succeeds and writes the file; the upload to the
    archive channel throws; the [catch] block of [processDownload] reports
    the error to the user and returns.  The file is still there:
    [fs.unlink] is only reached at the end of the [try] block. *)
Lemma temp_file_left_after_failed_archive :
  let result :=
    run Fixtures.archiveDown
      (processDownload Fixtures.deps Fixtures.user Fixtures.video "137" "720p" 42
         Fixtures.idle) Fixtures.emptyWorld in
  fst result = (Fixtures.idle, inr tt) /\
  targetPath Fixtures.deps Fixtures.video "137" "720p" =
    "/tmp/bot_downloads/Clip_137.mp4" /\
  "/tmp/bot_downloads/Clip_137.mp4" ∈ files (snd result) /\
  last (trace (snd result)) =
    Some (Ev (ApiEditMessageText 5 7 "❌ Ошибка: Request Entity Too Large" None)
            (inr tt)).
Proof.
  intros result. split_and!; [vm_compute; reflexivity..| |vm_compute; reflexivity].
  apply (bool_decide_unpack _). vm_compute. exact I.
Qed.

(** For comparison, the job in which every step succeeds ends without the
    file. *)
Lemma temp_file_removed_after_delivery :
  let result :=
    run Fixtures.calm
      (processDownload Fixtures.deps Fixtures.user Fixtures.video "137" "720p" 42
         Fixtures.idle) Fixtures.emptyWorld in
  fst result = (Fixtures.idle, inr tt) /\
  "/tmp/bot_downloads/Clip_137.mp4" ∉ files (snd result).
Proof.
  intros result. split; [vm_compute; reflexivity|].
  intros Hin. apply (bool_decide_pack _) in Hin. vm_compute in Hin. exact Hin.
Qed.

End Pipeline.

(** * Selecting a quality: the result cache *)

Module Selection.
Import RunFacts DownloaderService SelectionSpec.

Section Select.
Context (d : Deps) (o : Oracle).
Context (ctx : Context) (userId : Z) (fmt label : string).

(** Calls answered by an outside party alone. *)
Lemma perform_delivery (videoData : VideoInfoDto) (fileRef : string) (w : World) :
  let c := deliveryCall d ctx videoData label fileRef in
  perform o c w =
  match fault o c with
  | Some e => (inl e, record (Ev c (inl e)) w)
  | None => (inr (reply o c), record (Ev c (inr (reply o c))) w)
  end.
Proof.
  unfold deliveryCall, perform, outcome, effect.
  destruct (String.eqb label "audio"); simpl; by destruct (fault o _).
Qed.

Lemma perform_answer (text : string) (w : World) :
  fault o (CtxAnswerCallbackQuery ctx text) = None ->
  perform o (CtxAnswerCallbackQuery ctx text) w =
  (inr tt, record (Ev (CtxAnswerCallbackQuery ctx text) (inr tt)) w).
Proof. intros Hf. unfold perform, outcome. simpl. by rewrite Hf. Qed.

Lemma perform_cacheGet (fp : CacheService.Fingerprint) (w : World) :
  fault o (CacheGet fp) = None ->
  perform o (CacheGet fp) w =
  (inr (cacheTable w !! fp), record (Ev (CacheGet fp) (inr (cacheTable w !! fp))) w).
Proof. intros Hf. unfold perform, outcome. cbn [infallible]. by rewrite Hf. Qed.


(** A task for the key is in flight: the user is told to wait and nothing
    is registered. *)
Lemma run_startDownload_busy (videoData : VideoInfoDto) (m : Mem) (w : World)
  (job : Job) :
  activeDownloads m !! downloadKey videoData fmt = Some job ->
  fault o (CtxAnswerCallbackQuery ctx "⏳ Уже скачивается, ждите...") = None ->
  run o (startDownload d ctx videoData fmt label userId m) w =
  (m, inr tt,
   record (Ev (CtxAnswerCallbackQuery ctx "⏳ Уже скачивается, ждите...") (inr tt)) w).
Proof.
  intros Hkey Hf. unfold startDownload.
  rewrite run_bind, run_getMem, Hkey, run_await.
  by rewrite perform_answer.
Qed.

(** With room in the queue, registration starts the task and records the
    key. *)
Lemma register_starts (job : Job) (m : Mem) :
  (QueueService.running (queue m) < maxParallel d)%nat ->
  started (register d job m) = started m ++ [job] /\
  activeDownloads (register d job m) !! downloadKey (jobVideo job) (jobFormatId job)
    = Some job.
Proof.
  intros Hroom. unfold register, QueueService.add.
  destruct (Nat.ltb_spec (QueueService.running (queue m)) (maxParallel d)); [|lia].
  simpl. split; [done|]. apply lookup_insert_eq.
Qed.

(** A session held in the in-process map is used as it is: the session
    table is not read, and no expiry is checked. *)
Lemma run_sessionData_known (videoId : string) (videoData : VideoInfoDto)
  (m : Mem) (w : World) :
  videoDataCache m !! videoId = Some videoData ->
  run o (sessionData videoId m) w = (m, inr (Some videoData), w).
Proof.
  intros Hknown. unfold sessionData. by rewrite run_bind, run_getMem, Hknown.
Qed.

(** A session that only the table holds, and that has not expired, is read
    from the table and put into the in-process map. *)
Lemma run_sessionData_stored (videoId : string) (session : Prisma.VideoSession)
  (m : Mem) (w : World) :
  videoDataCache m !! videoId = None ->
  fault o (PrismaFindUnique videoId) = None ->
  videoSessions w !! videoId = Some session ->
  clock w <= Prisma.expiresAt session ->
  fst (run o (sessionData videoId m) w) =
    (setVideoDataCache (insert videoId (VideoSessionService.infoOf session)) m,
     inr (Some (VideoSessionService.infoOf session))).
Proof.
  intros Hunknown Hf Hrow Hlive. unfold sessionData.
  rewrite run_bind, run_getMem, Hunknown, run_bind.
  destruct (SessionStore.run_get_live o videoId m w session Hf Hrow Hlive)
    as [Hget _].
  destruct (run o (VideoSessionService.get videoId m) w) as [[m' r] w'].
  simpl in Hget. by injection Hget as -> ->.
Qed.

(** The method after the session was found: the cache lookup and what
    follows it. *)
Lemma run_handleQualitySelection (chatId : Z) (videoId : string)
  (videoData : VideoInfoDto) (m m1 : Mem) (w w1 : World) :
  chat ctx = Some chatId -> from ctx = Some userId ->
  run o (sessionData videoId m) w = (m1, inr (Some videoData), w1) ->
  run o (handleQualitySelection d ctx videoId fmt label m) w =
  run o ((cached <- await (CacheGet (id videoData, fmt, label));;
          served <-
            match cached with
            | Some entry => serveFromCache d ctx videoData label userId entry
            | None => mret false
            end;;
          if served : bool then mret tt
          else startDownload d ctx videoData fmt label userId) m1) w1.
Proof.
  intros Hchat Hfrom Hsession. unfold handleQualitySelection.
  by rewrite Hchat, Hfrom, run_bind, Hsession.
Qed.


End Select.

(** A key in flight at work: the second requester is told to wait. *)
Lemma run_startDownload_busy_witness :
  let busy :=
    register Fixtures.deps (jobOf Fixtures.user 42 "137" "720p" Fixtures.video)
      Fixtures.withSession in
  run Fixtures.calm
    (startDownload Fixtures.deps Fixtures.otherUser Fixtures.video "137" "720p" 43
       busy) Fixtures.emptyWorld =
  (busy, inr tt,
   record (Ev (CtxAnswerCallbackQuery Fixtures.otherUser
                 "⏳ Уже скачивается, ждите...") (inr tt)) Fixtures.emptyWorld).
Proof.
  intros busy.
  apply (run_startDownload_busy Fixtures.deps Fixtures.calm Fixtures.otherUser 43
           "137" "720p" Fixtures.video busy Fixtures.emptyWorld
           (jobOf Fixtures.user 42 "137" "720p" Fixtures.video)); reflexivity.
Defined.


(** The [try] block of the cache branch also covers the accounting that
    follows the delivery: when the download counter fails, the cached file
    has been delivered and the job for a fetch is registered all the same. *)
Lemma accounting_failure_starts_download :
  let result :=
    run Fixtures.accountingDown
      (handleQualitySelection Fixtures.deps Fixtures.user "s1" "137" "720p"
         Fixtures.withSession) Fixtures.cachedWorld in
  fst result =
    (register Fixtures.deps (jobOf Fixtures.user 42 "137" "720p" Fixtures.video)
       Fixtures.withSession, inr tt) /\
  Ev (deliveryCall Fixtures.deps Fixtures.user Fixtures.video "720p" "ref123")
     (inr Fixtures.sentMessage) ∈ trace (snd result).
Proof.
  intros result. split; [vm_compute; reflexivity|].
  vm_compute. do 3 right. left.
Qed.

End Selection.

(** * Two selections of the same format *)

Module Dedup.
Import Scheduler DedupSpec.

(** C2 fails on the code.  The two handlers take turns.  Each finds no
    cache entry and no key in [activeDownloads], and awaits the answer to
    its callback query; then each adds its task to the queue and sets the
    key.  The queue, with room
    for three, starts both tasks, and both reach the invocation of the
    fetcher: two fetches for the key are in flight, and neither user was
    told to wait. *)
Lemma two_fetches_in_flight :
  let reached :=
    schedule Fixtures.deps Fixtures.calm [0; 0; 0; 0; 0; 0]%nat bothArrived in
  (fetchesInFlight "vid|137" <$> reached) = Some 2%nat /\
  (answersGiven <$> reached) =
    Some [(Fixtures.user, "⬇️ Добавлено в очередь...");
          (Fixtures.otherUser, "⬇️ Добавлено в очередь...")].
Proof. intros reached. split; vm_compute; reflexivity. Qed.

(** For comparison: when the first handler has registered its task before
    the second update arrives, the second user is told to wait and one
    fetch is in flight. *)
Lemma second_selection_waits :
  let reached :=
    sys ← schedule Fixtures.deps Fixtures.calm [0; 0]%nat
            (arrive Fixtures.deps Fixtures.calm (select Fixtures.user) quiet);
    schedule Fixtures.deps Fixtures.calm [1; 0; 0]%nat
      (arrive Fixtures.deps Fixtures.calm (select Fixtures.otherUser) sys) in
  (fetchesInFlight "vid|137" <$> reached) = Some 1%nat /\
  (answersGiven <$> reached) =
    Some [(Fixtures.user, "⬇️ Добавлено в очередь...");
          (Fixtures.otherUser, "⏳ Уже скачивается, ждите...")].
Proof. intros reached. split; vm_compute; reflexivity. Qed.

End Dedup.

(** * Presenting the choices *)

Module Presentation.
Import RunFacts DownloaderService PresentationSpec.

Lemma inRange_spec (format : FormatDto) :
  inRange format = true <->
  resolution format <> "audio" /\
  exists h, Js.parseInt (resolution format) = Some h /\ 360 <= h <= 1080.
Proof.
  unfold inRange, isAudioLabel, MIN_RESOLUTION, MAX_RESOLUTION.
  destruct (String.eqb_spec (resolution format) "audio") as [Heq|Hne].
  - split; [done|]. by intros [? _].
  - destruct (Js.parseInt (resolution format)) as [h|].
    + rewrite andb_true_iff, !Z.leb_le. split.
      * intros ?. split; [done|]. by exists h.
      * intros (_ & h' & [= <-] & ?). done.
    + split; [done|]. by intros (_ & h & ? & _).
Qed.

Lemma videoFormatsOf_elem (allFormats : list FormatDto) (format : FormatDto) :
  format ∈ videoFormatsOf allFormats ->
  format ∈ allFormats /\ inRange format = true.
Proof.
  unfold videoFormatsOf. rewrite JsFacts.sort_perm.
  rewrite list_elem_of_In, filter_In, <- list_elem_of_In. done.
Qed.

Lemma audioFormat_spec (allFormats : list FormatDto) (a : FormatDto) :
  audioFormat allFormats = Some a ->
  a ∈ allFormats /\ resolution a = "audio".
Proof.
  intros Hfind. apply find_some in Hfind as [Hin Heq].
  split; [by apply list_elem_of_In|]. by apply String.eqb_eq.
Qed.

Lemma imap_data (sessionId : string) (visible : list FormatDto) :
  forall g : nat -> FormatDto -> Button,
    (forall i f, callbackData (g i f) =
       "dl|" +:+ sessionId +:+ "|" +:+ formatId f +:+ "|" +:+ resolution f) ->
    map callbackData (imap g visible) =
    map (fun f => "dl|" +:+ sessionId +:+ "|" +:+ formatId f +:+ "|" +:+ resolution f)
      visible.
Proof.
  induction visible as [|f rest IH]; intros g Hg; [done|].
  simpl. rewrite Hg. f_equal. apply IH. intros i f'. apply Hg.
Qed.

(** The buttons stand for the visible formats, one each, in order. *)
Lemma keyboardFor_data (d : Deps) (sessionId : string) (visible : list FormatDto) :
  map callbackData (keyboardFor d sessionId visible) =
  map (fun f => "dl|" +:+ sessionId +:+ "|" +:+ formatId f +:+ "|" +:+ resolution f)
    visible.
Proof. apply imap_data. done. Qed.

Section Offer.
Context (d : Deps) (o : Oracle).
Context (ctx : Context) (chatId : Z) (progressMsg : Message).
Context (sessionId : string) (videoInfo : VideoInfoDto).

(** The events of [offerChoices] and the keyboards among them. *)
Lemma run_offerChoices (m : Mem) (w : World) :
  exists evs,
    trace (snd (run o (offerChoices d ctx chatId progressMsg sessionId videoInfo m) w))
      = trace w ++ evs /\
    Forall (fun e => forall kb, offered e = Some kb ->
                       visibleFormats (formats videoInfo) <> [] /\
                       kb = keyboardFor d sessionId
                              (visibleFormats (formats videoInfo))) evs /\
    (visibleFormats (formats videoInfo) = [] ->
     exists r,
       evs = [Ev (CtxReply ctx "Доступные качества слишком низкие или отсутствуют.") r]).
Proof.
  unfold offerChoices. set (visible := visibleFormats (formats videoInfo)).
  pose (keyboard := keyboardFor d sessionId visible).
  destruct visible as [|v0 rest] eqn:Hvis.
  - rewrite run_mbind, run_await.
    set (c := CtxReply ctx _). pose proof (perform_trace o c w) as Ht.
    exists [Ev c (fst (perform o c w))].
    split_and!.
    + by destruct (perform o c w) as [[e|msg] w'].
    + by repeat constructor.
    + eauto.
  - fold keyboard. set (caption := formatVideoCaption d videoInfo).
    set (edit := ApiEditMessageText chatId (message_id progressMsg) caption
                   (Some keyboard)).
    assert (Hedit : forall w0, exists evs,
      trace (snd (run o (await edit m) w0)) = trace w0 ++ evs /\
      Forall (fun e => forall kb, offered e = Some kb ->
                         v0 :: rest <> [] /\ kb = keyboard) evs).
    { intros w0. rewrite run_await. cbn [snd].
      rewrite perform_trace. eexists. split; [done|].
      constructor; [|constructor]. by intros kb [= <-]. }
    destruct (negb (String.eqb (thumbnail videoInfo) "")).
    2:{ destruct (Hedit w) as (evs & Ht & Hall). exists evs. by split_and!. }
    rewrite run_tryCatch, run_mbind, run_swallow, run_await. cbn [fst snd].
    set (del := ApiDeleteMessage chatId (message_id progressMsg)).
    pose proof (perform_trace o del w) as Htd.
    set (w1 := snd (perform o del w)) in *.
    rewrite run_mbind, run_await.
    set (photo := CtxReplyWithPhoto ctx (thumbnail videoInfo) caption keyboard).
    pose proof (perform_trace o photo w1) as Htp.
    destruct (perform o photo w1) as [[e|msg] w2]; cbn [fst snd] in *.
    + rewrite run_mbind, run_log.
      match goal with |- context [run o (await edit m) ?w0] =>
        destruct (Hedit w0) as (evs & Ht & Hall) end.
      eexists. split; [|split; [|done]].
      * rewrite Ht. cbn [record trace]. rewrite Htp, Htd.
        rewrite <- !app_assoc. done.
      * repeat (constructor; [by intros kb; (intros [= <-] || intros [=])|]).
        done.
    + eexists. split; [|split; [|done]].
      * rewrite run_ret. cbn [snd]. rewrite Htp, Htd. rewrite <- !app_assoc. done.
      * repeat (constructor; [by intros kb; (intros [= <-] || intros [=])|]).
        constructor.
Qed.

End Offer.



(** C10.  The choice list of [handleUrl] consists of video candidates
    followed by at most one audio entry.  Every video candidate on it is one
    of the resolved candidates, is not labelled audio, and its label reads
    as a height between 360 and 1080 inclusive; the audio entry, if any, is
    a resolved candidate labelled audio.  The buttons shown stand for the
    entries of this list, one each.  Whatever the chat platform does, a
    keyboard is only ever shown for a non-empty list, and it is the keyboard
    of this list; for the empty list the only call is the reply with the
    no-usable-quality message, so no selection is offered.  Where the
    candidates come from the resolver, the height read from the label is
    the height of the candidate, although the resolver itself keeps
    candidates from 144 up. *)
Theorem presented_choices (d : Deps) (o : Oracle) (ctx : Context) (chatId : Z)
  (progressMsg : Message) (sessionId : string) (videoInfo : VideoInfoDto)
  (m : Mem) (w : World) :
  let visible := visibleFormats (formats videoInfo) in
  (exists videos tail,
     visible = videos ++ tail /\
     Forall (fun f => f ∈ formats videoInfo /\ resolution f <> "audio" /\
                      exists h, Js.parseInt (resolution f) = Some h /\
                                360 <= h <= 1080) videos /\
     (tail = [] \/
      exists a, tail = [a] /\ a ∈ formats videoInfo /\ resolution a = "audio")) /\
  map callbackData (keyboardFor d sessionId visible) =
    map (fun f => "dl|" +:+ sessionId +:+ "|" +:+ formatId f +:+ "|" +:+ resolution f)
      visible /\
  (exists evs,
     trace (snd (run o (offerChoices d ctx chatId progressMsg sessionId videoInfo m) w))
       = trace w ++ evs /\
     Forall (fun e => forall kb, offered e = Some kb ->
                        visible <> [] /\ kb = keyboardFor d sessionId visible) evs /\
     (visible = [] ->
      exists r,
        evs = [Ev (CtxReply ctx "Доступные качества слишком низкие или отсутствуют.") r])) /\
  (forall raw f,
     formats videoInfo = YtdlpService.getBestFormats raw -> f ∈ visible ->
     resolution f = "audio" \/ 360 <= quality f <= 1080).
Proof.
  intros visible. split_and!.
  - exists (videoFormatsOf (formats videoInfo)),
      (option_list (audioFormat (formats videoInfo))).
    split_and!; [done| |].
    + apply Forall_forall. intros f [Hin Hr%inRange_spec]%videoFormatsOf_elem.
      by split.
    + destruct (audioFormat (formats videoInfo)) as [a|] eqn:Ha; [|by left].
      right. exists a. apply audioFormat_spec in Ha as [? ?]. by split_and!.
  - apply keyboardFor_data.
  - apply run_offerChoices.
  - intros raw f Hraw Hf. subst visible. unfold visibleFormats in Hf.
    apply elem_of_app in Hf as [Hf|Hf].
    + apply videoFormatsOf_elem in Hf as [Hin Hr%inRange_spec].
      destruct Hr as (Hna & h & Hh & Hrange).
      rewrite Hraw in Hin.
      apply Resolver.getBestFormats_elem in Hin as [(g & _ & _ & H144 & ->)|(g & _ & ->)].
      * right. simpl in *. rewrite Labels.parseInt_label in Hh by lia.
        by injection Hh as <-.
      * by left.
    + left. destruct (audioFormat (formats videoInfo)) as [a|] eqn:Ha;
        [|by apply elem_of_nil in Hf].
      apply list_elem_of_singleton in Hf as ->. by apply audioFormat_spec in Ha as [_ ?].
Qed.

(** The theorem at work.  The resolver keeps 2160p, 720p, 240p and 144p and
    the audio entry; the list shown is 720p and audio. *)
Lemma presented_choices_witness :
  map resolution (formats sampleInfo) = ["2160p"; "720p"; "240p"; "144p"; "audio"] /\
  map resolution (visibleFormats (formats sampleInfo)) = ["720p"; "audio"] /\
  Forall (fun f => resolution f = "audio" \/ 360 <= quality f <= 1080)
    (visibleFormats (formats sampleInfo)).
Proof.
  split; [reflexivity|]. split; [reflexivity|].
  apply Forall_forall. intros f Hf.
  eapply (presented_choices Fixtures.deps Fixtures.calm Fixtures.user 5
            Fixtures.sentMessage "00ff" sampleInfo Fixtures.idle
            Fixtures.emptyWorld); [reflexivity|exact Hf].
Defined.

End Presentation.

(** * Flows as a whole: memory, errors, and what a call can change *)

Module FlowFacts.
Import RunFacts FlowSpec.

Lemma run_eta {A} (o : Oracle) (s : step A) (w : World) :
  run o s w = (fst (fst (run o s w)), snd (fst (run o s w)), snd (run o s w)).
Proof. by destruct (run o s w) as [[m r] w']. Qed.

(** ** The memory *)

Lemma keepsMem_ret {A} (a : A) : keepsMem (mret a : M A).
Proof. by intros o m w. Qed.

Lemma keepsMem_throw {A} (e : Error) : keepsMem (throw (A:=A) e).
Proof. by intros o m w. Qed.

Lemma keepsMem_await {T} (c : call T) : keepsMem (await c).
Proof. by intros o m w. Qed.

Lemma keepsMem_sync {T} (c : call T) : keepsMem (sync c).
Proof. by intros o m w. Qed.

Lemma keepsMem_log (level : LogLevel) (text : string) : keepsMem (log level text).
Proof. by intros o m w. Qed.

Lemma keepsMem_getMem : keepsMem getMem.
Proof. by intros o m w. Qed.

Lemma keepsMem_bind {A B} (x : M A) (f : A -> M B) :
  keepsMem x -> (forall a, keepsMem (f a)) -> keepsMem (bind x f).
Proof.
  intros Hx Hf o m w. rewrite run_bind. specialize (Hx o m w).
  destruct (run o (x m) w) as [[m' [e|a]] w']; simpl in *; [done|].
  subst m'. apply Hf.
Qed.

Lemma keepsMem_mbind {A B} (x : M A) (f : A -> M B) :
  keepsMem x -> (forall a, keepsMem (f a)) -> keepsMem (x ≫= f).
Proof. apply keepsMem_bind. Qed.

Lemma keepsMem_tryCatch {A} (body : M A) (h : Error -> M A) :
  keepsMem body -> (forall e, keepsMem (h e)) -> keepsMem (tryCatch body h).
Proof.
  intros Hx Hh o m w. rewrite run_tryCatch. specialize (Hx o m w).
  destruct (run o (body m) w) as [[m' [e|a]] w']; simpl in *; [|done].
  subst m'. apply Hh.
Qed.

Lemma keepsMem_swallow {A} (body : M A) : keepsMem body -> keepsMem (swallow body).
Proof. intros Hx o m w. rewrite run_swallow. apply Hx. Qed.

(** ** Errors *)

Lemma neverThrows_ret {A} (a : A) : neverThrows (mret a : M A).
Proof. intros o m w. by exists a. Qed.

Lemma neverThrows_log (level : LogLevel) (text : string) :
  neverThrows (log level text).
Proof. intros o m w. by exists tt. Qed.

Lemma neverThrows_infallible {T} (c : call T) :
  infallible c = true -> neverThrows (sync c).
Proof.
  intros Hi o m w. rewrite run_sync. unfold perform, outcome, effect.
  rewrite Hi. destruct c; try done; simpl; eauto.
Qed.

Lemma neverThrows_swallow {A} (body : M A) : neverThrows (swallow body).
Proof. intros o m w. rewrite run_swallow. by exists tt. Qed.

Lemma neverThrows_bind {A B} (x : M A) (f : A -> M B) :
  neverThrows x -> (forall a, neverThrows (f a)) -> neverThrows (bind x f).
Proof.
  intros Hx Hf o m w. rewrite run_bind. destruct (Hx o m w) as [a Ha].
  destruct (run o (x m) w) as [[m' [e|a']] w']; simpl in *; [done|]. apply Hf.
Qed.

Lemma neverThrows_mbind {A B} (x : M A) (f : A -> M B) :
  neverThrows x -> (forall a, neverThrows (f a)) -> neverThrows (x ≫= f).
Proof. apply neverThrows_bind. Qed.

Lemma neverThrows_tryCatch {A} (body : M A) (h : Error -> M A) :
  (forall e, neverThrows (h e)) -> neverThrows (tryCatch body h).
Proof.
  intros Hh o m w. rewrite run_tryCatch.
  destruct (run o (body m) w) as [[m' [e|a]] w']; simpl; [apply Hh|eauto].
Qed.

(** ** What one call can change outside the process *)

Section Frames.
Context (o : Oracle).

Lemma perform_clock {T} (c : call T) (w : World) :
  clock (snd (perform o c w)) = clock w.
Proof.
  unfold perform, outcome, effect. cbn [snd record clock].
  destruct (if infallible c then None else fault o c); [done|].
  destruct c; simpl; unfold unlinkFile, sessionCreate, sessionDelete;
    repeat case_match; done.
Qed.

Lemma perform_sessions {T} (c : call T) (w : World) :
  writesSessions c = false ->
  videoSessions (snd (perform o c w)) = videoSessions w.
Proof.
  intros Hc. unfold perform, outcome, effect. cbn [snd record videoSessions].
  destruct (if infallible c then None else fault o c); [done|].
  destruct c; try done; simpl; unfold unlinkFile; repeat case_match; done.
Qed.

Lemma perform_files {T} (c : call T) (w : World) :
  writesFiles c = false -> files (snd (perform o c w)) = files w.
Proof.
  intros Hc. unfold perform, outcome, effect. cbn [snd record files].
  destruct (if infallible c then None else fault o c); [done|].
  destruct c; try done; simpl; unfold sessionCreate, sessionDelete;
    repeat case_match; done.
Qed.

Lemma perform_cache {T} (c : call T) (w : World) :
  writesCache c = false -> cacheTable (snd (perform o c w)) = cacheTable w.
Proof.
  intros Hc. unfold perform, outcome, effect. cbn [snd record cacheTable].
  destruct (if infallible c then None else fault o c); [done|].
  destruct c; try done; simpl; unfold unlinkFile, sessionCreate, sessionDelete;
    repeat case_match; done.
Qed.

Lemma perform_state {T} (c : call T) (w : World) :
  writes c = false -> stateOf (snd (perform o c w)) = stateOf w.
Proof.
  unfold writes. intros [[H1 H2]%orb_false_elim H3]%orb_false_elim.
  unfold stateOf.
  by rewrite perform_sessions, perform_cache, perform_files, perform_clock.
Qed.

Lemma stateOf_record (e : Event) (w : World) : stateOf (record e w) = stateOf w.
Proof. done. Qed.

Lemma stateOf_eq (w1 w2 : World) :
  stateOf w1 = stateOf w2 ->
  videoSessions w1 = videoSessions w2 /\ cacheTable w1 = cacheTable w2 /\
  files w1 = files w2 /\ clock w1 = clock w2.
Proof. unfold stateOf. by intros [= -> -> -> ->]. Qed.

(** A call that fails changes nothing but the trace. *)
Lemma perform_failed {T} (c : call T) (w : World) (e : Error) :
  fst (perform o c w) = inl e ->
  snd (perform o c w) = record (Ev c (inl e)) w.
Proof.
  unfold perform, outcome, effect. cbn [fst snd].
  destruct (if infallible c then None else fault o c); [by intros [= ->]|].
  destruct c; simpl; unfold unlinkFile, sessionCreate, sessionDelete;
    repeat case_match; simpl; try done; by intros [= ->].
Qed.

End Frames.

(** ** The state outside the process *)

Lemma keepsState_ret {A} (a : A) : keepsState (mret a : M A).
Proof. by intros o m w. Qed.

Lemma keepsState_throw {A} (e : Error) : keepsState (throw (A:=A) e).
Proof. by intros o m w. Qed.

Lemma keepsState_getMem : keepsState getMem.
Proof. by intros o m w. Qed.

Lemma keepsState_await {T} (c : call T) : writes c = false -> keepsState (await c).
Proof. intros Hc o m w. rewrite run_await. cbn [snd]. by apply perform_state. Qed.

Lemma keepsState_sync {T} (c : call T) : writes c = false -> keepsState (sync c).
Proof. intros Hc o m w. rewrite run_sync. cbn [snd]. by apply perform_state. Qed.

Lemma keepsState_log (level : LogLevel) (text : string) :
  keepsState (log level text).
Proof. by intros o m w. Qed.

Lemma keepsState_bind {A B} (x : M A) (f : A -> M B) :
  keepsState x -> (forall a, keepsState (f a)) -> keepsState (bind x f).
Proof.
  intros Hx Hf o m w. rewrite run_bind. specialize (Hx o m w).
  destruct (run o (x m) w) as [[m' [e|a]] w']; simpl in *; [done|].
  by rewrite Hf.
Qed.

Lemma keepsState_mbind {A B} (x : M A) (f : A -> M B) :
  keepsState x -> (forall a, keepsState (f a)) -> keepsState (x ≫= f).
Proof. apply keepsState_bind. Qed.

Lemma keepsState_tryCatch {A} (body : M A) (h : Error -> M A) :
  keepsState body -> (forall e, keepsState (h e)) -> keepsState (tryCatch body h).
Proof.
  intros Hx Hh o m w. rewrite run_tryCatch. specialize (Hx o m w).
  destruct (run o (body m) w) as [[m' [e|a]] w']; simpl in *; [|done].
  by rewrite Hh.
Qed.

Lemma keepsState_swallow {A} (body : M A) :
  keepsState body -> keepsState (swallow body).
Proof. intros Hx o m w. rewrite run_swallow. apply Hx. Qed.

(** ** The calls of a flow *)

Section Calls.
Context (P : forall T, call T -> Prop).

Lemma callsOnly_bindStep {A B} (s : step A) (f : A -> M B) :
  callsOnly P s -> (forall a, makesOnly P (f a)) -> callsOnly P (bindStep s f).
Proof.
  intros Hs Hf. induction Hs as [m [e|a]|T aw c m k Hc _ IH]; simpl.
  - constructor.
  - apply Hf.
  - constructor; [done|]. intros r m'. apply IH.
Qed.

Lemma makesOnly_bind {A B} (x : M A) (f : A -> M B) :
  makesOnly P x -> (forall a, makesOnly P (f a)) -> makesOnly P (bind x f).
Proof. intros Hx Hf m. by apply callsOnly_bindStep. Qed.

Lemma makesOnly_mbind {A B} (x : M A) (f : A -> M B) :
  makesOnly P x -> (forall a, makesOnly P (f a)) -> makesOnly P (x ≫= f).
Proof. apply makesOnly_bind. Qed.

Lemma callsOnly_catchStep {A} (s : step A) (h : Error -> M A) :
  callsOnly P s -> (forall e, makesOnly P (h e)) -> callsOnly P (catchStep s h).
Proof.
  intros Hs Hh. induction Hs as [m [e|a]|T aw c m k Hc _ IH]; simpl.
  - apply Hh.
  - constructor.
  - constructor; [done|]. intros r m'. apply IH.
Qed.

Lemma makesOnly_tryCatch {A} (body : M A) (h : Error -> M A) :
  makesOnly P body -> (forall e, makesOnly P (h e)) ->
  makesOnly P (tryCatch body h).
Proof. intros Hx Hh m. by apply callsOnly_catchStep. Qed.

Lemma makesOnly_ret {A} (a : A) : makesOnly P (mret a : M A).
Proof. intros m. constructor. Qed.

Lemma makesOnly_throw {A} (e : Error) : makesOnly P (throw (A:=A) e).
Proof. intros m. constructor. Qed.

Lemma makesOnly_getMem : makesOnly P getMem.
Proof. intros m. constructor. Qed.

Lemma makesOnly_modifyMem (f : Mem -> Mem) : makesOnly P (modifyMem f).
Proof. intros m. constructor. Qed.

Lemma makesOnly_await {T} (c : call T) : P T c -> makesOnly P (await c).
Proof. intros Hc m. constructor; [done|]. intros r m'. constructor. Qed.

Lemma makesOnly_sync {T} (c : call T) : P T c -> makesOnly P (sync c).
Proof. intros Hc m. constructor; [done|]. intros r m'. constructor. Qed.

Lemma makesOnly_log (level : LogLevel) (text : string) :
  P unit (Log level text) -> makesOnly P (log level text).
Proof. apply makesOnly_sync. Qed.

Lemma makesOnly_swallow {A} (body : M A) :
  makesOnly P body -> makesOnly P (swallow body).
Proof.
  intros Hx. apply makesOnly_tryCatch.
  - apply makesOnly_mbind; [done|]. intros _. apply makesOnly_ret.
  - intros e. apply makesOnly_ret.
Qed.

(** The events a flow adds to the trace are calls it can make. *)
Lemma callsOnly_run {A} (o : Oracle) (s : step A) (w : World) :
  callsOnly P s ->
  exists evs, trace (snd (run o s w)) = trace w ++ evs /\ eventsOnly P evs.
Proof.
  intros Hs. revert w. induction Hs as [m r|T aw c m k Hc _ IH]; intros w.
  - exists []. split; [by rewrite app_nil_r|constructor].
  - cbn [run].
    destruct (IH (fst (perform o c w)) m (snd (perform o c w))) as (evs & -> & Hevs).
    rewrite perform_trace, <- app_assoc. eexists. split; [done|].
    constructor; done.
Qed.

End Calls.

Lemma callsOnly_impl (P Q : forall T, call T -> Prop) {A} (s : step A) :
  (forall T c, P T c -> Q T c) -> callsOnly P s -> callsOnly Q s.
Proof.
  intros HPQ Hs. induction Hs as [m r|T aw c m k Hc _ IH]; constructor; auto.
Qed.

(** A part of the state that none of the calls of a flow changes is left
    as it is by the flow. *)
Lemma callsOnly_frame {S A} (part : World -> S) (P : forall T, call T -> Prop)
  (o : Oracle) (s : step A) (w : World) :
  (forall T (c : call T) w', P T c -> part (snd (perform o c w')) = part w') ->
  callsOnly P s -> part (snd (run o s w)) = part w.
Proof.
  intros HP Hs. revert w.
  induction Hs as [m r|T aw c m k Hc _ IH]; intros w; [done|].
  cbn [run]. rewrite IH. by apply HP.
Qed.

Lemma callsOnly_state {A} (o : Oracle) (s : step A) (w : World) :
  callsOnly (fun T c => writes c = false) s ->
  stateOf (snd (run o s w)) = stateOf w.
Proof. apply callsOnly_frame. intros T c w'. apply perform_state. Qed.

Lemma callsOnly_sessions {A} (o : Oracle) (s : step A) (w : World) :
  callsOnly (fun T c => writesSessions c = false) s ->
  videoSessions (snd (run o s w)) = videoSessions w.
Proof. apply callsOnly_frame. intros T c w'. apply perform_sessions. Qed.

Lemma callsOnly_files {A} (o : Oracle) (s : step A) (w : World) :
  callsOnly (fun T c => writesFiles c = false) s ->
  files (snd (run o s w)) = files w.
Proof. apply callsOnly_frame. intros T c w'. apply perform_files. Qed.

Lemma callsOnly_cache {A} (o : Oracle) (s : step A) (w : World) :
  callsOnly (fun T c => writesCache c = false) s ->
  cacheTable (snd (run o s w)) = cacheTable w.
Proof. apply callsOnly_frame. intros T c w'. apply perform_cache. Qed.

End FlowFacts.

(** Goals of the three kinds, by the structure of the flow. *)
Ltac makes_only :=
  repeat first
    [ apply FlowFacts.makesOnly_mbind | apply FlowFacts.makesOnly_bind
    | apply FlowFacts.makesOnly_tryCatch | apply FlowFacts.makesOnly_swallow
    | apply FlowFacts.makesOnly_ret | apply FlowFacts.makesOnly_throw
    | apply FlowFacts.makesOnly_getMem | apply FlowFacts.makesOnly_modifyMem
    | apply FlowFacts.makesOnly_log; reflexivity
    | apply FlowFacts.makesOnly_await; reflexivity
    | apply FlowFacts.makesOnly_sync; reflexivity
    | match goal with |- forall _, _ => intros ? end
    | progress case_match ].

Ltac keeps_mem :=
  repeat first
    [ apply FlowFacts.keepsMem_mbind | apply FlowFacts.keepsMem_bind
    | apply FlowFacts.keepsMem_tryCatch | apply FlowFacts.keepsMem_swallow
    | apply FlowFacts.keepsMem_ret | apply FlowFacts.keepsMem_throw
    | apply FlowFacts.keepsMem_await | apply FlowFacts.keepsMem_sync
    | apply FlowFacts.keepsMem_log | apply FlowFacts.keepsMem_getMem
    | match goal with |- forall _, _ => intros ? end
    | progress case_match ].

Ltac keeps_state :=
  repeat first
    [ apply FlowFacts.keepsState_mbind | apply FlowFacts.keepsState_bind
    | apply FlowFacts.keepsState_tryCatch | apply FlowFacts.keepsState_swallow
    | apply FlowFacts.keepsState_ret | apply FlowFacts.keepsState_throw
    | apply FlowFacts.keepsState_log | apply FlowFacts.keepsState_getMem
    | apply FlowFacts.keepsState_await; reflexivity
    | apply FlowFacts.keepsState_sync; reflexivity
    | match goal with |- forall _, _ => intros ? end
    | progress case_match ].

(** * Strings *)

Module StringFacts.

Lemma app_cons (c : ascii) (s t : string) : String c s +:+ t = String c (s +:+ t).
Proof. reflexivity. Qed.

Lemma app_nil_l (s : string) : "" +:+ s = s.
Proof. reflexivity. Qed.

Lemma app_nil_r (s : string) : s +:+ "" = s.
Proof. induction s as [|c s IH]; [done|]. by rewrite app_cons, IH. Qed.

Lemma app_assoc (s t u : string) : (s +:+ t) +:+ u = s +:+ (t +:+ u).
Proof. induction s as [|c s IH]; [done|]. by rewrite !app_cons, IH. Qed.

Lemma length_app (s t : string) :
  String.length (s +:+ t) = (String.length s + String.length t)%nat.
Proof. induction s as [|c s IH]; [done|]. rewrite app_cons. simpl. by rewrite IH. Qed.

Lemma length_zero (s : string) : String.length s = 0%nat -> s = "".
Proof. by destruct s. Qed.

Lemma app_inv_tail (s t u : string) : s +:+ u = t +:+ u -> s = t.
Proof.
  revert t. induction s as [|c s IH]; intros [|c' t] H.
  - done.
  - apply (f_equal String.length) in H. rewrite !length_app in H. simpl in H. lia.
  - apply (f_equal String.length) in H. rewrite !length_app in H. simpl in H. lia.
  - rewrite !app_cons in H. injection H as -> H. f_equal. by apply IH.
Qed.

End StringFacts.

(** * The file names of the fetcher *)

Module PathFacts.
Import StringFacts PathSpec.

Lemma not_media_ext (c : ascii) (t e : string) :
  e ∈ mediaExts -> String c (t +:+ e) ∉ mediaExts.
Proof.
  intros He Hin. unfold mediaExts in *.
  assert (4 <= String.length e)%nat as Hlen.
  { repeat (apply elem_of_cons in He as [->|He]; [simpl; lia|]).
    by apply elem_of_nil in He. }
  repeat (apply elem_of_cons in Hin as [Hin|Hin]);
    [| | |by apply elem_of_nil in Hin].
  1,2: apply (f_equal String.length) in Hin; simpl in Hin;
       rewrite length_app in Hin; lia.
  injection Hin as -> Hin.
  pose proof (f_equal String.length Hin) as Hl. rewrite length_app in Hl.
  simpl in Hl. assert (String.length t = 0%nat) as ->%length_zero by lia.
  rewrite app_nil_l in Hin. subst e.
  repeat (apply elem_of_cons in He as [He|He]; [done|]).
  by apply elem_of_nil in He.
Qed.

Lemma stripMediaExt_step (c : ascii) (t : string) :
  String c t ∉ mediaExts ->
  Js.stripMediaExt (String c t) = String c (Js.stripMediaExt t).
Proof.
  intros Hn. cbn [Js.stripMediaExt].
  destruct (String.eqb_spec (String c t) ".mp4") as [E|_].
  { exfalso. apply Hn. rewrite E. set_solver. }
  destruct (String.eqb_spec (String c t) ".m4a") as [E|_].
  { exfalso. apply Hn. rewrite E. set_solver. }
  destruct (String.eqb_spec (String c t) ".webm") as [E|_].
  { exfalso. apply Hn. rewrite E. set_solver. }
  done.
Qed.

(** The pattern [/\.(mp4|m4a|webm)$/] removes a final media extension ... *)
Lemma stripMediaExt_ext (base e : string) :
  e ∈ mediaExts -> Js.stripMediaExt (base +:+ e) = base.
Proof.
  intros He. induction base as [|c t IH].
  - rewrite app_nil_l. unfold mediaExts in He.
    repeat (apply elem_of_cons in He as [->|He]; [done|]).
    by apply elem_of_nil in He.
  - rewrite app_cons, stripMediaExt_step by by apply not_media_ext.
    by rewrite IH.
Qed.

(** ... and leaves every other string as it is. *)
Lemma stripMediaExt_other (s : string) :
  (forall base e, e ∈ mediaExts -> s <> base +:+ e) -> Js.stripMediaExt s = s.
Proof.
  induction s as [|c t IH]; intros Hn; [done|].
  rewrite stripMediaExt_step.
  - rewrite IH; [done|]. intros base e He ->. by apply (Hn (String c base) e).
  - intros Hin. by apply (Hn "" (String c t)).
Qed.

Lemma allWordChars_dot (a b : string) :
  Js.allWordChars (a +:+ "." +:+ b) = false.
Proof.
  induction a as [|c a IH]; [done|].
  rewrite app_cons. cbn [Js.allWordChars]. rewrite IH. apply andb_false_r.
Qed.

(** The pattern [/\.\w+$/] replaces the extension of a file name ... *)
Lemma replaceExtension_ext (repl base ext : string) :
  ext <> "" -> Js.allWordChars ext = true ->
  Js.replaceExtension repl (base +:+ "." +:+ ext) = base +:+ repl.
Proof.
  intros Hne Hw. induction base as [|c t IH].
  - rewrite app_nil_l, app_cons, app_nil_l. cbn [Js.replaceExtension].
    rewrite Hw. destruct (String.eqb_spec ext "") as [?|_]; done.
  - rewrite app_cons. cbn [Js.replaceExtension].
    rewrite allWordChars_dot, andb_false_r. by rewrite IH.
Qed.

(** ... and leaves a name without extension as it is. *)
Lemma replaceExtension_other (repl s : string) :
  (forall base ext, ext <> "" -> Js.allWordChars ext = true ->
                    s <> base +:+ "." +:+ ext) ->
  Js.replaceExtension repl s = s.
Proof.
  induction s as [|c t IH]; intros Hn; [done|].
  cbn [Js.replaceExtension].
  destruct (Ascii.eqb_spec c ".") as [->|Hc]; cbn [andb].
  - destruct (String.eqb_spec t "") as [->|Ht]; cbn [negb andb]; [done|].
    destruct (Js.allWordChars t) eqn:Hw.
    + exfalso. by apply (Hn "" t).
    + rewrite IH; [done|]. intros base ext ? ? ->.
      by apply (Hn (String "." base) ext).
  - rewrite IH; [done|]. intros base ext ? ? ->.
    by apply (Hn (String c base) ext).
Qed.

(** The output template of a download: the pattern takes a final [.mp4],
    [.m4a] or [.webm] off the output path, and nothing else. *)
Theorem output_path_base :
  (forall base e, e ∈ mediaExts -> Js.stripMediaExt (base +:+ e) = base) /\
  (forall path, (forall base e, e ∈ mediaExts -> path <> base +:+ e) ->
                Js.stripMediaExt path = path).
Proof. split; [apply stripMediaExt_ext|apply stripMediaExt_other]. Qed.

(** The path of a thumbnail: the extension of the video path, a dot
    followed by word characters up to the end, is replaced by [_thumb.jpg];
    a path without such an extension is its own thumbnail path. *)
Theorem thumbnail_path :
  (forall base ext, ext <> "" -> Js.allWordChars ext = true ->
     Js.replaceExtension "_thumb.jpg" (base +:+ "." +:+ ext) =
     base +:+ "_thumb.jpg") /\
  (forall path,
     (forall base ext, ext <> "" -> Js.allWordChars ext = true ->
                       path <> base +:+ "." +:+ ext) ->
     Js.replaceExtension "_thumb.jpg" path = path).
Proof. split; [apply replaceExtension_ext|apply replaceExtension_other]. Qed.

End PathFacts.

(** * The fetcher: metadata, download, thumbnail, deletion *)

Module Fetcher.
Import RunFacts FlowSpec FlowFacts StringFacts PathSpec PathFacts YtdlpService.

Section Calls.
Context (d : Deps) (o : Oracle).

Lemma perform_existsSync (path : string) (w : World) :
  perform o (FsExistsSync path) w =
  (inr (bool_decide (path ∈ files w)),
   record (Ev (FsExistsSync path) (inr (bool_decide (path ∈ files w)))) w).
Proof. done. Qed.

(** [getVideoInfo] has one error for every failure: whatever the cause,
    the caller is thrown the same fixed error, and the cause goes to the
    error log.  The method leaves the process memory alone. *)
Theorem getVideoInfo_one_error (target : string) (m : Mem) (w : World)
  (e : Error) :
  snd (fst (run o (getVideoInfo d target m) w)) = inl e ->
  e = newError "Видео недоступно или ссылка неверна." /\
  fst (fst (run o (getVideoInfo d target m) w)) = m /\
  exists cause,
    last (trace (snd (run o (getVideoInfo d target m) w))) =
    Some (Ev (Log LevelError ("❌ Ошибка getVideoInfo: " +:+ message cause))
            (inr tt)).
Proof.
  unfold getVideoInfo. rewrite run_mbind, run_log, run_tryCatch.
  rewrite run_bind, run_sync, perform_existsSync. cbn [fst snd].
  set (cookies := bool_decide _). set (w1 := record _ (record _ w)).
  rewrite run_mbind.
  assert (exists w2,
    run o ((if cookies then log LevelDebug ("🍪 Куки найдены: " +:+ cookiesPath)
            else mret tt) m) w1 = (m, inr tt, w2)) as [w2 ->].
  { destruct cookies; [rewrite run_log|rewrite run_ret]; eauto. }
  rewrite run_bind, run_await.
  destruct (perform o (ExecDumpJson _ _ _) w2) as [[cause|data] w3];
    cbn [fst snd].
  - rewrite run_mbind, run_log, run_throw. cbn [fst snd].
    intros [= <-]. split_and!; [done..|]. exists cause.
    cbn [record trace]. by rewrite last_snoc.
  - rewrite run_ret. done.
Qed.


(** The output path that [processDownload] passes ends in the extension of
    the container; the default result is then that path itself. *)
Lemma default_final_path (base : string) (isAudio : bool) :
  let ext := if isAudio then ".m4a" else ".mp4" in
  Js.stripMediaExt (base +:+ ext) +:+ ext = base +:+ ext.
Proof.
  intros ext. rewrite stripMediaExt_ext; [done|].
  subst ext. unfold mediaExts. destruct isAudio; set_solver.
Qed.

End Calls.

Section Files.
Context (o : Oracle).

Lemma generateThumbnail_keepsMem (videoPath : string) :
  keepsMem (generateThumbnail videoPath).
Proof. unfold generateThumbnail. keeps_mem. Qed.

Lemma generateThumbnail_neverThrows (videoPath : string) :
  neverThrows (generateThumbnail videoPath).
Proof.
  apply neverThrows_tryCatch. intros e.
  apply neverThrows_mbind; [apply neverThrows_log|]. intros _.
  apply neverThrows_ret.
Qed.

Lemma safeDelete_keepsMem (filePath : string) : keepsMem (safeDelete filePath).
Proof. unfold safeDelete. keeps_mem. Qed.

Lemma safeDelete_neverThrows (filePath : string) : neverThrows (safeDelete filePath).
Proof. apply neverThrows_tryCatch. intros e. apply neverThrows_log. Qed.

(** The two methods when the file system does as it is told. *)
Lemma run_generateThumbnail_ok (videoPath : string) (m : Mem) (w : World) :
  let thumbPath := Js.replaceExtension "_thumb.jpg" videoPath in
  fault o (ExecFfmpegThumbnail videoPath thumbPath) = None ->
  exists w1,
    run o (generateThumbnail videoPath m) w = (m, inr (Some thumbPath), w1) /\
    stateOf w1 = stateOf (withFiles (fun fs => {[thumbPath]} ∪ fs) w).
Proof.
  intros thumbPath Hf. unfold generateThumbnail. fold thumbPath.
  rewrite run_tryCatch, run_mbind, run_log, run_mbind, run_await.
  rewrite perform_effect by (cbn [infallible]; done).
  cbn [effect determined fst snd].
  rewrite run_bind, run_sync, perform_existsSync. cbn [fst snd record files withFiles].
  rewrite bool_decide_true by (by apply elem_of_union_l, elem_of_singleton).
  rewrite run_mbind, run_log, run_ret. eauto.
Qed.

Lemma run_safeDelete_ok (filePath : string) (m : Mem) (w : World) :
  fault o (FsUnlinkSync filePath) = None ->
  exists w1,
    run o (safeDelete filePath m) w = (m, inr tt, w1) /\
    stateOf w1 = stateOf (withFiles (fun fs => fs ∖ {[filePath]}) w).
Proof.
  intros Hf. unfold safeDelete.
  rewrite run_tryCatch, run_bind, run_sync, perform_existsSync. cbn [fst snd].
  destruct (bool_decide (filePath ∈ files w)) eqn:Hp.
  - apply bool_decide_eq_true in Hp.
    rewrite run_mbind, run_sync.
    rewrite perform_effect by (cbn [infallible]; done).
    cbn [effect determined]. unfold unlinkFile. cbn [record files].
    rewrite bool_decide_true by done. cbn [fst snd]. rewrite run_log. eauto.
  - apply bool_decide_eq_false in Hp. rewrite run_ret.
    eexists. split; [done|]. unfold stateOf. cbn [record withFiles videoSessions cacheTable files clock].
    f_equal. f_equal. apply set_eq. intros x.
    rewrite elem_of_difference, elem_of_singleton.
    split; [|by intros [? _]]. intros Hx. split; [done|]. by intros ->.
Qed.

(** [generateThumbnail] never throws and leaves the memory alone.  When it
    returns a path, the path is the video path with its extension replaced
    by [_thumb.jpg], and a file of that name exists. *)
Theorem generateThumbnail_result (videoPath : string) (m : Mem) (w : World) :
  let result := run o (generateThumbnail videoPath m) w in
  fst (fst result) = m /\
  exists thumbnail,
    snd (fst result) = inr thumbnail /\
    forall p, thumbnail = Some p ->
      p = Js.replaceExtension "_thumb.jpg" videoPath /\ p ∈ files (snd result).
Proof.
  intros result. subst result. unfold generateThumbnail.
  set (thumbPath := Js.replaceExtension "_thumb.jpg" videoPath).
  rewrite run_tryCatch, run_mbind, run_log, run_mbind, run_await.
  destruct (perform o (ExecFfmpegThumbnail videoPath thumbPath) _)
    as [[e|[]] w1]; cbn [fst snd].
  - rewrite run_mbind, run_log, run_ret. cbn [fst snd]. split; [done|].
    exists None. done.
  - rewrite run_bind, run_sync, perform_existsSync. cbn [fst snd].
    destruct (bool_decide (thumbPath ∈ files w1)) eqn:Hp.
    + rewrite run_mbind, run_log, run_ret. cbn [fst snd]. split; [done|].
      exists (Some thumbPath). split; [done|]. intros p [= <-].
      split; [done|]. cbn [record files]. by apply bool_decide_eq_true in Hp.
    + rewrite run_ret. cbn [fst snd]. split; [done|]. exists None. done.
Qed.

(** [safeDelete] never throws and leaves the memory alone; it touches no
    other file; and when the file system executes the removal, the file is
    gone afterwards. *)
Theorem safeDelete_result (filePath : string) (m : Mem) (w : World) :
  let result := run o (safeDelete filePath m) w in
  fst result = (m, inr tt) /\
  (forall other, other <> filePath ->
     other ∈ files (snd result) <-> other ∈ files w) /\
  (fault o (FsUnlinkSync filePath) = None -> filePath ∉ files (snd result)).
Proof.
  intros result. subst result. unfold safeDelete.
  rewrite run_tryCatch, run_bind, run_sync, perform_existsSync. cbn [fst snd].
  destruct (bool_decide (filePath ∈ files w)) eqn:Hp.
  - apply bool_decide_eq_true in Hp.
    rewrite run_mbind, run_sync. unfold perform, outcome. cbn [infallible].
    destruct (fault o (FsUnlinkSync filePath)) as [e|] eqn:Hf; cbn [fst snd].
    + rewrite run_log. cbn [fst snd record files]. done.
    + unfold effect. cbn [determined]. unfold unlinkFile.
      cbn [record files]. rewrite bool_decide_true by done.
      cbn [fst snd]. rewrite run_log. cbn [fst snd record files withFiles].
      split_and!; [done| |].
      * intros other Hne. rewrite elem_of_difference, elem_of_singleton. tauto.
      * intros _. rewrite elem_of_difference, elem_of_singleton. tauto.
  - apply bool_decide_eq_false in Hp. rewrite run_ret. cbn [fst snd record files].
    done.
Qed.

End Files.

(** The theorems at work: the fetcher reports that the video is
    unavailable, and the caller sees the fixed error. *)
Lemma getVideoInfo_one_error_witness :
  newError "Видео недоступно или ссылка неверна." =
    newError "Видео недоступно или ссылка неверна." /\
  fst (fst (run Scenarios.fetcherDown
              (getVideoInfo Fixtures.deps "https://example.org/x" Fixtures.idle)
              Fixtures.emptyWorld)) = Fixtures.idle /\
  exists cause,
    last (trace (snd (run Scenarios.fetcherDown
                        (getVideoInfo Fixtures.deps "https://example.org/x"
                           Fixtures.idle) Fixtures.emptyWorld))) =
    Some (Ev (Log LevelError ("❌ Ошибка getVideoInfo: " +:+ message cause))
            (inr tt)).
Proof.
  apply (getVideoInfo_one_error Fixtures.deps Scenarios.fetcherDown
           "https://example.org/x" Fixtures.idle Fixtures.emptyWorld).
  reflexivity.
Defined.


End Fetcher.

(** * The upload to the archive channel *)

Module Archive.
Import RunFacts FlowSpec FlowFacts UploadSpec UploaderService.

Section Upload.
Context (d : Deps) (o : Oracle).
Context (videoPath : string) (info : VideoInfoDto).

Lemma cacheToChannel_keepsMem (isAudio : bool) :
  keepsMem (cacheToChannel d videoPath info isAudio).
Proof.
  unfold cacheToChannel. keeps_mem.
Qed.

(** The [catch] block: the error is logged and thrown again. *)
Lemma run_rethrow {A} (text : string) (e : Error) (m : Mem) (w : World) :
  run o ((log LevelError text;; throw (A:=A) e) m) w =
  (m, inl e, record (Ev (Log LevelError text) (inr tt)) w).
Proof. by rewrite run_mbind, run_log, run_throw. Qed.

Lemma last_record (e : Event) (w : World) : last (trace (record e w)) = Some e.
Proof. cbn [record trace]. apply last_snoc. Qed.

Lemma elem_of_trace_run {A} (s : step A) (w : World) (e : Event) :
  e ∈ trace w -> e ∈ trace (snd (run o s w)).
Proof.
  intros He. destruct (run_trace o s w) as [evs ->]. apply elem_of_app. by left.
Qed.

(** Without a bot nothing is uploaded: the method logs and throws. *)
Theorem cacheToChannel_without_bot (isAudio : bool) (m : Mem) (w : World) :
  botSet m = false ->
  fst (run o (cacheToChannel d videoPath info isAudio m) w) =
    (m, inl (newError "Bot instance не установлен. Вызовите setBot() сначала.")) /\
  trace (snd (run o (cacheToChannel d videoPath info isAudio m) w)) =
    trace w ++
    [Ev (Log LevelLog "🔍 Bot instance: false") (inr tt);
     Ev (Log LevelLog ("📤 Кеширование в канал: " +:+ archiveChannelId d)) (inr tt);
     Ev (Log LevelError "❌ Bot undefined! Instance ID:") (inr tt);
     Ev (Log LevelError
           "❌ Ошибка кеширования: Bot instance не установлен. Вызовите setBot() сначала.")
        (inr tt)].
Proof.
  intros Hbot. unfold cacheToChannel.
  rewrite run_tryCatch, run_bind, run_getMem, Hbot.
  rewrite run_mbind, run_log, run_mbind, run_log, run_mbind.
  rewrite run_mbind, run_log, run_throw. rewrite run_rethrow.
  cbn [fst snd record trace]. split; [done|].
  by rewrite <- !app_assoc.
Qed.

(** The outcome of [cacheToChannel], whatever happens outside.  The memory
    is left alone.  A result carries a reference that is not empty: the
    file id of the message with which the platform answered the upload,
    together with the id of that message.  An error has been written to the
    error log, with its message, before it reaches the caller. *)
Theorem cacheToChannel_outcome (isAudio : bool) (m : Mem) (w : World) :
  let result := run o (cacheToChannel d videoPath info isAudio m) w in
  fst (fst result) = m /\
  match snd (fst result) with
  | inr (fileId, messageId) =>
      fileId <> "" /\
      exists thumbnail sent,
        Ev (uploadCall d videoPath info isAudio thumbnail) (inr sent)
          ∈ trace (snd result) /\
        referenceOf isAudio sent = Some fileId /\
        messageId = message_id sent
  | inl e =>
      last (trace (snd result)) =
      Some (Ev (Log LevelError ("❌ Ошибка кеширования: " +:+ message e)) (inr tt))
  end.
Proof.
  intros result. split; [apply cacheToChannel_keepsMem|].
  subst result. unfold cacheToChannel.
  rewrite run_tryCatch, run_bind, run_getMem.
  rewrite run_mbind, run_log, run_mbind, run_log, run_mbind.
  destruct (botSet m).
  2:{ rewrite run_mbind, run_log, run_throw, run_rethrow. cbn [fst snd].
      apply last_record. }
  rewrite run_ret, run_bind.
  set (w0 := record _ (record _ w)).
  (* the upload *)
  assert (exists thumbnail w1 w2 w3 r,
    run o ((if isAudio then
              await (BotSendAudio (archiveChannelId d) videoPath (title info)
                       (uploader info) (duration info))
            else
              thumb <- YtdlpService.generateThumbnail videoPath;;
              sent <- await (BotSendVideo (archiveChannelId d) videoPath thumb
                               (duration info) (width info) (height info));;
              match thumb with
              | Some t => YtdlpService.safeDelete t
              | None => mret tt
              end;;
              mret sent) m) w0 = (m, r, w3) /\
    perform o (uploadCall d videoPath info isAudio thumbnail) w1 = (r, w2) /\
    (forall e, r = inl e -> w3 = w2) /\
    (forall e, e ∈ trace w2 -> e ∈ trace w3)) as (thumbnail & w1 & w2 & w3 & r & -> & Hup & Hfail & Hmono).
  { unfold uploadCall. destruct isAudio.
    - rewrite run_await. exists None, w0. eexists _, _, _.
      split; [done|]. split; [apply surjective_pairing|]. done.
    - rewrite run_bind.
      pose proof (Fetcher.generateThumbnail_keepsMem videoPath o m w0) as Hm.
      destruct (Fetcher.generateThumbnail_neverThrows videoPath o m w0) as [thumb Hr].
      destruct (run o (YtdlpService.generateThumbnail videoPath m) w0)
        as [[m' r'] w1]. simpl in Hm, Hr. subst m' r'.
      rewrite run_bind, run_await. exists thumb, w1.
      destruct (perform o (BotSendVideo _ _ _ _ _ _) w1) as [[e|sent] w2] eqn:Hp;
        cbn [fst snd].
      + eexists _, _, _. split; [done|]. split; [done|]. done.
      + rewrite run_mbind.
        assert (exists w3,
          run o (match thumb with
                 | Some t => YtdlpService.safeDelete t
                 | None => mret tt
                 end m) w2 = (m, inr tt, w3) /\
          forall e, e ∈ trace w2 -> e ∈ trace w3) as (w3 & -> & Hmono).
        { destruct thumb as [t|].
          - pose proof (Fetcher.safeDelete_keepsMem t o m w2) as Hm.
            destruct (Fetcher.safeDelete_neverThrows t o m w2) as [[] Hr].
            pose proof (fun e => elem_of_trace_run (YtdlpService.safeDelete t m) w2 e).
            destruct (run o (YtdlpService.safeDelete t m) w2) as [[m' r'] w3].
            simpl in *. subst. eauto.
          - rewrite run_ret. eauto. }
        rewrite run_ret. eexists _, _, _. split; [done|]. split; [done|].
        split; [done|]. done. }
  destruct r as [e|sent].
  { rewrite run_rethrow. cbn [fst snd]. apply last_record. }
  fold (referenceOf isAudio sent).
  destruct (referenceOf isAudio sent) as [fileId|] eqn:Href; cbn [Js.truthyString].
  2:{ rewrite run_throw, run_rethrow. cbn [fst snd]. apply last_record. }
  destruct (String.eqb_spec fileId "") as [->|Hne]; cbn [negb].
  { rewrite run_throw, run_rethrow. cbn [fst snd]. apply last_record. }
  rewrite run_mbind, run_log, run_ret. cbn [fst snd default].
  split; [done|]. exists thumbnail, sent. split_and!; [|done..].
  cbn [record trace]. apply elem_of_app. left. apply Hmono.
  pose proof (perform_trace o (uploadCall d videoPath info isAudio thumbnail) w1) as Ht.
  rewrite Hup in Ht. cbn [fst snd] in Ht. rewrite Ht.
  apply elem_of_app. right. by apply list_elem_of_singleton.
Qed.

(** The thumbnail of a video upload.  Once the thumbnail has been made, an
    upload that throws leaves it on disk: the removal comes after the
    upload, inside the same [try] block.  When the upload is answered, the
    thumbnail is removed, the file system permitting. *)
Theorem thumbnail_after_upload (m : Mem) (w : World) :
  let thumbPath := Js.replaceExtension "_thumb.jpg" videoPath in
  let upload := uploadCall d videoPath info false (Some thumbPath) in
  let result := run o (cacheToChannel d videoPath info false m) w in
  botSet m = true ->
  fault o (ExecFfmpegThumbnail videoPath thumbPath) = None ->
  (forall e, fault o upload = Some e ->
     fst result = (m, inl e) /\ thumbPath ∈ files (snd result)) /\
  (fault o upload = None -> fault o (FsUnlinkSync thumbPath) = None ->
   thumbPath ∉ files (snd result)).
Proof.
  intros thumbPath upload result Hbot Hffmpeg. subst result.
  unfold cacheToChannel.
  rewrite run_tryCatch, run_bind, run_getMem, Hbot.
  rewrite run_mbind, run_log, run_mbind, run_log, run_mbind, run_ret.
  rewrite !run_bind.
  set (w0 := record _ (record _ w)).
  destruct (Fetcher.run_generateThumbnail_ok o videoPath m w0 Hffmpeg)
    as (w1 & -> & Hw1).
  apply stateOf_eq in Hw1 as (_ & _ & Hfiles1 & _). cbn [withFiles files] in Hfiles1.
  fold thumbPath. rewrite run_bind, run_await.
  change (BotSendVideo _ _ _ _ _ _) with upload.
  split.
  - intros e Hup.
    rewrite (perform_faulty o upload e) by done. cbn [fst snd].
    rewrite run_rethrow. cbn [fst snd record files]. split; [done|].
    rewrite Hfiles1. by apply elem_of_union_l, elem_of_singleton.
  - intros Hup Hunlink.
    rewrite perform_effect by (cbn [infallible]; done).
    unfold upload at 1 2 3. cbn [uploadCall effect determined fst snd].
    rewrite run_mbind.
    match goal with |- context [run o (YtdlpService.safeDelete thumbPath m) ?w2] =>
      destruct (Fetcher.run_safeDelete_ok o thumbPath m w2 Hunlink)
        as (w3 & -> & Hw3) end.
    apply stateOf_eq in Hw3 as (_ & _ & Hfiles3 & _). cbn [withFiles files] in Hfiles3.
    assert (thumbPath ∉ files w3) as Hgone.
    { rewrite Hfiles3, elem_of_difference, elem_of_singleton. tauto. }
    rewrite run_ret.
    destruct (Js.truthyString _).
    + by rewrite run_mbind, run_log, run_ret.
    + by rewrite run_throw, run_rethrow.
Qed.

End Upload.

(** The theorem at work: in a process whose uploader was never given the
    bot, the upload of a file ends with the error. *)
Lemma cacheToChannel_without_bot_witness :
  fst (run Fixtures.calm
         (cacheToChannel Fixtures.deps "/tmp/bot_downloads/Clip_137.mp4"
            Fixtures.video false Scenarios.noBot) Fixtures.emptyWorld) =
    (Scenarios.noBot,
     inl (newError "Bot instance не установлен. Вызовите setBot() сначала.")).
Proof.
  apply (cacheToChannel_without_bot Fixtures.deps Fixtures.calm
           "/tmp/bot_downloads/Clip_137.mp4" Fixtures.video false
           Scenarios.noBot Fixtures.emptyWorld).
  reflexivity.
Defined.

(** The upload of a video is rejected by the platform: the thumbnail
    stays. *)
Lemma thumbnail_after_upload_witness :
  "/tmp/bot_downloads/Clip_137_thumb.jpg" ∈
    files (snd (run Fixtures.archiveDown
                  (cacheToChannel Fixtures.deps "/tmp/bot_downloads/Clip_137.mp4"
                     Fixtures.video false Fixtures.idle) Fixtures.emptyWorld)).
Proof.
  destruct (thumbnail_after_upload Fixtures.deps Fixtures.archiveDown
              "/tmp/bot_downloads/Clip_137.mp4" Fixtures.video Fixtures.idle
              Fixtures.emptyWorld eq_refl eq_refl) as [Hleft _].
  apply (Hleft (newError "Request Entity Too Large")). reflexivity.
Defined.

End Archive.

(** * The download job as a whole *)

Module Job.
Import RunFacts FlowSpec FlowFacts YtdlpService UploaderService DownloaderService.

Section Parts.
Context (d : Deps).

Lemma feed_keepsMem (onProgress : Q -> M unit) (output : list Chunk) :
  (forall p, keepsMem (onProgress p)) ->
  forall st, keepsMem (feed d onProgress st output).
Proof.
  intros Hcb. induction output as [|chunk rest IH]; intros st; cbn [feed].
  - apply keepsMem_ret.
  - apply keepsMem_mbind; [|intros _; apply IH].
    destruct (snd (onData st chunk)); keeps_mem. apply Hcb.
Qed.

Lemma feed_makesOnly (P : forall T, call T -> Prop)
  (onProgress : Q -> M unit) (output : list Chunk) :
  (forall level text, P unit (Log level text)) ->
  (forall p, makesOnly P (onProgress p)) ->
  forall st, makesOnly P (feed d onProgress st output).
Proof.
  intros Hlog Hcb. induction output as [|chunk rest IH]; intros st; cbn [feed].
  - apply makesOnly_ret.
  - apply makesOnly_mbind; [|intros _; apply IH].
    destruct (snd (onData st chunk)); [|apply makesOnly_ret].
    apply makesOnly_mbind; [by apply makesOnly_swallow|].
    intros _. apply makesOnly_log, Hlog.
Qed.

Lemma progressCallback_keepsMem (chatId : Z) (progressMsg : Message) (p : Q) :
  keepsMem (progressCallback d chatId progressMsg p).
Proof. unfold progressCallback. keeps_mem. Qed.

Lemma downloadVideo_keepsMem (target fmt outputPath : string) (isAudio : bool)
  (onProgress : Q -> M unit) :
  (forall p, keepsMem (onProgress p)) ->
  keepsMem (downloadVideo d target fmt outputPath isAudio onProgress).
Proof.
  intros Hcb. unfold downloadVideo.
  apply keepsMem_mbind; [apply keepsMem_log|]. intros _.
  apply keepsMem_bind; [apply keepsMem_sync|]. intros cookies.
  apply keepsMem_bind; [apply keepsMem_await|]. intros child.
  apply keepsMem_bind; [by apply feed_keepsMem|]. intros st.
  keeps_mem.
Qed.

Lemma pipeline_keepsMem (ctx : Context) (chatId : Z) (progressMsg : Message)
  (videoData : VideoInfoDto) (fmt label : string) (userId : Z) :
  keepsMem (pipeline d ctx chatId progressMsg videoData fmt label userId).
Proof.
  unfold pipeline.
  apply keepsMem_mbind.
  { apply downloadVideo_keepsMem. intros p. apply progressCallback_keepsMem. }
  intros _. apply keepsMem_mbind; [apply keepsMem_await|]. intros _.
  apply keepsMem_bind; [apply Archive.cacheToChannel_keepsMem|]. intros uploadResult.
  unfold saveToCache, writeCacheEntry, deliver. keeps_mem.
Qed.

Lemma downloadFailed_neverThrows (chatId : Z) (progressMsg : option Message)
  (error : Error) :
  neverThrows (downloadFailed chatId progressMsg error).
Proof.
  unfold downloadFailed. apply neverThrows_mbind; [apply neverThrows_log|].
  intros _. destruct progressMsg; [apply neverThrows_swallow|apply neverThrows_ret].
Qed.

Lemma attempt_neverThrows {A} (body : M A) : neverThrows (attempt body).
Proof. apply neverThrows_tryCatch. intros e. apply neverThrows_ret. Qed.

Lemma processDownload_keepsMem (ctx : Context) (videoData : VideoInfoDto)
  (fmt label : string) (userId : Z) :
  keepsMem (processDownload d ctx videoData fmt label userId).
Proof.
  unfold processDownload. destruct (chat ctx) as [chatId|]; [|apply keepsMem_ret].
  apply keepsMem_bind; [unfold attempt; keeps_mem|].
  intros [error|progressMsg].
  - unfold downloadFailed. keeps_mem.
  - apply keepsMem_tryCatch; [apply pipeline_keepsMem|].
    intros e. unfold downloadFailed. keeps_mem.
Qed.

Lemma processDownload_neverThrows (ctx : Context) (videoData : VideoInfoDto)
  (fmt label : string) (userId : Z) :
  neverThrows (processDownload d ctx videoData fmt label userId).
Proof.
  unfold processDownload. destruct (chat ctx) as [chatId|]; [|apply neverThrows_ret].
  apply neverThrows_bind; [apply attempt_neverThrows|].
  intros [error|progressMsg].
  - apply downloadFailed_neverThrows.
  - apply neverThrows_tryCatch. intros e. apply downloadFailed_neverThrows.
Qed.

(** The calls of the job never write to the session table. *)
Lemma processDownload_no_session_write (ctx : Context) (videoData : VideoInfoDto)
  (fmt label : string) (userId : Z) :
  makesOnly (fun T c => writesSessions c = false)
    (processDownload d ctx videoData fmt label userId).
Proof.
  unfold processDownload. destruct (chat ctx) as [chatId|]; [|apply makesOnly_ret].
  apply makesOnly_bind; [unfold attempt; makes_only|].
  intros [error|progressMsg]; [unfold downloadFailed; makes_only|].
  apply makesOnly_tryCatch; [|intros e; unfold downloadFailed; makes_only].
  unfold pipeline. apply makesOnly_mbind.
  { unfold downloadVideo.
    apply makesOnly_mbind; [by apply makesOnly_log|]. intros _.
    apply makesOnly_bind; [by apply makesOnly_sync|]. intros cookies.
    apply makesOnly_bind; [by apply makesOnly_await|]. intros child.
    apply makesOnly_bind.
    { apply feed_makesOnly; [done|]. intros p. unfold progressCallback. makes_only. }
    intros st. makes_only. }
  intros _. unfold cacheToChannel, generateThumbnail, safeDelete, saveToCache,
    writeCacheEntry, deliver, deliveryCall.
  makes_only.
Qed.

End Parts.

(** A download job never throws: whatever fails, in the fetch, the upload,
    the cache, the delivery or the chat platform, the promise of the job
    resolves.  The job leaves the process memory and the session table as
    they were. *)
Theorem processDownload_contained (d : Deps) (o : Oracle) (ctx : Context)
  (videoData : VideoInfoDto) (fmt label : string) (userId : Z)
  (m : Mem) (w : World) :
  let result := run o (processDownload d ctx videoData fmt label userId m) w in
  fst result = (m, inr tt) /\
  videoSessions (snd result) = videoSessions w.
Proof.
  intros result. subst result. split.
  - pose proof (processDownload_keepsMem d ctx videoData fmt label userId o m w) as Hm.
    destruct (processDownload_neverThrows d ctx videoData fmt label userId o m w)
      as [[] Hr].
    destruct (run o _ w) as [[m' r] w']. simpl in *. by subst.
  - apply callsOnly_sessions, processDownload_no_session_write.
Qed.

(** A report between 91 and 100 per cent, every report of completion
    among them, is not shown to the user: the progress message is only
    edited for a percentage whose integer part is a multiple of 15. *)
Theorem completion_not_displayed (d : Deps) (o : Oracle) (chatId : Z)
  (progressMsg : Message) (p : Q) (m : Mem) (w : World) :
  (91 <= p)%Q -> (p <= 100)%Q ->
  run o (progressCallback d chatId progressMsg p m) w = (m, inr tt, w).
Proof.
  intros Hlo Hhi. unfold progressCallback.
  assert (91 <= Qfloor p <= 100) as Hfloor.
  { split.
    - change 91 with (Qfloor (inject_Z 91)). by apply Qfloor_resp_le.
    - change 100 with (Qfloor (inject_Z 100)). by apply Qfloor_resp_le. }
  destruct (Z.eqb_spec (Z.rem (Qfloor p) 15) 0) as [Hrem|_]; [|done].
  exfalso. revert Hrem. generalize (Qfloor p) Hfloor. intros f Hf.
  Z.to_euclidean_division_equations. lia.
Qed.

Lemma completion_not_displayed_witness :
  run Fixtures.calm
    (progressCallback Fixtures.deps 5 Fixtures.sentMessage (100 # 1)
       Fixtures.idle) Fixtures.emptyWorld =
  (Fixtures.idle, inr tt, Fixtures.emptyWorld).
Proof.
  apply (completion_not_displayed Fixtures.deps Fixtures.calm 5
           Fixtures.sentMessage (100 # 1) Fixtures.idle Fixtures.emptyWorld);
    vm_compute; discriminate.
Defined.

End Job.

(** * A download job in which nothing fails *)

Module Completion.
Import RunFacts FlowSpec FlowFacts StringFacts PathSpec PathFacts UploadSpec.
Import PipelineSpec YtdlpService UploaderService DownloaderService.

Lemma cacheSet_lookup (o : Oracle) (dto : CacheService.SetDto)
  (t : gmap CacheService.Fingerprint CacheService.Entry) :
  exists entry,
    cacheSet dto t !! CacheService.fingerprint dto = Some entry /\
    CacheService.data entry = dto.
Proof.
  unfold cacheSet. destruct (t !! CacheService.fingerprint dto) as [e|];
    rewrite lookup_insert_eq; eauto.
Qed.

Section Calm.
Context (d : Deps) (o : Oracle).
Hypothesis Hcalm : forall T (c : call T), fault o c = None.
Hypothesis Hexit :
  forall args, closed (reply o (SpawnYtdlp (ytdlpPath d) args)) = inr 0.

Ltac calm :=
  rewrite ?run_mbind, ?run_bind;
  first [rewrite run_await | rewrite run_sync];
  rewrite perform_effect by (cbn [infallible]; rewrite ?Hcalm; done);
  cbn [effect determined fst snd].

Lemma run_downloadVideo_ok (target fmt outputPath : string) (isAudio : bool)
  (onProgress : Q -> M unit) (m : Mem) (w : World) :
  (forall p, keepsMem (onProgress p)) ->
  (forall p, makesOnly (fun T c => writes c = false) (onProgress p)) ->
  exists path w1,
    run o (downloadVideo d target fmt outputPath isAudio onProgress m) w =
      (m, inr path, w1) /\
    stateOf w1 =
    stateOf (withFiles
               (fun fs => {[Js.stripMediaExt outputPath +:+
                            (if isAudio then ".m4a" else ".mp4")]} ∪ fs) w).
Proof.
  intros Hmem Hcalls. unfold downloadVideo.
  rewrite run_mbind, run_log, run_bind, run_sync, Fetcher.perform_existsSync.
  cbn [fst snd]. calm. unfold exitedWith. rewrite Hexit. cbn [fetchedFile outputPathBase audioOnly].
  rewrite run_bind.
  match goal with |- context [run o (feed d onProgress ?st ?out m) ?w1] =>
    pose proof (Job.feed_keepsMem d onProgress out Hmem st o m w1) as Hm;
    pose proof (Progress.run_feed d o onProgress out st m w1) as Hr;
    pose proof (callsOnly_state o (feed d onProgress st out m) w1
                  (Job.feed_makesOnly d _ onProgress out (fun _ _ => eq_refl)
                     Hcalls st m)) as Hs;
    destruct (run o (feed d onProgress st out m) w1) as [[m1 r1] w2] end.
  simpl in Hm, Hr, Hs. subst m1 r1.
  rewrite Z.eqb_refl.
  rewrite run_mbind, run_log, run_ret. eexists _, _. split; [done|].
  by rewrite stateOf_record, Hs.
Qed.

Lemma run_cacheToChannel_ok (videoPath : string) (info : VideoInfoDto)
  (isAudio : bool) (fileId : string) (m : Mem) (w : World) :
  botSet m = true ->
  (forall thumbnail,
     referenceOf isAudio (reply o (uploadCall d videoPath info isAudio thumbnail))
     = Some fileId) ->
  fileId <> "" ->
  exists messageId w1,
    run o (cacheToChannel d videoPath info isAudio m) w =
      (m, inr (fileId, messageId), w1) /\
    stateOf w1 =
    stateOf (if isAudio then w
             else withFiles
                    (fun fs => ({[Js.replaceExtension "_thumb.jpg" videoPath]} ∪ fs)
                               ∖ {[Js.replaceExtension "_thumb.jpg" videoPath]}) w).
Proof.
  intros Hbot Href Hne. unfold cacheToChannel.
  rewrite run_tryCatch, run_bind, run_getMem, Hbot.
  rewrite run_mbind, run_log, run_mbind, run_log, run_mbind, run_ret, run_bind.
  assert (Js.truthyString (Some fileId) = true) as Htruthy.
  { cbn. by destruct (String.eqb_spec fileId ""). }
  destruct isAudio.
  - calm. specialize (Href None). cbn [referenceOf uploadCall] in Href.
    rewrite Href, Htruthy. rewrite run_mbind, run_log, run_ret.
    eexists _, _. split; [done|]. done.
  - rewrite run_bind.
    match goal with |- context [run o (generateThumbnail videoPath m) ?w0] =>
      destruct (Fetcher.run_generateThumbnail_ok o videoPath m w0 (Hcalm _ _))
        as (w1 & -> & Hw1) end.
    calm. rewrite run_mbind.
    match goal with |- context [run o (safeDelete ?t m) ?w2] =>
      destruct (Fetcher.run_safeDelete_ok o t m w2 (Hcalm _ _))
        as (w3 & -> & Hw3) end.
    rewrite run_ret.
    specialize (Href (Some (Js.replaceExtension "_thumb.jpg" videoPath))).
    cbn [referenceOf uploadCall] in Href.
    rewrite Href, Htruthy. rewrite run_mbind, run_log, run_ret.
    eexists _, _. split; [done|].
    rewrite stateOf_record, Hw3.
    apply stateOf_eq in Hw1 as (Hs & Hc & Hf & Hk).
    unfold stateOf. cbn [record withFiles videoSessions cacheTable files clock] in *.
    by rewrite Hs, Hc, Hf, Hk.
Qed.

Lemma run_cacheStep_ok (videoData : VideoInfoDto) (fmt label : string)
  (userId : Z) (uploadResult : string * Z) (m : Mem) (w : World) :
  let filepath := targetPath d videoData fmt label in
  filepath ∈ files w ->
  exists w1,
    run o (cacheStep d videoData fmt label userId uploadResult m) w =
      (m, inr tt, w1) /\
    stateOf w1 =
    stateOf (withCache
               (cacheSet (cacheEntryOf videoData fmt label uploadResult
                            (reply o (FsStat filepath)) userId)) w).
Proof.
  intros filepath Hfile. unfold cacheStep, saveToCache, writeCacheEntry.
  fold filepath.
  rewrite run_mbind, run_log, run_tryCatch.
  calm. cbn [record files]. rewrite bool_decide_true by done. cbn [fst snd].
  calm. rewrite run_log. eexists. split; [done|]. done.
Qed.

Lemma run_deliverAndCleanUp_ok (ctx : Context) (chatId : Z)
  (progressMsg : Message) (videoData : VideoInfoDto) (fmt label : string)
  (userId : Z) (uploadResult : string * Z) (m : Mem) (w : World) :
  exists w1,
    run o (deliverAndCleanUp d ctx chatId progressMsg videoData fmt label userId
             uploadResult m) w = (m, inr tt, w1) /\
    stateOf w1 =
    stateOf (withFiles (fun fs => fs ∖ {[targetPath d videoData fmt label]}) w).
Proof.
  unfold deliverAndCleanUp, deliver. set (filepath := targetPath d videoData fmt label).
  assert (exists w0,
    run o (await (deliveryCall d ctx videoData label (fst uploadResult)) m) w =
      (m, inr (reply o (deliveryCall d ctx videoData label (fst uploadResult))), w0) /\
    stateOf w0 = stateOf w) as (w0 & Hdeliver & Hw0).
  { unfold deliveryCall. destruct (String.eqb label "audio"); calm; eauto. }
  rewrite run_mbind, Hdeliver. cbn [fst snd].
  rewrite run_mbind, run_swallow. calm.
  rewrite run_swallow, run_await.
  rewrite perform_effect by (cbn [infallible]; rewrite ?Hcalm; done).
  cbn [effect determined]. unfold unlinkFile. cbn [record files].
  apply stateOf_eq in Hw0 as (Hs & Hc & Hf & Hk).
  destruct (bool_decide (filepath ∈ files w0)) eqn:Hp; cbn [fst snd].
  - calm. calm. eexists. split; [done|].
    unfold stateOf. cbn [record withFiles videoSessions cacheTable files clock].
    by rewrite Hs, Hc, Hf, Hk.
  - calm. calm. eexists. split; [done|].
    apply bool_decide_eq_false in Hp.
    unfold stateOf. cbn [record withFiles videoSessions cacheTable files clock].
    rewrite Hs, Hc, Hk. f_equal. f_equal. rewrite <- Hf. apply set_eq. intros x.
    rewrite elem_of_difference, elem_of_singleton.
    split; [|by intros [? _]]. intros Hx. split; [done|]. by intros ->.
Qed.

End Calm.

(** A job in which nothing fails.  The chat platform, the fetcher (exit
    code 0), the archive channel (its answer carries a file id) and the
    stores all do as they are asked, and the resolved path keeps the
    extension of the file name.  Then the job ends with the rendition in the
    result cache under the fingerprint [(videoData.id, formatId,
    resolution)], holding the file id of the archive -- so that the next
    selection of this rendition is a cache hit -- and with the temporary
    file removed. *)
Theorem job_completes (d : Deps) (o : Oracle) (ctx : Context) (chatId : Z)
  (videoData : VideoInfoDto) (fmt label : string) (userId : Z)
  (base fileId : string) (m : Mem) (w : World) :
  let isAudio := String.eqb label "audio" in
  let filepath := targetPath d videoData fmt label in
  let result := run o (processDownload d ctx videoData fmt label userId m) w in
  chat ctx = Some chatId ->
  (forall T (c : call T), fault o c = None) ->
  botSet m = true ->
  (forall args, closed (reply o (SpawnYtdlp (ytdlpPath d) args)) = inr 0) ->
  filepath = base +:+ (if isAudio then ".m4a" else ".mp4") ->
  (forall thumbnail,
     referenceOf isAudio
       (reply o (uploadCall d filepath videoData isAudio thumbnail)) = Some fileId) ->
  fileId <> "" ->
  fst result = (m, inr tt) /\
  (exists entry,
     cacheTable (snd result) !! (id videoData, fmt, label) = Some entry /\
     CacheService.fileId (CacheService.data entry) = fileId) /\
  filepath ∉ files (snd result).
Proof.
  intros isAudio filepath result Hchat Hcalm Hbot Hexit Hpath Href Hne.
  subst result. unfold processDownload. rewrite Hchat.
  rewrite run_bind. unfold attempt.
  rewrite run_tryCatch, run_bind, run_await.
  rewrite perform_effect by (cbn [infallible]; rewrite ?Hcalm; done).
  cbn [effect determined fst snd]. rewrite run_ret.
  set (progressMsg := reply o (CtxReply ctx _)). set (w0 := record _ w).
  rewrite run_tryCatch, Pipeline.run_pipeline.
  (* fetch and archive *)
  unfold fetchAndArchive. fold isAudio filepath. rewrite run_mbind.
  destruct (run_downloadVideo_ok d o Hcalm Hexit (sourceUrl videoData) fmt filepath
              isAudio (progressCallback d chatId progressMsg) m w0)
    as (path & w1 & -> & Hw1).
  { intros p. apply Job.progressCallback_keepsMem. }
  { intros p. unfold progressCallback. makes_only. }
  rewrite run_mbind, run_await.
  rewrite perform_effect by (cbn [infallible]; rewrite ?Hcalm; done).
  cbn [effect determined fst snd].
  match goal with |- context [run o (cacheToChannel d filepath videoData isAudio m) ?w2] =>
    destruct (run_cacheToChannel_ok d o Hcalm filepath videoData isAudio fileId
                m w2 Hbot Href Hne) as (messageId & w3 & -> & Hw3) end.
  (* the downloaded file is there when the cache entry is written *)
  assert (Js.stripMediaExt filepath +:+ (if isAudio then ".m4a" else ".mp4")
          = filepath) as Hfinal.
  { rewrite Hpath. apply Fetcher.default_final_path. }
  rewrite Hfinal in Hw1.
  apply stateOf_eq in Hw1 as (Hs1 & Hc1 & Hf1 & Hk1).
  cbn [withFiles videoSessions cacheTable files clock] in Hs1, Hc1, Hf1, Hk1.
  assert (filepath ∈ files w3 /\ cacheTable w3 = cacheTable w0) as [Hthere Hc3].
  { destruct isAudio.
    - apply stateOf_eq in Hw3 as (_ & Hc3 & Hf3 & _).
      cbn [record cacheTable files] in Hc3, Hf3. rewrite Hf3, Hf1, Hc3.
      split; [|done]. by apply elem_of_union_l, elem_of_singleton.
    - apply stateOf_eq in Hw3 as (_ & Hc3 & Hf3 & _).
      cbn [record withFiles cacheTable files] in Hc3, Hf3. rewrite Hf3, Hf1, Hc3.
      split; [|done].
      assert (Js.replaceExtension "_thumb.jpg" filepath = base +:+ "_thumb.jpg")
        as ->.
      { rewrite Hpath. by apply (replaceExtension_ext "_thumb.jpg" base "mp4"). }
      rewrite elem_of_difference, elem_of_singleton. split.
      + by apply elem_of_union_r, elem_of_union_l, elem_of_singleton.
      + rewrite Hpath. by intros ?%(inj (String.app base)). }
  (* the cache entry *)
  destruct (run_cacheStep_ok d o Hcalm videoData fmt label userId
              (fileId, messageId) m w3 Hthere) as (w4 & -> & Hw4).
  destruct (run_deliverAndCleanUp_ok d o Hcalm ctx chatId progressMsg videoData fmt
              label userId (fileId, messageId) m w4) as (w5 & -> & Hw5).
  fold filepath in Hw4, Hw5.
  apply stateOf_eq in Hw4 as (_ & Hc4 & _ & _).
  apply stateOf_eq in Hw5 as (_ & Hc5 & Hf5 & _).
  cbn [withFiles withCache cacheTable files] in Hc4, Hc5, Hf5.
  cbn [fst snd]. split_and!; [done| |].
  - rewrite Hc5, Hc4.
    set (dto := cacheEntryOf videoData fmt label (fileId, messageId)
                  (reply o (FsStat filepath)) userId).
    destruct (cacheSet_lookup o dto (cacheTable w3)) as (entry & Hentry & Hdata).
    exists entry. split; [done|]. by rewrite Hdata.
  - rewrite Hf5, elem_of_difference, elem_of_singleton. tauto.
Qed.

(** The theorem at work: the job for the 720p rendition of the clip. *)
Lemma job_completes_witness :
  (exists entry,
     cacheTable (snd (run Fixtures.calm
                        (processDownload Fixtures.deps Fixtures.user Fixtures.video
                           "137" "720p" 42 Fixtures.idle) Fixtures.emptyWorld))
       !! ("vid", "137", "720p") = Some entry /\
     CacheService.fileId (CacheService.data entry) = "ref123") /\
  "/tmp/bot_downloads/Clip_137.mp4" ∉
    files (snd (run Fixtures.calm
                  (processDownload Fixtures.deps Fixtures.user Fixtures.video
                     "137" "720p" 42 Fixtures.idle) Fixtures.emptyWorld)).
Proof.
  apply (job_completes Fixtures.deps Fixtures.calm Fixtures.user 5 Fixtures.video
           "137" "720p" 42 "/tmp/bot_downloads/Clip_137" "ref123" Fixtures.idle
           Fixtures.emptyWorld); try reflexivity; discriminate.
Defined.

End Completion.

(** * The session store: round trip, deletion, sweep and statistics *)

Module Sessions.
Import RunFacts FlowSpec FlowFacts VideoSessionService SessionSweep.

(** What a stored session gives back: the metadata without the frame
    size. *)
Lemma infoOf_rowOf (videoId : string) (videoInfo : VideoInfoDto) (expiresAt : Z) :
  infoOf (rowOf videoId videoInfo expiresAt) =
  {| id := id videoInfo; url := url videoInfo; title := title videoInfo;
     uploader := uploader videoInfo; duration := duration videoInfo;
     viewCount := viewCount videoInfo; likeCount := likeCount videoInfo;
     uploadDate := uploadDate videoInfo; thumbnail := thumbnail videoInfo;
     width := 0; height := 0; formats := formats videoInfo |}.
Proof.
  assert (forall s, Js.orString (Some s) "" = s) as Hs.
  { intros s. unfold Js.orString. by destruct (String.eqb_spec s ""). }
  assert (forall n, Js.orNumber (Some n) 0 = n) as Hn.
  { intros n. unfold Js.orNumber. by destruct (Z.eqb_spec n 0). }
  assert (forall n, Js.orNumber (bigIntOrNull n) 0 = n) as Hb.
  { intros n. unfold Js.orNumber, bigIntOrNull.
    destruct (Z.eqb_spec n 0) as [->|Hne]; [done|].
    by destruct (Z.eqb_spec n 0). }
  unfold infoOf, rowOf.
  cbn [Prisma.videoId Prisma.originalUrl Prisma.title Prisma.uploader
       Prisma.duration Prisma.viewCount Prisma.likeCount Prisma.uploadDate
       Prisma.thumbnail Prisma.formats].
  by rewrite !Hs, !Hn, !Hb.
Qed.

Section Store.
Context (o : Oracle).

(** A [save] that returns has inserted its row. *)
Lemma run_save_done (videoId : string) (videoInfo : VideoInfoDto)
  (m : Mem) (w : World) :
  snd (fst (run o (save videoId videoInfo m) w)) = inr tt ->
  videoSessions (snd (run o (save videoId videoInfo m) w)) =
  <[videoId := rowOf videoId videoInfo (clock w + sevenDays)]> (videoSessions w).
Proof.
  unfold save. rewrite run_bind, run_sync, SessionStore.perform_dateNow.
  cbn [fst snd]. rewrite run_tryCatch, run_mbind, run_await.
  unfold perform, outcome, effect. cbn [infallible determined].
  destruct (fault o (PrismaCreate _)) as [e|]; cbn [fst snd].
  { by rewrite run_mbind, run_log, run_throw. }
  unfold sessionCreate. cbn [Prisma.id rowOf record videoSessions clock].
  destruct (videoSessions w !! videoId) as [row|]; cbn [fst snd].
  { by rewrite run_mbind, run_log, run_throw. }
  by rewrite run_log.
Qed.

(** Round trip.  A session that [save] has stored is returned by [get]
    for seven days, as long as its row is in the table: with every field of
    the metadata but the frame size, which the table does not hold. *)
Theorem save_then_get (videoId : string) (videoInfo : VideoInfoDto)
  (m m' : Mem) (w w' : World) :
  snd (fst (run o (save videoId videoInfo m) w)) = inr tt ->
  videoSessions w' !! videoId =
    videoSessions (snd (run o (save videoId videoInfo m) w)) !! videoId ->
  clock w' <= clock w + sevenDays ->
  fault o (PrismaFindUnique videoId) = None ->
  fst (run o (get videoId m') w') =
  (m', inr (Some {| id := id videoInfo; url := url videoInfo;
                    title := title videoInfo; uploader := uploader videoInfo;
                    duration := duration videoInfo;
                    viewCount := viewCount videoInfo;
                    likeCount := likeCount videoInfo;
                    uploadDate := uploadDate videoInfo;
                    thumbnail := thumbnail videoInfo;
                    width := 0; height := 0; formats := formats videoInfo |})).
Proof.
  intros Hsaved Hrow Hclock Hfind.
  rewrite (run_save_done _ _ _ _ Hsaved), lookup_insert_eq in Hrow.
  destruct (SessionStore.run_get_live o videoId m' w' _ Hfind Hrow) as [-> _];
    [done|].
  by rewrite infoOf_rowOf.
Qed.

Lemma run_delete_other (videoId other : string) (m : Mem) (w : World) :
  other <> videoId ->
  videoSessions (snd (run o (delete videoId m) w)) !! other =
  videoSessions w !! other.
Proof.
  intros Hne. unfold delete.
  rewrite run_tryCatch, run_mbind, run_await.
  unfold perform, outcome, effect. cbn [infallible determined].
  destruct (fault o (PrismaDelete videoId)) as [e|]; cbn [fst snd].
  { by destruct (negb _). }
  unfold sessionDelete.
  destruct (videoSessions w !! videoId) as [row|] eqn:Hrow; cbn [fst snd].
  - rewrite run_log. cbn [fst snd record withSessions videoSessions].
    by rewrite lookup_delete_ne.
  - done.
Qed.

(** [delete] never throws and is idempotent: it leaves the memory and
    every other session alone; when the store executes the statement the
    session is gone afterwards; and for a session that was not there the
    only trace is the statement with the answer of the store, no error
    being logged. *)
Theorem delete_result (videoId : string) (m : Mem) (w : World) :
  let result := run o (delete videoId m) w in
  fst result = (m, inr tt) /\
  (forall other, other <> videoId ->
     videoSessions (snd result) !! other = videoSessions w !! other) /\
  (fault o (PrismaDelete videoId) = None ->
   videoSessions (snd result) !! videoId = None /\
   (videoSessions w !! videoId = None ->
    trace (snd result) =
    trace w ++ [Ev (PrismaDelete videoId) (inl recordNotFound)])).
Proof.
  intros result. subst result. unfold delete.
  rewrite run_tryCatch, run_mbind, run_await.
  unfold perform, outcome, effect. cbn [infallible determined].
  destruct (fault o (PrismaDelete videoId)) as [e|]; cbn [fst snd].
  { split_and!; [|by destruct (negb _)|done]. by destruct (negb _). }
  unfold sessionDelete.
  destruct (videoSessions w !! videoId) as [row|] eqn:Hrow; cbn [fst snd].
  - rewrite run_log. cbn [fst snd record withSessions videoSessions].
    split_and!; [done| |].
    + intros other Hne. by rewrite lookup_delete_ne.
    + intros _. split; [apply lookup_delete_eq|done].
  - done.
Qed.

(** [get] never throws and leaves the memory alone; it leaves every other
    session alone, and its own one too unless that has expired. *)
Theorem get_touches_own_row (videoId : string) (m : Mem) (w : World) :
  let result := run o (get videoId m) w in
  fst (fst result) = m /\
  (exists found, snd (fst result) = inr found) /\
  (forall other, other <> videoId ->
     videoSessions (snd result) !! other = videoSessions w !! other) /\
  (forall session, videoSessions w !! videoId = Some session ->
     clock w <= Prisma.expiresAt session ->
     videoSessions (snd result) = videoSessions w).
Proof.
  intros result. subst result.
  destruct (fault o (PrismaFindUnique videoId)) as [e|] eqn:Hf.
  { destruct (SessionStore.run_get_unreachable o videoId m w e Hf) as [H1 H2].
    rewrite H1, H2. cbn [fst snd]. eauto. }
  destruct (videoSessions w !! videoId) as [session|] eqn:Hrow.
  2:{ destruct (SessionStore.run_get_absent o videoId m w Hf Hrow) as [H1 H2].
      rewrite H1, H2. cbn [fst snd]. split_and!; eauto. }
  destruct (Z.lt_ge_cases (Prisma.expiresAt session) (clock w)) as [Hexp|Hlive].
  - destruct (SessionStore.run_get_expired o videoId m w session Hf Hrow Hexp)
      as [H1 _].
    rewrite H1. cbn [fst snd]. split_and!; eauto.
    + intros other Hne. unfold get.
      rewrite run_tryCatch, run_bind, run_await.
      rewrite SessionStore.perform_findUnique by done. cbn [fst snd]. rewrite Hrow.
      rewrite run_bind, run_sync, SessionStore.perform_dateNow.
      cbn [fst snd clock record].
      destruct (Z.ltb_spec (Prisma.expiresAt session) (clock w)); [|lia].
      rewrite run_mbind, run_log, run_mbind.
      match goal with |- context [run o (delete videoId m) ?w1] =>
        pose proof (SessionStore.run_delete o videoId m w1) as [Hd1 _];
        pose proof (run_delete_other videoId other m w1 Hne) as Hd2;
        destruct (run o (delete videoId m) w1) as [[m' r] w'] end.
      simpl in Hd1, Hd2. injection Hd1 as -> ->. rewrite run_ret.
      cbn [snd]. by rewrite Hd2.
    + intros session' [= <-] ?. lia.
  - destruct (SessionStore.run_get_live o videoId m w session Hf Hrow Hlive)
      as [H1 H2].
    rewrite H1, H2. cbn [fst snd]. split_and!; eauto.
Qed.

End Store.
(** The round trip at work: a session saved at time 1000 is returned at
    that time, its frame size set to 0. *)
Lemma save_then_get_witness :
  fst (run Fixtures.calm (get "s2" Fixtures.idle)
         (snd (run Fixtures.calm (save "s2" Fixtures.video Fixtures.idle)
                 Fixtures.emptyWorld))) =
  (Fixtures.idle, inr (Some Fixtures.video)).
Proof.
  apply (save_then_get Fixtures.calm "s2" Fixtures.video Fixtures.idle Fixtures.idle
           Fixtures.emptyWorld
           (snd (run Fixtures.calm (save "s2" Fixtures.video Fixtures.idle)
                   Fixtures.emptyWorld))).
  - reflexivity.
  - reflexivity.
  - vm_compute. discriminate.
  - reflexivity.
Defined.

(** ** The sweep *)

Lemma count_split (matches : Prisma.VideoSession -> bool)
  (table : gmap string Prisma.VideoSession) :
  Z.of_nat (size table) =
  count matches table +
  Z.of_nat (size (filter (fun kv => matches kv.2 = false) table)).
Proof.
  unfold count.
  rewrite <- (map_filter_union_complement (fun kv => matches kv.2 = true) table) at 1.
  rewrite map_size_disj_union by apply map_disjoint_filter_complement.
  rewrite Nat2Z.inj_add. do 3 f_equal. apply map_filter_ext.
  intros sid row _. cbn. by destruct (matches row).
Qed.

Lemma lookup_swept (now : Z) (table : gmap string Prisma.VideoSession)
  (sid : string) (row : Prisma.VideoSession) :
  snd (deleteMany (expiredAt now) table) !! sid = Some row <->
  table !! sid = Some row /\ now <= Prisma.expiresAt row.
Proof.
  unfold deleteMany, expiredAt. cbn [snd]. rewrite map_lookup_filter_Some. cbn.
  by rewrite Z.ltb_ge.
Qed.

Lemma cleanExpired_world (w : World) :
  videoSessions (snd (cleanExpired None w)) =
    snd (deleteMany (expiredAt (clock w)) (videoSessions w)) /\
  clock (snd (cleanExpired None w)) = clock w.
Proof. unfold cleanExpired. cbn [snd]. by destruct (0 <? _). Qed.

(** [cleanExpired] removes the sessions that have expired, and only those:
    a session is in the table afterwards exactly when it was there and has
    not expired, the boundary [expiresAt = now] included; the number it
    returns is the number of rows removed.  When the store fails it
    returns 0 and the table is as before. *)
Theorem cleanExpired_sweeps (w : World) :
  let swept := cleanExpired None w in
  (forall sid row,
     videoSessions (snd swept) !! sid = Some row <->
     videoSessions w !! sid = Some row /\ clock w <= Prisma.expiresAt row) /\
  Z.of_nat (size (videoSessions w)) =
    fst swept + Z.of_nat (size (videoSessions (snd swept))) /\
  forall error,
    fst (cleanExpired (Some error) w) = 0 /\
    videoSessions (snd (cleanExpired (Some error) w)) = videoSessions w.
Proof.
  intros swept. subst swept. destruct (cleanExpired_world w) as [Ht _].
  split_and!.
  - intros sid row. rewrite Ht. apply lookup_swept.
  - rewrite Ht. unfold cleanExpired, deleteMany. cbn [fst snd]. apply count_split.
  - done.
Qed.

(** The sweep does not change what a lookup returns: the sessions it
    removes are those that [get] would not have returned. *)
Theorem sweep_keeps_lookups (o : Oracle) (videoId : string) (m : Mem) (w : World) :
  fst (run o (get videoId m) (snd (cleanExpired None w))) =
  fst (run o (get videoId m) w).
Proof.
  destruct (cleanExpired_world w) as [Ht Hclock].
  set (w' := snd (cleanExpired None w)) in *.
  destruct (fault o (PrismaFindUnique videoId)) as [e|] eqn:Hf.
  { destruct (SessionStore.run_get_unreachable o videoId m w e Hf) as [-> _].
    by destruct (SessionStore.run_get_unreachable o videoId m w' e Hf) as [-> _]. }
  destruct (videoSessions w !! videoId) as [session|] eqn:Hrow.
  2:{ destruct (SessionStore.run_get_absent o videoId m w Hf Hrow) as [-> _].
      destruct (SessionStore.run_get_absent o videoId m w' Hf) as [-> _]; [|done].
      destruct (videoSessions w' !! videoId) as [row|] eqn:Hrow'; [|done].
      rewrite Ht in Hrow'. apply lookup_swept in Hrow' as [? _]. congruence. }
  destruct (Z.lt_ge_cases (Prisma.expiresAt session) (clock w)) as [Hexp|Hlive].
  - destruct (SessionStore.run_get_expired o videoId m w session Hf Hrow Hexp)
      as [-> _].
    destruct (SessionStore.run_get_absent o videoId m w' Hf) as [-> _]; [|done].
    destruct (videoSessions w' !! videoId) as [row|] eqn:Hrow'; [|done].
    rewrite Ht in Hrow'. apply lookup_swept in Hrow' as [? ?].
    assert (row = session) as -> by congruence. lia.
  - destruct (SessionStore.run_get_live o videoId m w session Hf Hrow Hlive)
      as [-> _].
    destruct (SessionStore.run_get_live o videoId m w' session Hf) as [-> _];
      [| |done].
    + rewrite Ht. by apply lookup_swept.
    + by rewrite Hclock.
Qed.

(** [getStats] when the store answers: the three numbers add up, none is
    negative, and [active] counts the sessions a lookup would return.
    After a sweep, nothing is expired and the active sessions are the
    same. *)
Theorem getStats_consistent (w : World) :
  let stats := fst (getStats None None w) in
  let after := fst (getStats None None (snd (cleanExpired None w))) in
  total stats = expired stats + active stats /\
  0 <= expired stats /\ 0 <= active stats /\
  active stats =
    count (fun row => negb (expiredAt (clock w) row)) (videoSessions w) /\
  expired after = 0 /\ active after = active stats /\
  total after = active stats.
Proof.
  intros stats after.
  assert (forall now table,
    count (fun _ => true) table - count (expiredAt now) table =
    count (fun row => negb (expiredAt now row)) table) as Hactive.
  { intros now table. unfold count at 1.
    rewrite map_filter_id by done.
    rewrite (count_split (expiredAt now) table).
    unfold count. ring_simplify. do 2 f_equal. apply map_filter_ext.
    intros sid row _. cbn. by destruct (expiredAt now row). }
  assert (forall now table,
    count (expiredAt now) (snd (deleteMany (expiredAt now) table)) = 0) as Hnone.
  { intros now table. unfold count, deleteMany. cbn [snd].
    rewrite map_filter_filter, map_empty_filter_2; [by rewrite map_size_empty|].
    intros sid row _. cbn. by destruct (expiredAt now row); intros [? ?]. }
  assert (forall now table,
    count (fun _ => true) (snd (deleteMany (expiredAt now) table)) =
    count (fun row => negb (expiredAt now row)) table) as Hkept.
  { intros now table. unfold count at 1.
    rewrite map_filter_id by done.
    unfold count, deleteMany. cbn [snd]. do 2 f_equal. apply map_filter_ext.
    intros sid row _. cbn. by destruct (expiredAt now row). }
  destruct (cleanExpired_world w) as [Ht Hclock].
  subst stats after. unfold getStats. cbn [fst total expired active].
  rewrite Ht, Hclock, Hnone, Hkept.
  pose proof (Hactive (clock w) (videoSessions w)) as Ha.
  assert (0 <= count (expiredAt (clock w)) (videoSessions w)) as Hexp
    by (unfold count; lia).
  assert (0 <= count (fun row => negb (expiredAt (clock w) row)) (videoSessions w))
    as Hlive by (unfold count; lia).
  split_and!; lia.
Qed.

End Sessions.

(** * The handlers of an update *)

Module Handlers.
Import RunFacts FlowSpec FlowFacts HandlerSpec SelectionSpec PresentationSpec.
Import YtdlpService VideoSessionService DownloaderService.

Lemma spares_files {T} (c : call T) :
  sparesFilesAndCache c = true -> writesFiles c = false.
Proof. unfold sparesFilesAndCache. by intros [? ?]%negb_true_iff%orb_false_elim. Qed.

Lemma spares_cache {T} (c : call T) :
  sparesFilesAndCache c = true -> writesCache c = false.
Proof. unfold sparesFilesAndCache. by intros [? ?]%negb_true_iff%orb_false_elim. Qed.

Section Url.
Context (d : Deps) (o : Oracle).

Lemma analysisFailed_neverThrows (ctx : Context) (chatId : Z)
  (progressMsg : Message) (error : Error) :
  neverThrows (analysisFailed ctx chatId (Some progressMsg) error).
Proof.
  unfold analysisFailed. apply neverThrows_mbind; [apply neverThrows_log|].
  intros _. apply neverThrows_swallow.
Qed.

Lemma handleUrl_spares (ctx : Context) (target : string) :
  makesOnly (fun T c => sparesFilesAndCache c = true) (handleUrl d ctx target).
Proof.
  unfold handleUrl, attempt, present, analysisFailed, offerChoices,
    getVideoInfo, save.
  makes_only.
Qed.

(** Once its first message has reached the user, [handleUrl] never throws:
    whatever fails afterwards is turned into the message that the link
    could not be analysed.  In no case does the handler start a download:
    it creates or removes no file and leaves the result cache alone. *)
Theorem handleUrl_contained (ctx : Context) (chatId : Z) (target : string)
  (m : Mem) (w : World) :
  let result := run o (handleUrl d ctx target m) w in
  chat ctx = Some chatId ->
  fault o (CtxReply ctx "🔍 Анализирую ссылку...") = None ->
  snd (fst result) = inr tt /\
  files (snd result) = files w /\
  cacheTable (snd result) = cacheTable w.
Proof.
  intros result Hchat Hack. subst result. split_and!.
  - unfold handleUrl. rewrite Hchat, run_bind. unfold attempt.
    rewrite run_tryCatch, run_bind, run_await.
    rewrite perform_effect by (cbn [infallible]; done).
    cbn [effect determined fst snd]. rewrite run_ret.
    match goal with |- context [tryCatch ?body ?h] =>
      destruct (neverThrows_tryCatch body h
                  (analysisFailed_neverThrows ctx chatId _) o m
                  (record (Ev (CtxReply ctx "🔍 Анализирую ссылку...")
                             (inr (reply o (CtxReply ctx "🔍 Анализирую ссылку..."))))
                     w)) as [[] ->] end.
    done.
  - apply (callsOnly_frame files (fun T c => sparesFilesAndCache c = true)).
    + intros T c w' Hc. by apply perform_files, spares_files.
    + apply handleUrl_spares.
  - apply (callsOnly_frame cacheTable (fun T c => sparesFilesAndCache c = true)).
    + intros T c w' Hc. by apply perform_cache, spares_cache.
    + apply handleUrl_spares.
Qed.

End Url.

(** The theorem at work: the fetcher cannot read the metadata; the handler
    ends normally. *)
Lemma handleUrl_contained_witness :
  snd (fst (run Scenarios.fetcherDown
              (handleUrl Fixtures.deps Fixtures.user "https://example.org/x"
                 Fixtures.idle) Fixtures.emptyWorld)) = inr tt.
Proof.
  apply (handleUrl_contained Fixtures.deps Scenarios.fetcherDown Fixtures.user 5
           "https://example.org/x" Fixtures.idle Fixtures.emptyWorld);
    reflexivity.
Defined.

Section Select.
Context (d : Deps) (o : Oracle).
Context (ctx : Context) (userId : Z) (fmt label : string).

Lemma run_get_gone (videoId : string) (m : Mem) (w : World) :
  (forall session, videoSessions w !! videoId = Some session ->
                   Prisma.expiresAt session < clock w) ->
  fst (run o (get videoId m) w) = (m, inr None).
Proof.
  intros Hgone.
  destruct (fault o (PrismaFindUnique videoId)) as [e|] eqn:Hf.
  { by destruct (SessionStore.run_get_unreachable o videoId m w e Hf). }
  destruct (videoSessions w !! videoId) as [session|] eqn:Hrow.
  - by destruct (SessionStore.run_get_expired o videoId m w session Hf Hrow
                   (Hgone _ eq_refl)).
  - by destruct (SessionStore.run_get_absent o videoId m w Hf Hrow).
Qed.

Lemma get_no_cache_write (videoId : string) :
  makesOnly (fun T c => writesCache c = false) (get videoId).
Proof. unfold get, delete. makes_only. Qed.

Lemma handleQualitySelection_no_file (videoId : string) :
  makesOnly (fun T c => writesFiles c = false)
    (handleQualitySelection d ctx videoId fmt label).
Proof.
  unfold handleQualitySelection, sessionData, get, delete, serveFromCache,
    startDownload, deliver, deliveryCall.
  makes_only.
Qed.

(** A selection whose session is neither in the process nor, unexpired, in
    the table: the user is told that the link is out of date, and that is
    all.  No job is registered -- the process memory is as before -- and
    neither the result cache nor a file is touched. *)
Theorem stale_selection (chatId : Z) (videoId : string) (m : Mem) (w : World) :
  let result := run o (handleQualitySelection d ctx videoId fmt label m) w in
  chat ctx = Some chatId -> from ctx = Some userId ->
  videoDataCache m !! videoId = None ->
  (forall session, videoSessions w !! videoId = Some session ->
                   Prisma.expiresAt session < clock w) ->
  fst (fst result) = m /\
  (exists r,
     last (trace (snd result)) =
     Some (Ev (CtxAnswerCallbackQuery ctx
                 "❌ Ссылка устарела. Отправьте видео заново.") r)) /\
  cacheTable (snd result) = cacheTable w /\
  files (snd result) = files w.
Proof.
  intros result Hchat Hfrom Hunknown Hgone. subst result.
  split_and!; [| | |apply callsOnly_files, handleQualitySelection_no_file].
  all: unfold handleQualitySelection, sessionData.
  all: rewrite Hchat, Hfrom, !run_bind, run_getMem, Hunknown, run_bind.
  all: pose proof (run_get_gone videoId m w Hgone) as Hget.
  all: pose proof (callsOnly_cache o _ w (get_no_cache_write videoId m)) as Hcache.
  all: destruct (run o (get videoId m) w) as [[m' r] w1].
  all: simpl in Hget, Hcache; injection Hget as -> ->.
  all: rewrite run_ret, run_await; cbn [fst snd].
  - done.
  - rewrite perform_trace, last_snoc. eauto.
  - by rewrite perform_cache.
Qed.

(** Write-through without expiry.  Once a selection has read a session
    from the table, the process serves it from its own memory: a later
    lookup makes no call at all and returns the same metadata, whatever the
    table holds and whatever the time is by then. *)
Theorem session_write_through (videoId : string)
  (session : Prisma.VideoSession) (m : Mem) (w later : World) :
  let first := run o (sessionData videoId m) w in
  videoDataCache m !! videoId = None ->
  fault o (PrismaFindUnique videoId) = None ->
  videoSessions w !! videoId = Some session ->
  clock w <= Prisma.expiresAt session ->
  snd (fst first) = inr (Some (infoOf session)) /\
  run o (sessionData videoId (fst (fst first))) later =
    (fst (fst first), inr (Some (infoOf session)), later).
Proof.
  intros first Hunknown Hfind Hrow Hlive. subst first.
  rewrite (Selection.run_sessionData_stored o videoId session m w) by done.
  cbn [fst snd]. split; [done|].
  apply Selection.run_sessionData_known.
  cbn [setVideoDataCache videoDataCache]. apply lookup_insert_eq.
Qed.

(** The [try] block of the cache branch covers the accounting that follows
    the delivery.  When the cached file has been delivered and the record of
    the hit then fails, the request goes on as the download part of the
    method does: the user is answered once more, and a fresh fetch of what
    was just delivered is queued unless one is in flight. *)
Theorem accounting_failure_refetches (chatId : Z) (videoId : string)
  (videoData : VideoInfoDto) (entry : CacheService.Entry) (e : Error)
  (m m1 : Mem) (w w1 : World) :
  let delivery :=
    deliveryCall d ctx videoData label
      (CacheService.fileId (CacheService.data entry)) in
  let recordHit := CacheRecordHit (CacheService.id entry) userId in
  let w3 :=
    record (Ev (Log LevelWarn "FileID протух, качаем заново...") (inr tt))
      (record (Ev recordHit (inl e))
         (record (Ev delivery (inr (reply o delivery)))
            (announced d ctx fmt label videoData entry w1))) in
  chat ctx = Some chatId -> from ctx = Some userId ->
  run o (sessionData videoId m) w = (m1, inr (Some videoData), w1) ->
  cacheTable w1 !! (id videoData, fmt, label) = Some entry ->
  fault o (CacheGet (id videoData, fmt, label)) = None ->
  fault o (CtxAnswerCallbackQuery ctx (hitText d)) = None ->
  fault o delivery = None ->
  fault o recordHit = Some e ->
  run o (handleQualitySelection d ctx videoId fmt label m) w =
  run o (startDownload d ctx videoData fmt label userId m1) w3.
Proof.
  intros delivery recordHit w3 Hchat Hfrom Hsession Hentry Hget Hanswer Hdel Hhit.
  erewrite Selection.run_handleQualitySelection by done.
  rewrite run_bind, run_await, Selection.perform_cacheGet by done.
  cbn [fst snd]. rewrite Hentry.
  rewrite run_bind. unfold serveFromCache.
  rewrite run_mbind, run_log, run_mbind, run_await.
  fold (hitText d). rewrite Selection.perform_answer by done.
  cbn [fst snd]. fold (announced d ctx fmt label videoData entry w1).
  rewrite run_tryCatch, run_mbind. unfold deliver. rewrite run_await.
  fold delivery.
  pose proof (Selection.perform_delivery d o ctx label videoData
                (CacheService.fileId (CacheService.data entry))
                (announced d ctx fmt label videoData entry w1)) as Hd.
  cbn zeta in Hd. fold delivery in Hd. rewrite Hd, Hdel. clear Hd.
  cbn [fst snd]. rewrite run_mbind, run_await.
  fold recordHit. rewrite (perform_faulty o recordHit e) by done.
  cbn [fst snd]. by rewrite run_mbind, run_log.
Qed.

End Select.

(** The theorems at work.  A selection for the session "s1" at time 1000,
    when the table holds it as expired at 500 and the process does not know
    it. *)
Lemma stale_selection_witness :
  fst (fst (run Fixtures.calm
              (handleQualitySelection Fixtures.deps Fixtures.user "s1" "137" "720p"
                 Fixtures.idle) (Fixtures.worldAt 1000))) = Fixtures.idle.
Proof.
  apply (stale_selection Fixtures.deps Fixtures.calm Fixtures.user 42 "137" "720p"
           5 "s1" Fixtures.idle (Fixtures.worldAt 1000)); try reflexivity.
  intros session. vm_compute. by intros [= <-].
Defined.

(** The session "s1", stored until 500, is read at time 400; at time 1000,
    with an empty table, the process still serves it. *)
Lemma session_write_through_witness :
  snd (fst (run Fixtures.calm (sessionData "s1" Fixtures.idle)
              (Fixtures.worldAt 400))) =
    inr (Some (infoOf Fixtures.storedSession)) /\
  run Fixtures.calm
    (sessionData "s1"
       (fst (fst (run Fixtures.calm (sessionData "s1" Fixtures.idle)
                    (Fixtures.worldAt 400)))))
    Fixtures.emptyWorld =
  (fst (fst (run Fixtures.calm (sessionData "s1" Fixtures.idle)
               (Fixtures.worldAt 400))),
   inr (Some (infoOf Fixtures.storedSession)), Fixtures.emptyWorld).
Proof.
  apply (session_write_through Fixtures.calm "s1" Fixtures.storedSession
           Fixtures.idle (Fixtures.worldAt 400) Fixtures.emptyWorld);
    try reflexivity.
  vm_compute. discriminate.
Defined.

(** The cached 720p rendition is delivered, the record of the hit fails:
    the job for a fresh fetch is registered. *)
Lemma accounting_failure_refetches_witness :
  fst (run Scenarios.hitAccountingDown
         (handleQualitySelection Fixtures.deps Fixtures.user "s1" "137" "720p"
            Fixtures.withSession) Fixtures.cachedWorld) =
  (register Fixtures.deps (jobOf Fixtures.user 42 "137" "720p" Fixtures.video)
     Fixtures.withSession, inr tt).
Proof.
  rewrite (accounting_failure_refetches Fixtures.deps Scenarios.hitAccountingDown
             Fixtures.user 42 "137" "720p" 5 "s1" Fixtures.video
             Fixtures.cachedEntry (newError "connection lost")
             Fixtures.withSession Fixtures.withSession Fixtures.cachedWorld
             Fixtures.cachedWorld eq_refl eq_refl eq_refl eq_refl eq_refl eq_refl
             eq_refl eq_refl).
  vm_compute. reflexivity.
Defined.

End Handlers.

(** * The keyboards of [handleUrl] and the sessions behind them *)

Module Keyboards.
Import RunFacts FlowSpec FlowFacts HandlerSpec PresentationSpec.
Import YtdlpService VideoSessionService DownloaderService.

Lemma quiet_events (evs : list Event) :
  eventsOnly (fun T c => showsNoKeyboard c = true) evs ->
  Forall (fun e => offered e = None) evs.
Proof.
  unfold eventsOnly. intros Hevs. eapply Forall_impl; [exact Hevs|].
  intros [T c r] Hc. destruct c; try done. simpl in *. by destruct keyboard.
Qed.

Section Url.
Context (d : Deps) (o : Oracle).

Lemma quiet_run {A} (x : M A) (m : Mem) (w : World) :
  makesOnly (fun T c => showsNoKeyboard c = true) x ->
  exists evs,
    trace (snd (run o (x m) w)) = trace w ++ evs /\
    Forall (fun e => offered e = None) evs.
Proof.
  intros Hx. destruct (callsOnly_run _ o (x m) w (Hx m)) as (evs & Ht & Hevs).
  exists evs. split; [done|]. by apply quiet_events.
Qed.

Lemma run_clock {A} (s : step A) (w : World) : clock (snd (run o s w)) = clock w.
Proof.
  apply (callsOnly_frame clock (fun _ _ => True)).
  - intros T c w' _. apply perform_clock.
  - induction s as [m r|T aw c m k IH]; constructor; auto.
Qed.

Lemma getVideoInfo_quiet (target : string) :
  makesOnly (fun T c => showsNoKeyboard c = true) (getVideoInfo d target).
Proof. unfold getVideoInfo. makes_only. Qed.

Lemma getVideoInfo_keepsMem (target : string) : keepsMem (getVideoInfo d target).
Proof. unfold getVideoInfo. keeps_mem. Qed.

Lemma save_quiet (videoId : string) (videoInfo : VideoInfoDto) :
  makesOnly (fun T c => showsNoKeyboard c = true) (save videoId videoInfo).
Proof. unfold save. makes_only. Qed.

Lemma save_keepsMem (videoId : string) (videoInfo : VideoInfoDto) :
  keepsMem (save videoId videoInfo).
Proof. unfold save. keeps_mem. Qed.

Lemma offerChoices_keepsMem (ctx : Context) (chatId : Z) (progressMsg : Message)
  (sessionId : string) (videoInfo : VideoInfoDto) :
  keepsMem (offerChoices d ctx chatId progressMsg sessionId videoInfo).
Proof. unfold offerChoices. keeps_mem. Qed.

Lemma offerChoices_no_session_write (ctx : Context) (chatId : Z)
  (progressMsg : Message) (sessionId : string) (videoInfo : VideoInfoDto) :
  makesOnly (fun T c => writesSessions c = false)
    (offerChoices d ctx chatId progressMsg sessionId videoInfo).
Proof. unfold offerChoices. makes_only. Qed.

Lemma analysisFailed_quiet (ctx : Context) (chatId : Z)
  (progressMsg : option Message) (error : Error) :
  makesOnly (fun T c => showsNoKeyboard c = true)
    (analysisFailed ctx chatId progressMsg error).
Proof. unfold analysisFailed. makes_only. Qed.

Lemma analysisFailed_keepsMem (ctx : Context) (chatId : Z)
  (progressMsg : option Message) (error : Error) :
  keepsMem (analysisFailed ctx chatId progressMsg error).
Proof. unfold analysisFailed. keeps_mem. Qed.

Lemma analysisFailed_no_session_write (ctx : Context) (chatId : Z)
  (progressMsg : option Message) (error : Error) :
  makesOnly (fun T c => writesSessions c = false)
    (analysisFailed ctx chatId progressMsg error).
Proof. unfold analysisFailed. makes_only. Qed.

(** The keyboards that an event may show when the session [sessionId] with
    the metadata [videoInfo] is on offer. *)
Lemma quiet_good (sessionId : string) (videoInfo : VideoInfoDto)
  (evs : list Event) :
  Forall (fun e => offered e = None) evs ->
  Forall (fun e => forall kb, offered e = Some kb ->
            kb = keyboardFor d sessionId (visibleFormats (formats videoInfo))) evs.
Proof.
  intros Hq. eapply Forall_impl; [exact Hq|]. intros e He kb Hkb. congruence.
Qed.

(** The body of the [try] block: either no keyboard is shown, or the
    session is stored, in the process and in the table, and every keyboard
    shown is the one of that session. *)
Lemma run_present (ctx : Context) (chatId : Z) (progressMsg : Message)
  (target : string) (m : Mem) (w : World) :
  exists evs,
    trace (snd (run o (present d ctx chatId progressMsg target m) w)) =
      trace w ++ evs /\
    (Forall (fun e => offered e = None) evs \/
     exists sessionId videoInfo,
       fst (fst (run o (present d ctx chatId progressMsg target m) w)) =
         setVideoDataCache (insert sessionId videoInfo) m /\
       videoSessions (snd (run o (present d ctx chatId progressMsg target m) w))
         !! sessionId =
         Some (rowOf sessionId videoInfo (clock w + sevenDays)) /\
       Forall (fun e => forall kb, offered e = Some kb ->
                 kb = keyboardFor d sessionId (visibleFormats (formats videoInfo)))
         evs).
Proof.
  unfold present. rewrite run_bind.
  pose proof (getVideoInfo_keepsMem target o m w) as Hm.
  destruct (quiet_run (getVideoInfo d target) m w (getVideoInfo_quiet target))
    as (evsG & HtG & HqG).
  pose proof (run_clock (getVideoInfo d target m) w) as HkG.
  destruct (run o (getVideoInfo d target m) w) as [[mG [e|videoInfo]] wG];
    simpl in Hm, HtG, HkG; subst mG.
  { exists evsG. split; [done|]. by left. }
  rewrite run_bind, run_sync.
  pose proof (perform_trace o (RandomBytesHex 8) wG) as HtR.
  pose proof (perform_clock o (RandomBytesHex 8) wG) as HkR.
  destruct (perform o (RandomBytesHex 8) wG) as [[e|sessionId] w2];
    cbn [fst snd] in *.
  { cbn [fst snd]. eexists. rewrite HtR, HtG, <- app_assoc.
    split; [done|]. left.
    apply Forall_app. split; [done|]. by repeat constructor. }
  rewrite run_mbind, run_modifyMem. cbn [fst snd].
  set (m2 := setVideoDataCache (insert sessionId videoInfo) m).
  rewrite run_mbind.
  pose proof (save_keepsMem sessionId videoInfo o m2 w2) as HmS.
  destruct (quiet_run (save sessionId videoInfo) m2 w2 (save_quiet _ _))
    as (evsS & HtS & HqS).
  pose proof (Sessions.run_save_done o sessionId videoInfo m2 w2) as HsS.
  destruct (run o (save sessionId videoInfo m2) w2) as [[mS [e|[]]] wS];
    simpl in HmS, HtS, HsS; subst mS.
  { cbn [fst snd]. eexists. rewrite HtS, HtR, HtG, <- !app_assoc.
    split; [done|]. left.
    rewrite !Forall_app. split_and!; [done| |done]. by repeat constructor. }
  specialize (HsS eq_refl).
  pose proof (offerChoices_keepsMem ctx chatId progressMsg sessionId videoInfo
                o m2 wS) as HmO.
  pose proof (callsOnly_sessions o _ wS
                (offerChoices_no_session_write ctx chatId progressMsg sessionId
                   videoInfo m2)) as HsO.
  destruct (Presentation.run_offerChoices d o ctx chatId progressMsg sessionId
              videoInfo m2 wS) as (evsO & HtO & HgO & _).
  eexists. rewrite HtO, HtS, HtR, HtG, <- !app_assoc. split; [done|]. right.
  exists sessionId, videoInfo. split_and!.
  - done.
  - rewrite HsO, HsS, lookup_insert_eq, HkR, HkG. done.
  - rewrite !Forall_app. split_and!.
    + by apply quiet_good.
    + by repeat constructor.
    + by apply quiet_good.
    + eapply Forall_impl; [exact HgO|]. intros e He kb Hkb.
      by destruct (He kb Hkb).
Qed.

(** Every keyboard that [handleUrl] shows belongs to a stored session: when
    an event of the handler carries a keyboard, the process memory and the
    session table hold, under one session id, the metadata from which the
    keyboard was made, the row expiring seven days after the request. *)
Theorem keyboards_have_sessions (ctx : Context) (target : string)
  (m : Mem) (w : World) :
  let result := run o (handleUrl d ctx target m) w in
  exists evs,
    trace (snd result) = trace w ++ evs /\
    forall e kb, e ∈ evs -> offered e = Some kb ->
      exists sessionId videoInfo,
        videoDataCache (fst (fst result)) !! sessionId = Some videoInfo /\
        videoSessions (snd result) !! sessionId =
          Some (rowOf sessionId videoInfo (clock w + sevenDays)) /\
        kb = keyboardFor d sessionId (visibleFormats (formats videoInfo)).
Proof.
  intros result. subst result. unfold handleUrl.
  assert (forall evs : list Event,
    Forall (fun e => offered e = None) evs ->
    forall e kb, e ∈ evs -> offered e = Some kb -> False) as Hquiet.
  { intros evs Hq e kb He Hkb. rewrite Forall_forall in Hq.
    specialize (Hq e He). congruence. }
  destruct (chat ctx) as [chatId|].
  2:{ match goal with |- context [run o (?x m) w] =>
        destruct (quiet_run x m w) as (evs & Ht & Hq); [makes_only|] end.
      exists evs. split; [done|]. intros e kb He Hkb.
      by destruct (Hquiet evs Hq e kb He Hkb). }
  rewrite run_bind. unfold attempt. rewrite run_tryCatch, run_bind, run_await.
  set (ack := CtxReply ctx "🔍 Анализирую ссылку...").
  pose proof (perform_trace o ack w) as HtA.
  pose proof (perform_clock o ack w) as HkA.
  destruct (perform o ack w) as [[e|progressMsg] w1]; cbn [fst snd] in *.
  - rewrite run_ret.
    destruct (quiet_run (analysisFailed ctx chatId None e) m w1
                (analysisFailed_quiet ctx chatId None e)) as (evs & Ht & Hq).
    eexists. rewrite Ht, HtA, <- app_assoc. split; [done|].
    intros e' kb He Hkb. exfalso.
    apply (Hquiet (Ev ack (inl e) :: evs)) with e' kb; [|exact He|exact Hkb].
    by constructor.
  - rewrite run_ret, run_tryCatch.
    destruct (run_present ctx chatId progressMsg target m w1)
      as (evsP & HtP & Hcases).
    destruct (run o (present d ctx chatId progressMsg target m) w1)
      as [[mP rP] wP] eqn:HP. cbn [fst snd] in HtP, Hcases.
    assert (forall mF wF evsH,
      mF = mP -> videoSessions wF = videoSessions wP ->
      trace wF = trace wP ++ evsH -> Forall (fun e => offered e = None) evsH ->
      exists evs,
        trace wF = trace w ++ evs /\
        forall e kb, e ∈ evs -> offered e = Some kb ->
          exists sessionId videoInfo,
            videoDataCache mF !! sessionId = Some videoInfo /\
            videoSessions wF !! sessionId =
              Some (rowOf sessionId videoInfo (clock w + sevenDays)) /\
            kb = keyboardFor d sessionId (visibleFormats (formats videoInfo)))
      as Hfinish.
    { intros mF wF evsH -> HsF HtF HqF.
      eexists. rewrite HtF, HtP, HtA, <- !app_assoc. split; [done|].
      intros e kb He Hkb.
      apply elem_of_cons in He as [->|He]; [done|].
      apply elem_of_app in He as [He|He];
        [|by destruct (Hquiet evsH HqF e kb He Hkb)].
      destruct Hcases as [Hq|(sessionId & videoInfo & Hmem & Hrow & Hgood)];
        [by destruct (Hquiet evsP Hq e kb He Hkb)|].
      exists sessionId, videoInfo. split_and!.
      + rewrite Hmem. cbn [setVideoDataCache videoDataCache].
        apply lookup_insert_eq.
      + by rewrite HsF, Hrow, HkA.
      + rewrite Forall_forall in Hgood. by apply (Hgood e). }
    destruct rP as [e|[]]; cbn [fst snd].
    + pose proof (analysisFailed_keepsMem ctx chatId (Some progressMsg) e o mP wP)
        as Hm.
      pose proof (callsOnly_sessions o _ wP
                    (analysisFailed_no_session_write ctx chatId
                       (Some progressMsg) e mP)) as Hs.
      destruct (quiet_run (analysisFailed ctx chatId (Some progressMsg) e) mP wP
                  (analysisFailed_quiet ctx chatId (Some progressMsg) e))
        as (evsH & Ht & Hq).
      destruct (run o (analysisFailed ctx chatId (Some progressMsg) e mP) wP)
        as [[mF rF] wF]. cbn [fst snd] in *.
      by apply (Hfinish mF wF evsH).
    + apply (Hfinish mP wP []); [done..|by rewrite app_nil_r|constructor].
Qed.

End Url.
(** The theorem at work: the keyboard shown for the sample clip, with its
    720p and audio buttons, belongs to the session stored for it. *)
Lemma keyboards_have_sessions_witness :
  let result :=
    run Scenarios.clipFetched
      (handleUrl Fixtures.deps Fixtures.user "https://example.org/x" Fixtures.idle)
      Fixtures.emptyWorld in
  exists sessionId videoInfo,
    videoDataCache (fst (fst result)) !! sessionId = Some videoInfo /\
    videoSessions (snd result) !! sessionId =
      Some (rowOf sessionId videoInfo (1000 + sevenDays)) /\
    [{| buttonText := "⭐ 🎥 720p • 9000 B";
        callbackData := "dl|00ff00ff00ff00ff|136|720p" |};
     {| buttonText := "🎵 Аудио • 500 B";
        callbackData := "dl|00ff00ff00ff00ff|140|audio" |}] =
    keyboardFor Fixtures.deps sessionId (visibleFormats (formats videoInfo)).
Proof.
  intros result.
  destruct (keyboards_have_sessions Fixtures.deps Scenarios.clipFetched
              Fixtures.user "https://example.org/x" Fixtures.idle
              Fixtures.emptyWorld) as (evs & Ht & Hkb).
  apply (Hkb (Ev (ApiEditMessageText 5 7 "Clip"
                    (Some [{| buttonText := "⭐ 🎥 720p • 9000 B";
                              callbackData := "dl|00ff00ff00ff00ff|136|720p" |};
                           {| buttonText := "🎵 Аудио • 500 B";
                              callbackData := "dl|00ff00ff00ff00ff|140|audio" |}]))
                (inr tt))); [|reflexivity].
  change (trace Fixtures.emptyWorld ++ evs) with evs in Ht. rewrite <- Ht.
  apply list_elem_of_lookup. exists 8%nat. vm_compute. reflexivity.
Defined.

End Keyboards.

(** * The ladder: sizes, and the order of the choices *)

Module Ladder.
Import Js JsFacts YtdlpService ResolverSpec ResolverFacts DownloaderService.

(** The contest for a height among records none of which is H.264: the
    survivor is at least as large as every record and as the incumbent. *)
Lemma fold_challenge_largest (l : list RawFormat) :
  (forall f, f ∈ l -> isH264 f = false) ->
  forall (incumbent : option FormatDto) (v : FormatDto),
    (forall e, incumbent = Some e -> 0 < filesize e) ->
    fold_left challenge l incumbent = Some v ->
    0 < filesize v /\
    (forall f, f ∈ l -> size f <= filesize v) /\
    (forall e, incumbent = Some e -> filesize e <= filesize v).
Proof.
  induction l as [|f l IH]; intros Hno incumbent v Hpos Hfold; simpl in Hfold.
  - subst incumbent. split_and!.
    + by apply Hpos.
    + by intros f []%elem_of_nil.
    + by intros e [= ->].
  - assert (isH264 f = false) as Hf by (apply Hno; by left).
    assert (forall g, g ∈ l -> isH264 g = false) as Hno'
      by (intros g Hg; apply Hno; by right).
    assert (forall e', Some (videoDto f) = Some e' -> 0 < size f -> 0 < filesize e')
      as Hdto by (by intros e' [= <-]).
    unfold challenge at 2 in Hfold. unfold takes in Hfold. rewrite Hf in Hfold.
    destruct (Z.ltb_spec 0 (size f)) as [Hsize|Hsize]; simpl in Hfold.
    + assert (forall e', Some (videoDto f) = Some e' -> 0 < filesize e') as Hpos'
        by (intros e' He'; by apply Hdto).
      destruct incumbent as [e|].
      * rewrite orb_false_r in Hfold.
        destruct (Z.ltb_spec (filesize e) (size f)) as [Hlt|Hge].
        -- destruct (IH Hno' _ v Hpos' Hfold) as (Hv & Hall & Hinc).
           specialize (Hinc _ eq_refl). simpl in Hinc.
           split_and!; [done| |].
           ++ intros g [->|Hg]%elem_of_cons; [done|by apply Hall].
           ++ intros e' [= <-]. lia.
        -- destruct (IH Hno' _ v Hpos Hfold) as (Hv & Hall & Hinc).
           specialize (Hinc _ eq_refl).
           split_and!; [done| |].
           ++ intros g [->|Hg]%elem_of_cons; [lia|by apply Hall].
           ++ by intros e' [= <-].
      * destruct (IH Hno' _ v Hpos' Hfold) as (Hv & Hall & Hinc).
        specialize (Hinc _ eq_refl). simpl in Hinc.
        split_and!; [done| |done].
        intros g [->|Hg]%elem_of_cons; [done|by apply Hall].
    + destruct (IH Hno' _ v Hpos Hfold) as (Hv & Hall & Hinc).
      split_and!; [done| |done].
      intros g [->|Hg]%elem_of_cons; [lia|by apply Hall].
Qed.

(** A video candidate of the ladder is the survivor at its height. *)
Lemma video_retained (fs : list RawFormat) (h : Z) (v : FormatDto) :
  144 <= h -> v ∈ getBestFormats fs -> quality v = h ->
  retainedAt h fs = Some v.
Proof.
  intros Hh Hv Hq. pose proof (collect_ok fs) as Ha.
  assert (v ∈ sortedVideos (collect fs)) as Hin.
  { unfold getBestFormats in Hv.
    destruct (bestAudio (collect fs)) as [b|] eqn:Eb; [|done].
    apply elem_of_app in Hv as [?|Hb]; [done|].
    apply list_elem_of_singleton in Hb as ->.
    destruct Ha as [_ _ Haud]. unfold bestAudio in Eb. rewrite Haud in Eb.
    apply head_sort_best in Eb as [Hb _]; [|intros; lia..].
    apply list_elem_of_fmap in Hb as (f & -> & _). simpl in Hq. lia. }
  assert (v ∈ filter (fun x => (quality x =? h) = true) (sortedVideos (collect fs)))
    as Hfil.
  { apply list_elem_of_filter. split; [by apply Z.eqb_eq|done]. }
  rewrite Resolver.filter_quality_videos in Hfil by done.
  destruct (retainedAt h fs) as [v'|]; simpl in Hfil.
  - by apply list_elem_of_singleton in Hfil as ->.
  - by apply elem_of_nil in Hfil.
Qed.

(** Where no record of a height is H.264, the rule of the larger size
    holds without exception: the candidate kept at that height declares the
    largest size of all the video-bearing records of that height. *)
Theorem largest_size_without_h264 (fs : list RawFormat) (h : Z) (v : FormatDto) :
  144 <= h ->
  (forall f, f ∈ fs -> hasVideo f = true -> heightOf f = h -> isH264 f = false) ->
  v ∈ getBestFormats fs -> quality v = h ->
  forall f, f ∈ fs -> hasVideo f = true -> heightOf f = h ->
            size f <= filesize v.
Proof.
  intros Hh Hno Hv Hq f Hf Hvid Hheight.
  pose proof (video_retained fs h v Hh Hv Hq) as Hret. unfold retainedAt in Hret.
  apply fold_challenge_largest in Hret as (_ & Hall & _); [|  |done].
  - apply Hall. apply list_elem_of_filter. split; [|done].
    rewrite Hvid. by apply Z.eqb_eq.
  - intros g Hg. apply list_elem_of_filter in Hg as [Hc Hg].
    apply andb_true_iff in Hc as [? ?%Z.eqb_eq]. by apply Hno.
Qed.

(** The theorem at work: of a vp9 record of size 2000 and a vp9 record of
    size 1000 at 720 lines, the candidate kept has size 2000. *)
Lemma largest_size_without_h264_witness :
  size (mkRawFormat "248" (Some "vp9") (Some "none") (Some 1000) None (Some 720))
  <= filesize (videoDto vp9Large).
Proof.
  apply (largest_size_without_h264
           [mkRawFormat "248" (Some "vp9") (Some "none") (Some 1000) None (Some 720);
            vp9Large] 720 (videoDto vp9Large)); try done.
  - intros f [->|[->|[]%elem_of_nil]%elem_of_cons]%elem_of_cons; done.
  - vm_compute. by left.
  - by left.
Defined.

(** ** The order of the choices *)

Lemma insertSorted_ext {A} (cmp cmp' : A -> A -> Z) (x : A) (l : list A) :
  (forall y, y ∈ l -> cmp x y = cmp' x y) ->
  insertSorted cmp x l = insertSorted cmp' x l.
Proof.
  induction l as [|y l IH]; intros Heq; [done|].
  simpl. rewrite (Heq y) by by left.
  destruct (cmp' x y <=? 0); [done|]. f_equal. apply IH.
  intros z Hz. apply Heq. by right.
Qed.

Lemma sort_ext {A} (cmp cmp' : A -> A -> Z) (l : list A) :
  (forall x y, x ∈ l -> y ∈ l -> cmp x y = cmp' x y) ->
  sort cmp l = sort cmp' l.
Proof.
  induction l as [|x l IH]; intros Heq; [done|].
  unfold sort in *. cbn [foldr]. rewrite IH.
  - apply insertSorted_ext. intros y Hy. apply Heq; [by left|].
    right. by rewrite <- (sort_perm cmp' l).
  - intros y z Hy Hz. apply Heq; by right.
Qed.

Lemma List_filter_sublist {A} (p : A -> bool) (l : list A) :
  List.filter p l `sublist_of` l.
Proof.
  induction l as [|x l IH]; [done|]. simpl.
  destruct (p x); by constructor.
Qed.

(** The entries of the ladder that pass the filter of [handleUrl] are
    video candidates; on them the comparator of [handleUrl] compares the
    heights. *)
Lemma inRange_video (fs : list RawFormat) (v : FormatDto) :
  v ∈ List.filter inRange (getBestFormats fs) ->
  v ∈ sortedVideos (collect fs) /\
  parseInt (resolution v) = Some (quality v).
Proof.
  intros Hv. apply list_elem_of_In, filter_In in Hv as [Hin Hr].
  apply list_elem_of_In in Hin. pose proof (collect_ok fs) as Ha.
  assert (v ∈ sortedVideos (collect fs)) as Hvid.
  { unfold getBestFormats in Hin.
    destruct (bestAudio (collect fs)) as [b|] eqn:Eb; [|done].
    apply elem_of_app in Hin as [?|Hb]; [done|].
    apply list_elem_of_singleton in Hb as ->.
    destruct Ha as [_ _ Haud]. unfold bestAudio in Eb. rewrite Haud in Eb.
    apply head_sort_best in Eb as [Hb _]; [|intros; lia..].
    by apply list_elem_of_fmap in Hb as (f & -> & _). }
  split; [done|].
  eapply sortedVideos_from_input in Hvid as (f & _ & _ & ? & _ & -> & _); [|done].
  simpl. apply Labels.parseInt_label. lia.
Qed.

(** The video choices that [handleUrl] offers for a resolved ladder are in
    strictly descending order of height: the best quality comes first and
    no height appears twice. *)
Theorem choices_descending (fs : list RawFormat) :
  StronglySorted (fun a b => quality b < quality a)
    (videoFormatsOf (getBestFormats fs)).
Proof.
  unfold videoFormatsOf.
  set (kept := List.filter inRange (getBestFormats fs)).
  rewrite (sort_ext byHeightDescending (fun a b => quality b - quality a)).
  2:{ intros a b Ha Hb. unfold byHeightDescending.
      apply inRange_video in Ha as [_ ->]. by apply inRange_video in Hb as [_ ->]. }
  apply descending_strict.
  - apply (sort_sorted (fun a b => quality b - quality a)); intros; lia.
  - rewrite sort_perm.
    assert (kept `sublist_of` sortedVideos (collect fs)) as Hsub.
    { subst kept. unfold getBestFormats.
      destruct (bestAudio (collect fs)) as [b|] eqn:Eb;
        [|apply List_filter_sublist].
      rewrite List.filter_app.
      assert (List.filter inRange [b] = []) as ->.
      { pose proof (collect_ok fs) as [_ _ Haud].
        unfold bestAudio in Eb. rewrite Haud in Eb.
        apply head_sort_best in Eb as [Hb _]; [|intros; lia..].
        by apply list_elem_of_fmap in Hb as (f & -> & _). }
      rewrite app_nil_r. apply List_filter_sublist. }
    eapply sublist_NoDup; [|by apply fmap_sublist].
    eapply sortedVideos_nodup, collect_ok.
Qed.

End Ladder.

(** * Escaping *)

Module Escaping.
Import StringFacts Captions CaptionSpec.

Lemma replaceAll_app (c : ascii) (by_ a b : string) :
  replaceAll c by_ (a +:+ b) = replaceAll c by_ a +:+ replaceAll c by_ b.
Proof.
  induction a as [|x a IH]; [done|].
  rewrite app_cons. cbn [replaceAll]. rewrite IH.
  destruct (Ascii.eqb x c); [by rewrite app_assoc|done].
Qed.

(** The three replacements, one character at a time. *)
Lemma escapeHtml_cons (c : ascii) (t : string) :
  escapeHtml (String c t) = entityOf c +:+ escapeHtml t.
Proof.
  unfold escapeHtml, entityOf. cbn [replaceAll].
  destruct (Ascii.eqb_spec c "&") as [->|Hamp].
  { by rewrite !replaceAll_app. }
  cbn [replaceAll].
  destruct (Ascii.eqb_spec c "<") as [->|Hlt].
  { by rewrite !replaceAll_app. }
  cbn [replaceAll].
  destruct (Ascii.eqb_spec c ">") as [->|Hgt]; [done|].
  done.
Qed.

Lemma escapeHtml_nil : escapeHtml "" = "".
Proof. done. Qed.

Lemma includes_char_app (a b : string) (x : ascii) :
  Js.includes (a +:+ b) (String x "") =
  (Js.includes a (String x "") || Js.includes b (String x ""))%bool.
Proof.
  induction a as [|c a IH].
  - rewrite app_nil_l. by destruct b.
  - rewrite app_cons. cbn [Js.includes String.prefix]. rewrite IH.
    assert (forall s, String.prefix "" s = true) as Hnil by (by intros []).
    rewrite !Hnil. by destruct (ascii_dec x c).
Qed.

Lemma entityOf_no_tag (c x : ascii) :
  x = "<"%char \/ x = ">"%char ->
  Js.includes (entityOf c) (String x "") = false.
Proof.
  intros Hx. unfold entityOf.
  destruct (Ascii.eqb_spec c "&"); [by destruct Hx as [-> | ->]|].
  destruct (Ascii.eqb_spec c "<"); [by destruct Hx as [-> | ->]|].
  destruct (Ascii.eqb_spec c ">"); [by destruct Hx as [-> | ->]|].
  cbn [Js.includes String.prefix].
  destruct (ascii_dec x c) as [<-|?]; [by destruct Hx|done].
Qed.

Lemma escapeHtml_no_tag (text : string) (x : ascii) :
  x = "<"%char \/ x = ">"%char ->
  Js.includes (escapeHtml text) (String x "") = false.
Proof.
  intros Hx. induction text as [|c t IH]; [by destruct Hx as [-> | ->]|].
  by rewrite escapeHtml_cons, includes_char_app, entityOf_no_tag, IH.
Qed.

(** An ampersand of the output stands at the head of an entity. *)
Lemma entityOf_cases (c : ascii) :
  (entityOf c = String c "" /\ c <> "&"%char) \/
  (exists tail, entityOf c = String "&" tail /\
                (tail = "amp;" \/ tail = "lt;" \/ tail = "gt;")).
Proof.
  unfold entityOf.
  destruct (Ascii.eqb_spec c "&"); [right; eauto|].
  destruct (Ascii.eqb_spec c "<"); [right; eauto 6|].
  destruct (Ascii.eqb_spec c ">"); [right; eauto 6|].
  by left.
Qed.

Lemma split_after (a b pre post : string) :
  Js.includes a "&" = false ->
  a +:+ b = pre +:+ String "&" post ->
  exists pre', pre = a +:+ pre' /\ b = pre' +:+ String "&" post.
Proof.
  revert pre. induction a as [|c a IH]; intros pre Hno Heq.
  - exists pre. by rewrite !app_nil_l in *.
  - rewrite app_cons in Heq.
    assert (c <> "&"%char /\ Js.includes a "&" = false) as [Hc Ha].
    { cbn [Js.includes String.prefix] in Hno.
      destruct (ascii_dec "&" c) as [<-|?]; [by destruct a|].
      split; [congruence|done]. }
    destruct pre as [|p pre].
    + rewrite app_nil_l in Heq. injection Heq as -> _. done.
    + rewrite app_cons in Heq. injection Heq as -> Heq.
      destruct (IH pre Ha Heq) as (pre' & -> & ->). exists pre'.
      by rewrite app_cons.
Qed.

Lemma escapeHtml_entities (text pre post : string) :
  escapeHtml text = pre +:+ String "&" post ->
  exists rest,
    post = "amp;" +:+ rest \/ post = "lt;" +:+ rest \/ post = "gt;" +:+ rest.
Proof.
  revert pre. induction text as [|c t IH]; intros pre Heq.
  { rewrite escapeHtml_nil in Heq. by destruct pre. }
  rewrite escapeHtml_cons in Heq.
  destruct (entityOf_cases c) as [[Hplain Hc]|(tail & Hent & Htail)].
  - rewrite Hplain, app_cons, app_nil_l in Heq.
    destruct pre as [|p pre].
    + rewrite app_nil_l in Heq. by injection Heq as -> _.
    + rewrite app_cons in Heq. injection Heq as -> Heq. by apply (IH pre).
  - rewrite Hent, app_cons in Heq.
    destruct pre as [|p pre].
    + rewrite app_nil_l in Heq. injection Heq as <-.
      exists (escapeHtml t). by destruct Htail as [->|[->| ->]]; auto.
    + rewrite app_cons in Heq. injection Heq as <- Heq.
      apply split_after in Heq as (pre' & -> & Heq); [by apply (IH pre')|].
      by destruct Htail as [->|[->| ->]].
Qed.

(** The text that [escapeHtml] returns is safe to send with
    [parse_mode: 'HTML']: it contains neither [<] nor [>], and every [&] in
    it begins one of the entities [&amp;], [&lt;], [&gt;]. *)
Theorem escapeHtml_safe (text : string) :
  Js.includes (escapeHtml text) "<" = false /\
  Js.includes (escapeHtml text) ">" = false /\
  forall pre post,
    escapeHtml text = pre +:+ String "&" post ->
    exists rest,
      post = "amp;" +:+ rest \/ post = "lt;" +:+ rest \/ post = "gt;" +:+ rest.
Proof.
  split_and!.
  - apply escapeHtml_no_tag. by left.
  - apply escapeHtml_no_tag. by right.
  - apply escapeHtml_entities.
Qed.

Lemma entityOf_inj (c c' : ascii) (x y : string) :
  entityOf c +:+ x = entityOf c' +:+ y -> c = c' /\ x = y.
Proof.
  unfold entityOf.
  destruct (Ascii.eqb_spec c "&") as [->|?]; destruct (Ascii.eqb_spec c' "&") as [->|?].
  - rewrite !app_cons, !app_nil_l. by intros [= ->].
  - destruct (Ascii.eqb_spec c' "<") as [->|?]; [by rewrite !app_cons|].
    destruct (Ascii.eqb_spec c' ">") as [->|?]; [by rewrite !app_cons|].
    rewrite !app_cons. intros [= <- _]. done.
  - destruct (Ascii.eqb_spec c "<") as [->|?]; [by rewrite !app_cons|].
    destruct (Ascii.eqb_spec c ">") as [->|?]; [by rewrite !app_cons|].
    rewrite !app_cons. intros [= -> _]. done.
  - destruct (Ascii.eqb_spec c "<") as [->|?]; destruct (Ascii.eqb_spec c' "<") as [->|?].
    + rewrite !app_cons, !app_nil_l. by intros [= ->].
    + destruct (Ascii.eqb_spec c' ">") as [->|?]; [by rewrite !app_cons|].
      rewrite !app_cons. intros [= <- _]. done.
    + destruct (Ascii.eqb_spec c ">") as [->|?]; [by rewrite !app_cons|].
      rewrite !app_cons. intros [= -> _]. done.
    + destruct (Ascii.eqb_spec c ">") as [->|?]; destruct (Ascii.eqb_spec c' ">") as [->|?].
      * rewrite !app_cons, !app_nil_l. by intros [= ->].
      * rewrite !app_cons. intros [= <- _]. done.
      * rewrite !app_cons. intros [= -> _]. done.
      * rewrite !app_cons, !app_nil_l. by intros [= -> ->].
Qed.

Lemma entityOf_nonempty (c : ascii) (x : string) : entityOf c +:+ x <> "".
Proof.
  destruct (entityOf_cases c) as [[-> _]|(tail & -> & _)]; by rewrite app_cons.
Qed.

(** Escaping loses nothing: two texts with the same escaped form are the
    same text. *)
Theorem escapeHtml_injective (a b : string) :
  escapeHtml a = escapeHtml b -> a = b.
Proof.
  revert b. induction a as [|c a IH]; intros [|c' b] Heq.
  - done.
  - rewrite escapeHtml_nil, escapeHtml_cons in Heq. symmetry in Heq.
    by apply entityOf_nonempty in Heq.
  - rewrite escapeHtml_nil, escapeHtml_cons in Heq.
    by apply entityOf_nonempty in Heq.
  - rewrite !escapeHtml_cons in Heq. apply entityOf_inj in Heq as [-> Heq].
    f_equal. by apply IH.
Qed.

Lemma escapeHtml_injective_witness :
  "a<b" = "a<b".
Proof. apply (escapeHtml_injective "a<b" "a<b"). reflexivity. Defined.

End Escaping.
